(** * Orofacial analysis pipeline: a shallow embedding of
    [pipeline/oralfacial_analysis.py] and the properties checked against it.

    The embedding follows the [make] methods of the computed tables
    ([JawTuning], [BreathingTuning], [WhiskerTuning], [GLMFit],
    [GLMFitNoLick], [GLMFitCAE], [MovementTiming]).  NumPy arrays are lists;
    NumPy's float64 values are idealised as exact rationals ([Qc], so that
    equal values are Leibniz-equal); array objects that are mutated in place
    live in an explicit object store so that aliasing is visible; Python
    exceptions are values of an error monad. *)

From Stdlib Require Import ZArith QArith Qcanon Lqa List String Ascii.
From stdpp Require Import base list gmap sorting numbers strings pretty.

Close Scope Q_scope.
Close Scope Qc_scope.

(* ================================================================== *)
(** * Part I: the embedding *)
(* ================================================================== *)

(** ** Python: exceptions and results *)

Module Py.

(** The exceptions the modelled code can raise. *)
Inductive exn : Type :=
| IndexError
| ValueError
| UnboundLocalError
| ZeroDivisionError
| LibraryError.   (* anything raised inside statsmodels *)

(** A computation either yields a value or raises. *)
Inductive result (A : Type) : Type :=
| Ok (a : A)
| Raise (e : exn).
Arguments Ok {A} a.
Arguments Raise {A} e.

Definition bind {A B} (m : result A) (k : A → result B) : result B :=
  match m with
  | Ok a => k a
  | Raise e => Raise e
  end.

Definition is_ok {A} (m : result A) : bool :=
  match m with Ok _ => true | Raise _ => false end.

End Py.

(** [x ← m; k] sequences two statements; a raise in [m] skips [k]. *)
#[global] Instance result_ret : MRet Py.result := @Py.Ok.
#[global] Instance result_bind : MBind Py.result := λ A B k m, Py.bind m k.

(** ** Sorting with a key, as Python's [sorted(xs, key=...)] *)

(** [key_le R key a b]: the key of [a] is below the key of [b]. *)
Definition key_le {A K} (R : relation K) (key : A → K) : relation A :=
  λ a b, R (key a) (key b).

#[global] Instance key_le_dec {A K} (R : relation K) `{!RelDecision R}
  (key : A → K) : RelDecision (key_le R key).
Proof. intros a b. unfold key_le. apply _. Defined.

(** [sorted(xs, key=key)]: a stable merge sort on the keys. *)
Definition py_sorted {A K} (R : relation K) `{!RelDecision R}
  (key : A → K) (xs : list A) : list A :=
  merge_sort (key_le R key) xs.

(** Python compares [str] values lexicographically by code point. *)
Definition str_le : relation string := λ a b, String.leb a b = true.
Definition str_lt : relation string := λ a b, String.ltb a b = true.

#[global] Instance str_le_dec : RelDecision str_le.
Proof. intros a b. unfold str_le. apply _. Defined.
#[global] Instance str_lt_dec : RelDecision str_lt.
Proof. intros a b. unfold str_lt. apply _. Defined.

(** ** Trial reordering ([WhiskerTuning.make], [GLMFit.make], ...) *)

Module TrialOrder.

(** [d.astype(str)] on a non-negative integer: its decimal form. *)
Definition astype_str (d : nat) : string := pretty d.

(** [np.arange(n)] *)
Definition arange (n : nat) : list nat := seq 0 n.

(** [sorted(range(len(xs)), key=lambda k: xs[k])] *)
Definition argsort {K} `{!Inhabited K} (R : relation K) `{!RelDecision R}
  (xs : list K) : list nat :=
  py_sorted R (λ k, xs !!! k) (seq 0 (length xs)).

(** <<
    trial_idx_nat = [d.astype(str) for d in np.arange(num_trial_w)]
    trial_idx_nat = sorted(range(len(trial_idx_nat)), key=lambda k: trial_idx_nat[k])
    trial_idx_nat = sorted(range(len(trial_idx_nat)), key=lambda k: trial_idx_nat[k])
    >> *)
Definition trial_idx_nat (num_trial_w : nat) : list nat :=
  let trial_idx_nat0 := astype_str <$> arange num_trial_w in
  let trial_idx_nat1 := argsort str_le trial_idx_nat0 in
  argsort le trial_idx_nat1.

(** [session_traces_w[trial_idx_nat,:]]: row [i] of the result is row
    [trial_idx_nat[i]] of the argument; an index out of range raises. *)
Definition take_rows {A} (rows : list A) (idx : list nat) : Py.result (list A) :=
  match mapM (λ i, rows !! i) idx with
  | Some r => Py.Ok r
  | None => Py.Raise Py.IndexError
  end.


End TrialOrder.

(** ** NumPy operations used by the pipeline *)

Module Np.

(** [xs[skip::step]] for [step >= 1], with a counter of elements still to
    skip before the next one is kept. *)
Fixpoint slice_from {A} (skip step : nat) (xs : list A) : list A :=
  match xs with
  | [] => []
  | x :: xs' =>
      match skip with
      | 0 => x :: slice_from (step - 1) step xs'
      | S s => slice_from s step xs'
      end
  end.

(** The mask [aux[1:] != aux[:-1]] of [np.unique], applied along a sorted
    array: an element is kept when it differs from its predecessor. *)
Fixpoint dedup_after (prev : Z) (xs : list Z) : list Z :=
  match xs with
  | [] => []
  | x :: xs' =>
      if decide (x = prev) then dedup_after prev xs'
      else x :: dedup_after x xs'
  end.

(** [np.unique(ar)]: the sorted distinct values. *)
Definition unique (ar : list Z) : list Z :=
  match merge_sort Z.le ar with
  | [] => []
  | x :: xs => x :: dedup_after x xs
  end.

(** [np.setdiff1d(ar1, ar2)]: the sorted distinct values of [ar1] that are
    not in [ar2]. *)
Definition setdiff1d (ar1 ar2 : list Z) : list Z :=
  let ar1 := unique ar1 in
  let ar2 := unique ar2 in
  filter (λ x, x ∉ ar2) ar1.

(** Index of the first occurrence of [v] in [ar] (as [np.unique] with
    [return_index=True] reports it). *)
Definition first_index (v : Z) (ar : list Z) : nat :=
  default 0 (fst <$> list_find (λ x, x = v) ar).

(** Third result of [np.intersect1d(ar1, ar2, return_indices=True)]: for
    each common value, in increasing order, the index of its first
    occurrence in [ar2]. *)
Definition intersect1d_ind2 (ar1 ar2 : list Z) : list nat :=
  let u1 := unique ar1 in
  let u2 := unique ar2 in
  (λ v, first_index v ar2) <$> filter (λ x, x ∈ u2) u1.

(** [np.roll(xs, shift)]: the elements move [shift] places towards the
    end, those pushed out re-enter at the front. *)
Definition roll {A} (xs : list A) (shift : Z) : list A :=
  let n := length xs in
  let k := Z.to_nat (shift `mod` Z.of_nat n) in
  drop (n - k) xs ++ take (n - k) xs.

(** [np.argwhere(cond)[:,0]]: the positions at which [cond] holds. *)
Fixpoint argwhere_from (i : nat) (cond : list bool) : list nat :=
  match cond with
  | [] => []
  | b :: cond' =>
      if b then i :: argwhere_from (S i) cond' else argwhere_from (S i) cond'
  end.

Definition argwhere (cond : list bool) : list nat := argwhere_from 0 cond.

(** [np.diff(xs)], given the subtraction of the element type. *)
Fixpoint diff {A} (sub : A → A → A) (xs : list A) : list A :=
  match xs with
  | [] => []
  | x :: xs' =>
      match xs' with
      | [] => []
      | y :: _ => sub y x :: diff sub xs'
      end
  end.

End Np.

(** ** The train/test holdout ([GLMFit.make], [GLMFitCAE.make]) *)

Module Holdout.

Record partition : Type := Partition {
  test_t : list Z;      (* the held-out trials *)
  trial_key : list Z    (* the training trials *)
}.

(** [GLMFitCAE.make]:
    <<
    test_t = trial_key_o[::5] # test trials
    trial_key = np.setdiff1d(trial_key_o, test_t)
    >>
    Both parts hold trial identifiers. *)
Definition GLMFitCAE_split (trial_key_o : list Z) : partition :=
  let test_t := Np.slice_from 0 5 trial_key_o in
  let trial_key := Np.setdiff1d trial_key_o test_t in
  Partition test_t trial_key.

(** [GLMFit.make]:
    <<
    test_t_o = trial_key_o[::5] # test trials
    _,_,test_t = np.intersect1d(test_t_o, trial_key_o, return_indices=True)
    test_t = test_t + 1
    trial_key = np.setdiff1d(trial_key_o, test_t_o)
    _,_,trial_key = np.intersect1d(trial_key, trial_key_o, return_indices=True)
    trial_key = trial_key + 1
    >>
    Both parts hold 1-based positions in [trial_key_o]; the arrays of the
    session are then indexed with [test_t-1] and [trial_key-1]. *)
Definition GLMFit_split (trial_key_o : list Z) : partition :=
  let test_t_o := Np.slice_from 0 5 trial_key_o in
  let test_t := Np.intersect1d_ind2 test_t_o trial_key_o in
  let test_t := (λ i, Z.of_nat i + 1)%Z <$> test_t in
  let trial_key := Np.setdiff1d trial_key_o test_t_o in
  let trial_key := Np.intersect1d_ind2 trial_key trial_key_o in
  let trial_key := (λ i, Z.of_nat i + 1)%Z <$> trial_key in
  Partition test_t trial_key.

End Holdout.

(** ** Bad-video annotations ([BadVideo], read by [JawTuning.make],
    [GLMFit.make], ...) *)

Module BadVideo.

(** One row of the [BadVideo] table; every attribute is nullable
    ([=null: mediumblob]) and is fetched as [None] when absent. *)
Record row : Type := Row {
  bad_trial_side : option (list Z);
  bad_trial_bot : option (list Z);
  miss_trial_side : option (list Z);
  miss_trial_bot : option (list Z)
}.

(** <<
    if (x[0] is None):
        x[0]=np.array([0])
    >> *)
Definition or_sentinel (x : option (list Z)) : list Z :=
  match x with
  | None => [0%Z]
  | Some trials => trials
  end.

(** [(BadVideo & key).fetch(...)] yields one entry per row of the session;
    [x[0]] raises when there is none. *)
Definition first_row (fetched : list row) : Py.result row :=
  match fetched with
  | [] => Py.Raise Py.IndexError
  | r :: _ => Py.Ok r
  end.

(** [JawTuning.make]: the excluded trials are [miss_trial_side[0]]. *)
Definition JawTuning_excluded (fetched : list row) : Py.result (list Z) :=
  r ← first_row fetched;
  mret (or_sentinel (miss_trial_side r)).

(** [GLMFit.make]:
    [bad_trials=np.concatenate((bad_trial_side[0],bad_trial_bot[0],
                                miss_trial_side[0],miss_trial_bot[0]))] *)
Definition GLMFit_bad_trials (fetched : list row) : Py.result (list Z) :=
  r ← first_row fetched;
  mret (or_sentinel (bad_trial_side r) ++ or_sentinel (bad_trial_bot r)
        ++ or_sentinel (miss_trial_side r) ++ or_sentinel (miss_trial_bot r)).

(** The restriction [table - [{'trial': tr} for tr in excluded]]: the rows
    whose trial is none of the listed ones. *)
Definition minus_trials {A} (trial : A → Z) (table : list A)
  (excluded : list Z) : list A :=
  filter (λ r, trial r ∉ excluded) table.

End BadVideo.

(** ** The motion-decomposition trace and its consumers *)

Module MotSVD.

(** The [make] methods that fetch [mot_svd]. *)
Inductive consumer : Type :=
| WhiskerTuning
| GLMFit
| GLMFitNoLick
| GLMFitNoLickBody
| MovementTiming.

(** The canonical per-trial frame count ([num_frame = 1471], or the
    literal [1471]). *)
Definition num_frame : nat := 1471.

(** Whether the bad-video branch ends in [return]: it does at lines 206,
    460, 681 and 930; in [MovementTiming.make] (line 1586) the statement is
    commented out ([#return]). *)
Definition returns_on_bad_video (c : consumer) : bool :=
  match c with
  | MovementTiming => false
  | _ => true
  end.

(** The local variables of [make] that the fragment binds. *)
Record locals : Type := Locals {
  num_trial_w : option nat;               (* [None]: not yet bound *)
  session_traces_w : option (list (list Qc))   (* reshaped, once bound *)
}.

(** How a [make] call ends. *)
Inductive outcome (R : Type) : Type :=
| Returned (printed : list string) (inserted : list R)
| Raised (e : Py.exn) (printed : list string).
Arguments Returned {R} printed inserted.
Arguments Raised {R} e printed.

(** [np.reshape(col, (num_trial_w, num_frame))] on a column whose length is
    [num_trial_w * num_frame]. *)
Fixpoint reshape {A} (rows width : nat) (col : list A) : list (list A) :=
  match rows with
  | 0 => []
  | S rows' => take width col :: reshape rows' width (drop width col)
  end.

Section make.
Context {R : Type}.
(** The rest of [make], from the reordered trace on: it either inserts its
    records or raises. *)
Variable rest : list (list Qc) → Py.result (list R).

(** <<
    session_traces_w = (v_oralfacial_analysis.WhiskerSVD & key).fetch('mot_svd')
    if len(session_traces_w[0][:,0]) % num_frame != 0:
        print('Bad videos in bottom view')
        return                                  # [#return] in MovementTiming
    else:
        num_trial_w = int(len(session_traces_w[0][:,0])/num_frame)
        session_traces_w = np.reshape(session_traces_w[0][:,0], (num_trial_w, num_frame))
    trial_idx_nat = [d.astype(str) for d in np.arange(num_trial_w)]
    ...
    session_traces_w = session_traces_w[trial_idx_nat,:]
    >>
    [col] is the first column [session_traces_w[0][:,0]] of the fetched
    trace. *)
Definition make (c : consumer) (col : list Qc) : outcome R :=
  let bad := bool_decide (length col `mod` num_frame ≠ 0) in
  let printed := if bad then ["Bad videos in bottom view"] else [] in
  if bad && returns_on_bad_video c then Returned printed []
  else
    let vars :=
      if bad then Locals None None
      else
        let n := length col `div` num_frame in
        Locals (Some n) (Some (reshape n num_frame col)) in
    (* [np.arange(num_trial_w)] reads the local [num_trial_w] *)
    match num_trial_w vars, session_traces_w vars with
    | Some n, Some traces =>
        match
          rows ← TrialOrder.take_rows traces (TrialOrder.trial_idx_nat n);
          rest rows
        with
        | Py.Ok records => Returned printed records
        | Py.Raise e => Raised e printed
        end
    | _, _ => Raised Py.UnboundLocalError printed
    end.

End make.

End MotSVD.

(** ** float64 values, idealised *)

#[global] Instance Qc_inhabited : Inhabited Qc := populate (Qc_of_Z 0).

Module F.

(** A float64 is either a finite value, idealised as an exact rational, or
    non-finite ([None]: [inf], [-inf] or [nan], which NumPy produces on a
    division by zero instead of raising). *)
Definition float64 : Type := option Qc.

Definition of_Z (z : Z) : float64 := Some (Qc_of_Z z).
Definition of_nat (n : nat) : float64 := of_Z (Z.of_nat n).
Definition zero : float64 := Some (Qc_of_Z 0).

Definition lift2 (f : Qc → Qc → Qc) (a b : float64) : float64 :=
  match a, b with
  | Some x, Some y => Some (f x y)
  | _, _ => None
  end.

Definition add : float64 → float64 → float64 := lift2 Qcplus.
Definition sub : float64 → float64 → float64 := lift2 Qcminus.
Definition mul : float64 → float64 → float64 := lift2 Qcmult.

Definition div (a b : float64) : float64 :=
  match a, b with
  | Some x, Some y => if decide (y = Qc_of_Z 0) then None else Some (x / y)%Qc
  | _, _ => None
  end.

(** [sum(xs)] *)
Definition sum (xs : list float64) : float64 := foldl add zero xs.

(** [np.mean(xs)]: [nan] on an empty array. *)
Definition mean (xs : list float64) : float64 :=
  div (sum xs) (of_nat (length xs)).

(** [sum(map(lambda x: np.power(x,2), xs))] *)
Definition sum_squares (xs : list float64) : float64 :=
  sum ((λ x, mul x x) <$> xs).

(** [np.zeros(n)] *)
Definition zeros (n : nat) : list float64 := replicate n zero.

End F.

(** ** Phase tuning ([JawTuning.make], [BreathingTuning.make]) *)

Module Tuning.

(** [num_frame = 1470] in [JawTuning.make]. *)
Definition num_frame : Z := 1470.

(** [n_bins = 20] *)
Definition n_bins : nat := 20.

(** [n_perm = 100] *)
Definition n_perm : nat := 100.

(** [x.astype(int)] and [int(x)] on a finite float: truncation towards
    zero. *)
Definition astype_int (x : Qc) : Z := (Qnum x ÷ Z.pos (Qden x))%Z.

(** [np.median(xs)] of integer lengths: the middle element of the sorted
    array, or the mean of the two middle ones; [nan] when empty. *)
Definition median (xs : list nat) : F.float64 :=
  let s := merge_sort le xs in
  let n := length s in
  if decide (n = 0) then None
  else if decide (n `mod` 2 = 1) then F.of_nat (s !!! (n `div` 2))
  else F.div (F.add (F.of_nat (s !!! (n `div` 2 - 1)))
                    (F.of_nat (s !!! (n `div` 2))))
             (F.of_Z 2).



(** [xs[ind]] with an index array: raises when an index is out of range. *)
Definition take_ind {A} (xs : list A) (ind : list nat) : Py.result (list A) :=
  TrialOrder.take_rows xs ind.


(** [row[i]] for an integer [i]: a negative index counts from the end, an
    index outside [-len, len) raises [IndexError]. *)
Definition getitem {A} (row : list A) (i : Z) : Py.result A :=
  let n := Z.of_nat (length row) in
  let j := if decide (i < 0)%Z then (i + n)%Z else i in
  if decide (0 ≤ j < n)%Z then
    match row !! Z.to_nat j with
    | Some x => Py.Ok x
    | None => Py.Raise Py.IndexError
    end
  else Py.Raise Py.IndexError.

(** [row[idx]] for an integer array [idx]. *)
Fixpoint getitems {A} (row : list A) (idx : list Z) : Py.result (list A) :=
  match idx with
  | [] => Py.Ok []
  | i :: idx' =>
      x ← getitem row i;
      xs ← getitems row idx';
      mret (x :: xs)
  end.

(** Two matrices of the same shape. *)
Definition same_shape {A B} (m : list (list A)) (m' : list (list B)) : Prop :=
  Forall2 (λ r r', length r = length r') m m'.

(** The float64 value of [np.pi]. *)
Definition np_pi : Qc := Q2Qc (884279719003555 # 281474976710656).

Section JawTuning.
(** [behavior_plot.compute_insta_phase_amp(traces, fs, freq_band)], second
    result: the instantaneous phase, a matrix of the shape of [traces]. *)
Variable insta_phase : Qc → list (list Qc) → list (list Qc).





End JawTuning.

End Tuning.

(** ** Tuning curves and the permutation test ([JawTuning.make]) *)

Module Curve.

Definition Qc_min (x y : Qc) : Qc := if decide (x ≤ y)%Qc then x else y.
Definition Qc_max (x y : Qc) : Qc := if decide (x ≤ y)%Qc then y else x.

(** The outer bin edges [np.histogram] uses when no [range] is given: the
    minimum and maximum of the data, [(0, 1)] for empty data, widened by
    one half on each side when the two coincide. *)
Definition outer_edges (a : list Qc) : Qc * Qc :=
  match a with
  | [] => (Qc_of_Z 0, Qc_of_Z 1)
  | x :: a' =>
      let first_edge := foldr Qc_min x a' in
      let last_edge := foldr Qc_max x a' in
      if decide (first_edge = last_edge)
      then (first_edge - Q2Qc (1 # 2), last_edge + Q2Qc (1 # 2))%Qc
      else (first_edge, last_edge)
  end.

(** [np.linspace(lo, hi, n + 1)]: [n + 1] equally spaced edges. *)
Definition linspace (lo hi : Qc) (n : nat) : list Qc :=
  (λ k, lo + Qc_of_Z (Z.of_nat k) * ((hi - lo) / Qc_of_Z (Z.of_nat n)))%Qc
    <$> seq 0 (S n).

(** Bin [i] of [bins] holds the values from its left edge up to, but not
    including, its right edge; the last bin includes its right edge. *)
Definition in_bin (edges : list Qc) (bins i : nat) (x : Qc) : Prop :=
  (edges !!! i ≤ x)%Qc
  ∧ ((x < edges !!! S i)%Qc ∨ (S i = bins ∧ (x ≤ edges !!! S i)%Qc)).

#[global] Instance in_bin_dec edges bins i x : Decision (in_bin edges bins i x).
Proof. unfold in_bin. apply _. Defined.

(** [np.histogram(a, bins=bins)]: the counts and the bin edges. *)
Definition histogram (a : list Qc) (bins : nat) : list nat * list Qc :=
  let '(first_edge, last_edge) := outer_edges a in
  let bin_edges := linspace first_edge last_edge bins in
  ((λ i, length (filter (in_bin bin_edges bins i) a)) <$> seq 0 bins,
   bin_edges).

(** [counts / baseline * float(fs)], element by element; a zero baseline
    count gives a non-finite value. *)
Definition rate_normalize (counts baseline : list nat) (fs : Qc)
  : list F.float64 :=
  zip_with (λ c b, F.mul (F.div (F.of_nat c) (F.of_nat b)) (Some fs))
           counts baseline.

(** [xs[:-1]] *)
Definition but_last {A} (xs : list A) : list A := take (length xs - 1) xs.

Record curve : Type := Curve {
  tofitx0 : list Qc;        (* edges of the spike-phase histogram *)
  edges : list Qc;          (* edges of the baseline histogram *)
  baseline : list nat;
  tofitx : list Qc;
  tofity : list F.float64
}.

(** <<
    n_bins = 20
    tofity, tofitx = np.histogram(all_phase, bins=n_bins)
    baseline, tofitx = np.histogram(phase_s, bins=n_bins)
    tofitx = tofitx[:-1] + (tofitx[1] - tofitx[0])/2
    tofity = tofity / baseline * float(fs)
    >> *)
Definition JawTuning_curve (all_phase phase_s : list Qc) (fs : Qc) : curve :=
  let '(tofity, tofitx0) := histogram all_phase Tuning.n_bins in
  let '(baseline, edges) := histogram phase_s Tuning.n_bins in
  let half := ((edges !!! 1%nat - edges !!! 0%nat) / Qc_of_Z 2)%Qc in
  let tofitx := (λ e, e + half)%Qc <$> but_last edges in
  let tofity := rate_normalize tofity baseline fs in
  Curve tofitx0 edges baseline tofitx tofity.

(** [BreathingTuning.make] builds its curve by the same statements, with
    the baseline taken over the whole phase matrix and the rate
    [float(fs/ds)] for [fs=25000], [ds=100]. *)
Definition BreathingTuning_curve (all_phase : list Qc)
  (phase : list (list Qc)) : curve :=
  JawTuning_curve all_phase (concat phase) (Qc_of_Z 250).

(** The tuning curve as the specification words it: both histograms over
    the same 20 equal-width bins spanning [0, 2*pi), each value the spike
    count divided by the baseline count and by the sampling rate. *)
Definition in_bin_half_open (edges : list Qc) (i : nat) (x : Qc) : Prop :=
  (edges !!! i ≤ x)%Qc ∧ (x < edges !!! S i)%Qc.

#[global] Instance in_bin_half_open_dec edges i x :
  Decision (in_bin_half_open edges i x).
Proof. unfold in_bin_half_open. apply _. Defined.




(** *** The permutation test *)

(** [alternative=] of [scipy.stats.mannwhitneyu]. *)
Inductive alternative : Type := TwoSided | Less | Greater.

(** The state of NumPy's global random generator: the raw draws to come. *)
Definition rng : Type := nat → nat.

(** [np.random.choice(a, size)]: [size] independent draws, each of them an
    element of [a] (so elements may repeat); raises on an empty
    population. *)
Definition random_choice (a : list Qc) (size : nat) (g : rng)
  : Py.result (list Qc * rng) :=
  match a with
  | [] => if decide (size = 0) then Py.Ok ([], g) else Py.Raise Py.ValueError
  | _ => Py.Ok ((λ j, a !!! (g j `mod` length a)) <$> seq 0 size,
                λ j, g (size + j))
  end.

Section permutation.
(** [helper_functions.compute_phase_tuning(x, y)]: the preferred phase and
    the modulation index of a tuning curve. *)
Variable compute_phase_tuning :
  list Qc → list F.float64 → F.float64 * F.float64.
(** [stats.mannwhitneyu(x, y, alternative=...)]: statistic and p-value. *)
Variable mannwhitneyu :
  list F.float64 → list F.float64 → alternative → F.float64 * F.float64.

(** The modulation index drawn from one resampled phase set. *)
Definition null_index (c : curve) (fs : Qc) (sample : list Qc) : F.float64 :=
  let tofity_p := fst (histogram sample Tuning.n_bins) in
  let tofity_p := rate_normalize tofity_p (baseline c) fs in
  snd (compute_phase_tuning (tofitx c) tofity_p).

(** <<
    for i_perm in range(n_perm):
        tofity_p, _ = np.histogram(np.random.choice(phase_s, n_spk), bins=n_bins)
        tofity_p = tofity_p / baseline * float(fs)
        _, di_distr[i_perm] = helper_functions.compute_phase_tuning(tofitx, tofity_p)
    >> *)
Fixpoint permutation_loop (c : curve) (phase_s : list Qc) (n_spk : nat)
  (fs : Qc) (i_perms : list nat) (di_distr : list F.float64) (g : rng)
  : Py.result (list F.float64 * rng) :=
  match i_perms with
  | [] => Py.Ok (di_distr, g)
  | i_perm :: i_perms' =>
      '(sample, g') ← random_choice phase_s n_spk g;
      let di_distr := <[i_perm := null_index c fs sample]> di_distr in
      permutation_loop c phase_s n_spk fs i_perms' di_distr g'
  end.

(** <<
    preferred_phase,modulation_index=helper_functions.compute_phase_tuning(tofitx, tofity)
    n_perm = 100
    n_spk = len(all_phase)
    di_distr = np.zeros(n_perm)
    for i_perm in range(n_perm): ...
    _, di_perm = stats.mannwhitneyu(modulation_index,di_distr,alternative='greater')
    >>
    Returns [di_distr] and [di_perm]. *)
Definition JawTuning_di_perm (all_phase phase_s : list Qc) (fs : Qc) (g : rng)
  : Py.result (list F.float64 * F.float64) :=
  let c := JawTuning_curve all_phase phase_s fs in
  let '(preferred_phase, modulation_index) :=
    compute_phase_tuning (tofitx c) (tofity c) in
  let n_spk := length all_phase in
  let di_distr := F.zeros Tuning.n_perm in
  '(di_distr, _) ← permutation_loop c phase_s n_spk fs
                     (seq 0 Tuning.n_perm) di_distr g;
  let '(_, di_perm) := mannwhitneyu [modulation_index] di_distr Greater in
  mret (di_distr, di_perm).

End permutation.

End Curve.

(** ** The shifted Poisson GLM fits ([GLMFit.make], [GLMFitCAE.make],
    [GLMFitNoLick.make]) *)

Module GLM.

(** *** Array objects and the store *)

(** The arrays that the fits fill in place: one-dimensional ([r2s]) and
    two-dimensional ([weights_t], [predict_ys]). *)
Inductive ndarray : Type :=
| Vec (v : list F.float64)
| Mat (m : list (list F.float64)).

(** The object store: the arrays allocated so far, by address; [next] is
    the first address not yet used.  A Python variable bound to an array
    holds its address, so [r2s_t=r2s] makes two names for one object. *)
Record heap : Type := Heap {
  next : nat;
  objs : gmap nat ndarray
}.

Definition empty_heap : heap := Heap 0 ∅.

(** A statement runs in a store, may change it, and ends normally or by
    raising; what it wrote before raising stays written. *)
Definition M (A : Type) : Type := heap → heap * Py.result A.

#[global] Instance M_ret : MRet M := λ A a h, (h, Py.Ok a).
#[global] Instance M_bind : MBind M := λ A B k m h,
  match m h with
  | (h', Py.Ok a) => k a h'
  | (h', Py.Raise e) => (h', Py.Raise e)
  end.

(** A call that does not touch the store. *)
Definition lift {A} (r : Py.result A) : M A := λ h, (h, r).

(** <<
    try:
        body
    except:
        pass
    >> *)
Definition try_pass (body : M ()) : M () := λ h,
  match body h with
  | (h', _) => (h', Py.Ok ())
  end.

Definition alloc (a : ndarray) : M nat := λ h,
  (Heap (S (next h)) (<[next h := a]> (objs h)), Py.Ok (next h)).

(** [np.zeros(n)] *)
Definition np_zeros (n : nat) : M nat := alloc (Vec (F.zeros n)).

(** [np.zeros((rows, cols))] *)
Definition np_zeros2 (rows cols : nat) : M nat :=
  alloc (Mat (replicate rows (F.zeros cols))).

(** [a[i] = v] on a one-dimensional array. *)
Definition setitem (a i : nat) (v : F.float64) : M () := λ h,
  match objs h !! a with
  | Some (Vec xs) =>
      if decide (i < length xs)
      then (Heap (next h) (<[a := Vec (<[i := v]> xs)]> (objs h)), Py.Ok ())
      else (h, Py.Raise Py.IndexError)
  | _ => (h, Py.Raise Py.IndexError)
  end.

(** [a[i,:] = row] on a two-dimensional array: [row] must have the width
    of [a], or a single element that is broadcast. *)
Definition setrow (a i : nat) (row : list F.float64) : M () := λ h,
  match objs h !! a with
  | Some (Mat m) =>
      match m !! i with
      | Some old =>
          if decide (length row = length old)
          then (Heap (next h) (<[a := Mat (<[i := row]> m)]> (objs h)),
                Py.Ok ())
          else if decide (length row = 1)
          then (Heap (next h)
                  (<[a := Mat (<[i := replicate (length old) (row !!! 0)]> m)]>
                     (objs h)),
                Py.Ok ())
          else (h, Py.Raise Py.ValueError)
      | None => (h, Py.Raise Py.IndexError)
      end
  | _ => (h, Py.Raise Py.IndexError)
  end.

(** *** Array arithmetic *)

(** [a - b] on one-dimensional arrays, with NumPy's broadcasting: equal
    lengths, or one operand of length 1; anything else raises. *)
Definition np_sub (a b : list F.float64) : Py.result (list F.float64) :=
  if decide (length a = length b) then Py.Ok (zip_with F.sub a b)
  else if decide (length b = 1)
  then Py.Ok ((λ x, F.sub x (b !!! 0)) <$> a)
  else if decide (length a = 1)
  then Py.Ok ((λ y, F.sub (a !!! 0) y) <$> b)
  else Py.Raise Py.ValueError.

(** [y - np.mean(y)] on integer counts. *)
Definition deviations (y : list Z) : list F.float64 :=
  let y := F.of_Z <$> y in
  (λ x, F.sub x (F.mean y)) <$> y.

(** <<
    sst_val = sum(map(lambda x: np.power(x,2), devs))
    sse_val = sum(map(lambda x: np.power(x,2), errs))
    ... 1.0 - sse_val/sst_val
    >>
    The quotient of two float64 sums never raises (a zero total gives a
    non-finite value); only when both arrays are empty are both sums the
    Python integer 0, and their quotient raises. *)
Definition pseudo_r2 (errs devs : list F.float64) : Py.result F.float64 :=
  match errs, devs with
  | [], [] => Py.Raise Py.ZeroDivisionError
  | _, _ =>
      Py.Ok (F.sub (F.of_Z 1) (F.div (F.sum_squares errs)
                                      (F.sum_squares devs)))
  end.

(** [taus = np.arange(-5,6)] *)
Definition taus : list Z := [-5; -4; -3; -2; -1; 0; 1; 2; 3; 4; 5]%Z.

(** [for i, tau in enumerate(taus): body] *)
Fixpoint for_taus (body : nat → Z → M ()) (i : nat) (taus : list Z) : M () :=
  match taus with
  | [] => mret ()
  | tau :: taus' => body i tau;; for_taus body (S i) taus'
  end.

(** What is appended for a unit: references to the arrays it filled. *)
Record refs : Type := Refs {
  ref_r2 : nat;
  ref_r2_t : nat;
  ref_weights : nat;
  ref_predict_y : nat;
  ref_test_y : list Z
}.

(** What is inserted for a unit: the contents of those arrays. *)
Record record : Type := Record_ {
  r2 : list F.float64;
  r2_t : list F.float64;
  weights : list (list F.float64);
  predict_y : list (list F.float64);
  test_y : list Z
}.

Definition read_vec (h : heap) (a : nat) : list F.float64 :=
  match objs h !! a with Some (Vec v) => v | _ => [] end.
Definition read_mat (h : heap) (a : nat) : list (list F.float64) :=
  match objs h !! a with Some (Mat m) => m | _ => [] end.

Definition deref (h : heap) (r : refs) : record :=
  Record_ (read_vec h (ref_r2 r)) (read_vec h (ref_r2_t r))
          (read_mat h (ref_weights r)) (read_mat h (ref_predict_y r))
          (ref_test_y r).

(** The same for [GLMFitNoLick.make], which keeps no held-out score. *)
Record refs_nolick : Type := RefsNoLick {
  ref_r2_nolick : nat;
  ref_weights_nolick : nat;
  ref_predict_y_nolick : nat;
  ref_y_nolick : list Z
}.

Record record_nolick : Type := RecordNoLick {
  r2_nolick : list F.float64;
  weights_nolick : list (list F.float64);
  predict_y_nolick : list (list F.float64);
  y_nolick : list Z
}.

Definition deref_nolick (h : heap) (r : refs_nolick) : record_nolick :=
  RecordNoLick (read_vec h (ref_r2_nolick r))
               (read_mat h (ref_weights_nolick r))
               (read_mat h (ref_predict_y_nolick r))
               (ref_y_nolick r).

Section fits.
(** statsmodels, as far as the fits use it: the types of design matrices
    (already with their constant column), of unfitted models and of fit
    results, and the calls made on them. *)
Context {design model glm_result : Type}.
(** [sm.GLM(y_roll, sm.add_constant(V_design_matrix), family=...)] *)
Variable sm_GLM : list Z → design → Py.result model.
(** [glm_poiss.fit()] *)
Variable fit : model → Py.result glm_result.
(** [glm_result.resid_response], [glm_result.params] *)
Variable resid_response : glm_result → list F.float64.
Variable params : glm_result → list F.float64.
(** [glm_result.predict(sm.add_constant(V))] *)
Variable predict : glm_result → design → Py.result (list F.float64).

(** One round of the loop over [taus] in [GLMFit.make] and
    [GLMFitCAE.make]:
    <<
    y_roll=np.roll(y,tau)
    y_roll_t=np.roll(y_t,tau)
    glm_poiss = sm.GLM(y_roll, sm.add_constant(V_design_matrix), family=...)
    try:
        glm_result = glm_poiss.fit()
        sst_val = sum(map(lambda x: np.power(x,2),y_roll-np.mean(y_roll)))
        sse_val = sum(map(lambda x: np.power(x,2),glm_result.resid_response))
        r2s[i] = 1.0 - sse_val/sst_val
        y_roll_t_p=glm_result.predict(sm.add_constant(V_design_matrix_t))
        sst_val = sum(map(lambda x: np.power(x,2),y_roll_t-np.mean(y_roll_t)))
        sse_val = sum(map(lambda x: np.power(x,2),y_roll_t-y_roll_t_p))
        r2s_t[i] = 1.0 - sse_val/sst_val
        predict_ys[i,:]=y_roll_t_p
        weights_t[i,:] = glm_result.params
    except:
        pass
    >> *)
Definition GLMFit_tau (V V_t : design) (y y_t : list Z)
  (r2s r2s_t weights_t predict_ys : nat) (i : nat) (tau : Z) : M () :=
  let y_roll := Np.roll y tau in
  let y_roll_t := Np.roll y_t tau in
  glm_poiss ← lift (sm_GLM y_roll V);
  try_pass (
    glm_result ← lift (fit glm_poiss);
    r2 ← lift (pseudo_r2 (resid_response glm_result) (deviations y_roll));
    setitem r2s i r2;;
    y_roll_t_p ← lift (predict glm_result V_t);
    errs ← lift (np_sub (F.of_Z <$> y_roll_t) y_roll_t_p);
    r2_t ← lift (pseudo_r2 errs (deviations y_roll_t));
    setitem r2s_t i r2_t;;
    setrow predict_ys i y_roll_t_p;;
    setrow weights_t i (params glm_result)).

(** The body of the loop over units, up to the record handed on:
    <<
    r2s=np.zeros(len(taus))
    r2s_t=r2s
    weights_t=np.zeros((len(taus),9))     # V_design_matrix.shape[1]+1 in GLMFitCAE
    predict_ys=np.zeros((len(taus),len(y_t)))
    for i, tau in enumerate(taus): ...
    units_glm.append({**unit_key, 'r2': r2s, 'r2_t': r2s_t, 'weights': weights_t,
                      'test_y': y_t, 'predict_y': predict_ys, ...})
    >> *)
Definition GLMFit_unit (V V_t : design) (n_weights : nat)
  (unit_spikes : list Z * list Z) : M refs :=
  let '(y, y_t) := unit_spikes in
  r2s ← np_zeros (length taus);
  let r2s_t := r2s in
  weights_t ← np_zeros2 (length taus) n_weights;
  predict_ys ← np_zeros2 (length taus) (length y_t);
  for_taus (GLMFit_tau V V_t y y_t r2s r2s_t weights_t predict_ys) 0 taus;;
  mret (Refs r2s r2s_t weights_t predict_ys y_t).

(** [for unit_key in unit_keys: ...]; each unit is given by what is fetched
    for it, and hands on one record. *)
Fixpoint for_units {U R} (unit : U → M R) (units : list U) : M (list R) :=
  match units with
  | [] => mret []
  | u :: units' =>
      r ← unit u;
      rs ← for_units unit units';
      mret (r :: rs)
  end.

(** [GLMFit.make] from the loop over units on, each unit given by its
    binned spike counts [y] (training trials) and [y_t] (test trials);
    [self.insert(units_glm)] stores the contents the arrays have by then.
    ([GLMFitCAE.make] hands each record to an insert buffer instead, which
    is flushed later; the arrays of a unit are not written again after its
    loop.) *)
Definition GLMFit_make (V V_t : design) (n_weights : nat)
  (units : list (list Z * list Z)) : Py.result (list record) :=
  match for_units (GLMFit_unit V V_t n_weights) units empty_heap with
  | (h, Py.Ok units_glm) => Py.Ok (deref h <$> units_glm)
  | (_, Py.Raise e) => Py.Raise e
  end.

(** One round of the loop over [taus] in [GLMFitNoLick.make]:
    <<
    y_roll=np.roll(y,tau)
    glm_poiss = sm.GLM(y_roll, sm.add_constant(V_design_matrix), family=...)
    try:
        glm_result = glm_poiss.fit()
        sst_val = ...
        sse_val = ...
        r2 = 1.0 - sse_val/sst_val
        r2s[i] = r2
        y_roll_t_p=glm_result.predict(sm.add_constant(V_design_matrix))
        predict_ys[i,:]=y_roll_t_p
        weights_t[i,:] = glm_result.params
    except:
        pass
    >> *)
Definition GLMFitNoLick_tau (V : design) (y : list Z)
  (r2s weights_t predict_ys : nat) (i : nat) (tau : Z) : M () :=
  let y_roll := Np.roll y tau in
  glm_poiss ← lift (sm_GLM y_roll V);
  try_pass (
    glm_result ← lift (fit glm_poiss);
    r2 ← lift (pseudo_r2 (resid_response glm_result) (deviations y_roll));
    setitem r2s i r2;;
    y_roll_t_p ← lift (predict glm_result V);
    setrow predict_ys i y_roll_t_p;;
    setrow weights_t i (params glm_result)).

Definition GLMFitNoLick_unit (V : design) (y : list Z) : M refs_nolick :=
  r2s ← np_zeros (length taus);
  weights_t ← np_zeros2 (length taus) 9;
  predict_ys ← np_zeros2 (length taus) (length y);
  for_taus (GLMFitNoLick_tau V y r2s weights_t predict_ys) 0 taus;;
  mret (RefsNoLick r2s weights_t predict_ys y).

(** [GLMFitNoLick.make] from the loop over units on, each unit given by
    its binned spike counts [y]; the records go through an insert buffer
    and are stored with the contents their arrays have after the unit's
    loop. *)
Definition GLMFitNoLick_make (V : design) (units : list (list Z))
  : Py.result (list record_nolick) :=
  match for_units (GLMFitNoLick_unit V) units empty_heap with
  | (h, Py.Ok units_glm) => Py.Ok (deref_nolick h <$> units_glm)
  | (_, Py.Raise e) => Py.Raise e
  end.

End fits.

End GLM.

(** ** Bout detection ([MovementTiming.make]) *)

Module Bout.

(** [bin_width = 0.0034] *)
Definition bin_width : Qc := Q2Qc (34 # 10000).

(** [(x < threshold) & (np.roll(x,-1) >= threshold)]: the samples right
    before an upward crossing. *)
Definition rising (threshold : Qc) (x : list Qc) : list bool :=
  zip_with (λ a b, bool_decide (a < threshold)%Qc
                   && bool_decide (threshold ≤ b)%Qc)
           x (Np.roll x (-1)).

(** [np.argwhere(a_cond)[:,0]*bin_width] *)
Definition onset_times (threshold : Qc) (x : list Qc) : list Qc :=
  (λ i, Qc_of_Z (Z.of_nat i) * bin_width)%Qc
    <$> Np.argwhere (rising threshold x).

(** [(f>lo) & (f<hi)] on one frequency; a non-finite one fails it. *)
Definition in_band (lo hi : Qc) (f : F.float64) : bool :=
  match f with
  | Some q => bool_decide (lo < q)%Qc && bool_decide (q < hi)%Qc
  | None => false
  end.

(** The cycles kept as part of a bout.  For licking:
    <<
    for i,tongue in enumerate(ton_onset_idx[:-2]):
        if (next_lick[i]==1): # num licks > 3
            lick_onset_idx.append(tongue)
    >>
    and for whisking, with [two = true]:
    <<
    for i,whisker in enumerate(whisker_onset_idx[:-2]):
        if (next_whi[i]==1) & (next_whi[i+1]==1):
            whi_onset_idx.append(whisker)
    >> *)
Fixpoint keep_cycles (two : bool) (idx : list nat) (next : list Z)
  : list nat :=
  match idx, next with
  | t :: idx', d :: next' =>
      let second :=
        match next' with
        | d' :: _ => bool_decide (d' = 1%Z)
        | [] => false      (* [next[i+1]] is always in range *)
        end in
      if bool_decide (d = 1%Z) && (negb two || second)
      then t :: keep_cycles two idx' next'
      else keep_cycles two idx' next'
  | _, _ => []
  end.

(** The bout detector, from the thresholded trace to the bout times; for
    licking
    <<
    a_cond = (session_traces_t_l < threshold) & (np.roll(session_traces_t_l,-1) >= threshold)
    ton_onset=np.argwhere(a_cond)[:,0]*bin_width
    ilf=1/np.diff(ton_onset)
    ton_onset=ton_onset[:-1]
    f_cond=(ilf>3) & (ilf<9)
    ton_onset_idx=np.argwhere(f_cond)[:,0]
    lick_onset_idx=[]
    next_lick=np.diff(ton_onset_idx)
    for i,tongue in enumerate(ton_onset_idx[:-2]): ...
    lick_onset_idx=np.array(lick_onset_idx)
    lick_onset_d=np.diff(lick_onset_idx)
    lick_cond_on = np.roll(lick_onset_d,1) >= 2
    lick_cond_off = lick_onset_d >= 2
    lick_bout_onset=np.argwhere(lick_cond_on)[:,0]
    lick_bout_offset=np.argwhere(lick_cond_off)[:,0]
    if lick_bout_onset[0]!=0:
        lick_bout_onset=np.concatenate((np.array([0]),lick_bout_onset))
        lick_bout_offset=np.concatenate((lick_bout_offset,np.array([len(lick_onset_idx)-1])))
    lick_onset_time=ton_onset[lick_onset_idx[lick_bout_onset]]
    lick_offset_time=ton_onset[lick_onset_idx[lick_bout_offset]+2]
    >>
    and the same statements on [amp_w] for whisking. *)
Definition bouts (threshold lo hi : Qc) (two : bool) (x : list Qc)
  : Py.result (list Qc * list Qc) :=
  let ton_onset := onset_times threshold x in
  let ilf := (λ d, F.div (F.of_Z 1) (Some d)) <$> Np.diff Qcminus ton_onset in
  let ton_onset := Curve.but_last ton_onset in
  let f_cond := in_band lo hi <$> ilf in
  let ton_onset_idx := Np.argwhere f_cond in
  let next_lick := Np.diff Z.sub (Z.of_nat <$> ton_onset_idx) in
  let lick_onset_idx :=
    keep_cycles two (take (length ton_onset_idx - 2) ton_onset_idx)
                next_lick in
  let lick_onset_d := Np.diff Z.sub (Z.of_nat <$> lick_onset_idx) in
  let lick_cond_on := (λ d, bool_decide (2 ≤ d)%Z) <$> Np.roll lick_onset_d 1 in
  let lick_cond_off := (λ d, bool_decide (2 ≤ d)%Z) <$> lick_onset_d in
  let lick_bout_onset := Np.argwhere lick_cond_on in
  let lick_bout_offset := Np.argwhere lick_cond_off in
  first ← match lick_bout_onset with
          | [] => Py.Raise Py.IndexError
          | b :: _ => Py.Ok b
          end;
  let '(lick_bout_onset, lick_bout_offset) :=
    if bool_decide (first ≠ 0)
    then (0 :: lick_bout_onset,
          lick_bout_offset ++ [length lick_onset_idx - 1])
    else (lick_bout_onset, lick_bout_offset) in
  on_idx ← Tuning.take_ind lick_onset_idx lick_bout_onset;
  lick_onset_time ← Tuning.take_ind ton_onset on_idx;
  off_idx ← Tuning.take_ind lick_onset_idx lick_bout_offset;
  lick_offset_time ← Tuning.take_ind ton_onset ((λ i, i + 2) <$> off_idx);
  mret (lick_onset_time, lick_offset_time).

(** Licking: tongue detection at [threshold = 0.5], lick frequency
    between 3 and 9 Hz. *)
Definition lick_bouts (session_traces_t_l : list Qc)
  : Py.result (list Qc * list Qc) :=
  bouts (Q2Qc (1 # 2)) (Qc_of_Z 3) (Qc_of_Z 9) false session_traces_t_l.

(** Whisking: amplitude at [threshold = 1], whisk frequency between 1 and
    25 Hz. *)
Definition whisk_bouts (amp_w : list Qc) : Py.result (list Qc * list Qc) :=
  bouts (Qc_of_Z 1) (Qc_of_Z 1) (Qc_of_Z 25) true amp_w.

(** Onsets and offsets are paired, and each bout ends before the next one
    starts. *)
Fixpoint well_ordered (onsets offsets : list Qc) : Prop :=
  match onsets, offsets with
  | [], [] => True
  | on :: onsets', off :: offsets' =>
      (on < off)%Qc
      ∧ match onsets' with
        | [] => True
        | on' :: _ => (off < on')%Qc
        end
      ∧ well_ordered onsets' offsets'
  | _, _ => False
  end.

End Bout.

(** ** Building the bad-video annotations ([BadVideo.make]) *)

Module BadVideoMake.

(** One row of [tracking.Tracking.JawTracking] as
    [.fetch('jaw_y','trial',order_by='trial')] returns it: the trace and
    the trial it belongs to. *)
Record tracked : Type := Tracked {
  jaw_y : list Qc;
  trial : Z
}.

(** [np.where(np.array(jaw_len) != 1471)[0]] *)
Definition bad_ind (jaw_len : list nat) : list nat :=
  Np.argwhere ((λ n, bool_decide (n ≠ 1471)) <$> jaw_len).

(** <<
    miss_tr_sid=None
    if len(side_cam_trials) != len(exp_trials):
        miss_tr_sid=np.setdiff1d(exp_trials,side_cam_trials)
    >> *)
Definition missing (cam_trials exp_trials : list Z) : option (list Z) :=
  if decide (length cam_trials ≠ length exp_trials)
  then Some (Np.setdiff1d exp_trials cam_trials)
  else None.

(** <<
    jaw_y_sid,side_cam_trials=(... & 'tracking_device="Camera 3"').fetch('jaw_y','trial',order_by='trial') #side
    jaw_y_bot,bot_cam_trials=(... & 'tracking_device="Camera 4"').fetch('jaw_y','trial',order_by='trial') #bot
    exp_trials=(experiment.SessionTrial & key).fetch('trial') #exp
    jaw_sid_len = [len(d) for d in jaw_y_sid]
    bad_sid_ind = np.where(np.array(jaw_sid_len) != 1471)[0]
    jaw_bot_len = [len(d) for d in jaw_y_bot]
    bad_bot_ind = np.where(np.array(jaw_bot_len) != 1471)[0]
    miss_tr_sid=None
    if len(side_cam_trials) != len(exp_trials):
        miss_tr_sid=np.setdiff1d(exp_trials,side_cam_trials)
    miss_tr_bot=None
    if len(bot_cam_trials) != len(exp_trials):
        miss_tr_bot=np.setdiff1d(exp_trials,bot_cam_trials)
    self.insert1({**key, 'bad_trial_side': side_cam_trials[bad_sid_ind],
                  'bad_trial_bot': bot_cam_trials[bad_bot_ind],
                  'miss_trial_side': miss_tr_sid, 'miss_trial_bot': miss_tr_bot})
    >>
    The result is the inserted row. *)
Definition make (side bot : list tracked) (exp_trials : list Z)
  : Py.result BadVideo.row :=
  let jaw_y_sid := jaw_y <$> side in
  let side_cam_trials := trial <$> side in
  let jaw_y_bot := jaw_y <$> bot in
  let bot_cam_trials := trial <$> bot in
  let jaw_sid_len := (λ d : list Qc, length d) <$> jaw_y_sid in
  let bad_sid_ind := bad_ind jaw_sid_len in
  let jaw_bot_len := (λ d : list Qc, length d) <$> jaw_y_bot in
  let bad_bot_ind := bad_ind jaw_bot_len in
  let miss_tr_sid := missing side_cam_trials exp_trials in
  let miss_tr_bot := missing bot_cam_trials exp_trials in
  bad_trial_side ← Tuning.take_ind side_cam_trials bad_sid_ind;
  bad_trial_bot ← Tuning.take_ind bot_cam_trials bad_bot_ind;
  mret (BadVideo.Row (Some bad_trial_side) (Some bad_trial_bot)
                     miss_tr_sid miss_tr_bot).

End BadVideoMake.

(** ** The tongue indicator ([GLMFit.make], [GLMFitNoLick.make],
    [GLMFitNoLickBody.make], [ContactLick.make], [MovementTiming.make]) *)

Module Tongue.

(** [tongue_thr = 0.95] *)
Definition tongue_thr : Qc := Q2Qc (95 # 100).

(** [x > tongue_thr] and [x <= tongue_thr] on a float64; a non-finite
    likelihood is taken to be [nan], on which both comparisons fail. *)
Definition gt_thr (x : F.float64) : bool :=
  match x with
  | Some q => bool_decide (tongue_thr < q)%Qc
  | None => false
  end.
Definition le_thr (x : F.float64) : bool :=
  match x with
  | Some q => bool_decide (q ≤ tongue_thr)%Qc
  | None => false
  end.

#[global] Instance same_shape_dec {A B} (m : list (list A))
  (m' : list (list B)) : Decision (Tuning.same_shape m m').
Proof. unfold Tuning.same_shape. apply _. Defined.

(** An element-wise operation on two matrices of one shape (operands of
    different shapes, which NumPy would try to broadcast, are not
    modelled further: the operation raises). *)
Definition elementwise {A B C} (f : A → B → C) (m1 : list (list A))
  (m2 : list (list B)) : Py.result (list (list C)) :=
  if decide (Tuning.same_shape m1 m2)
  then Py.Ok (zip_with (zip_with f) m1 m2)
  else Py.Raise Py.ValueError.

(** The value of the array object at an address. *)
Definition get (a : nat) : GLM.M (list (list F.float64)) :=
  λ h, (h, Py.Ok (GLM.read_mat h a)).

(** [a[np.where(cond)] = v]: the array object [a] is updated in place. *)
Definition set_where (a : nat) (cond : list (list bool)) (v : F.float64)
  : GLM.M () := λ h,
  (GLM.Heap (GLM.next h)
     (<[a := GLM.Mat (zip_with (zip_with (λ (c : bool) x, if c then v else x))
                               cond (GLM.read_mat h a))]> (GLM.objs h)),
   Py.Ok ()).

(** <<
    session_traces_t_l = session_traces_b_l
    session_traces_t_l[np.where((session_traces_s_l > tongue_thr) & (session_traces_b_l > tongue_thr))] = 1
    session_traces_t_l[np.where((session_traces_s_l <= tongue_thr) | (session_traces_b_l <= tongue_thr))] = 0
    >>
    on the array objects [session_traces_s_l] and [session_traces_b_l];
    [session_traces_t_l] is a second name of the latter, so the second
    statement reads what the first one wrote. *)
Definition binarise (session_traces_s_l session_traces_b_l : nat)
  : GLM.M nat :=
  let session_traces_t_l := session_traces_b_l in
  s ← get session_traces_s_l;
  b ← get session_traces_b_l;
  cond ← GLM.lift (elementwise (λ x y, gt_thr x && gt_thr y) s b);
  set_where session_traces_t_l cond (F.of_Z 1);;
  s ← get session_traces_s_l;
  b ← get session_traces_b_l;
  cond ← GLM.lift (elementwise (λ x y, le_thr x || le_thr y) s b);
  set_where session_traces_t_l cond (F.of_Z 0);;
  mret session_traces_t_l.

(** [GLMFitNoLick.make] (and [GLMFitNoLickBody.make],
    [MovementTiming.make]) then build the mask of the whole session from
    copies of the same two arrays:
    <<
    session_traces_s_l_f = np.vstack(session_traces_s_l)
    session_traces_b_l_f = np.vstack(session_traces_b_l)
    session_traces_t_l_f = session_traces_b_l_f
    session_traces_t_l_f[np.where((session_traces_s_l_f > tongue_thr) & (session_traces_b_l_f > tongue_thr))] = 1
    session_traces_t_l_f[np.where((session_traces_s_l_f <= tongue_thr) | (session_traces_b_l_f <= tongue_thr))] = 0
    >>
    [np.vstack] allocates a new array.  Returns [session_traces_t_l] and
    [session_traces_t_l_f]. *)
Definition binarise_and_mask (session_traces_s_l session_traces_b_l : nat)
  : GLM.M (nat * nat) :=
  session_traces_t_l ← binarise session_traces_s_l session_traces_b_l;
  s ← get session_traces_s_l;
  session_traces_s_l_f ← GLM.alloc (GLM.Mat s);
  b ← get session_traces_b_l;
  session_traces_b_l_f ← GLM.alloc (GLM.Mat b);
  session_traces_t_l_f ← binarise session_traces_s_l_f session_traces_b_l_f;
  mret (session_traces_t_l, session_traces_t_l_f).

End Tongue.

(** ** Moving average and down-sampling of the traces ([GLMFit.make],
    [GLMFitNoLick.make], [MovementTiming.make]) *)

Module Smooth.

Definition Qc_sum (xs : list Qc) : Qc := foldr Qcplus 0%Qc xs.

(** [np.convolve(a, v, 'full')]: entry [n] is the sum of [a[m]*v[n-m]]
    over the [m] for which both indices exist, that is from
    [max(0, n-len(v)+1)] up to [min(n, len(a)-1)]. *)
Definition convolve_full (a v : list Qc) : list Qc :=
  (λ n, let lo := n + 1 - length v in
        let hi := (n + 1) `min` length a in
        Qc_sum ((λ m : nat, a !!! m * v !!! (n - m)%nat)%Qc <$> seq lo (hi - lo)))
    <$> seq 0 (length a + length v - 1).

(** [np.convolve(a, v, 'same')]: an empty operand raises; the longer
    operand is taken as the signal; the result is the middle part of the
    full convolution, as long as the signal. *)
Definition convolve_same (a v : list Qc) : Py.result (list Qc) :=
  if decide (a = [] ∨ v = []) then Py.Raise Py.ValueError
  else
    let '(a, v) := if decide (length a < length v) then (v, a) else (a, v) in
    Py.Ok (take (length a)
                (drop ((length v - 1) `div` 2) (convolve_full a v))).

(** The period of a video frame, [0.0034] s. *)
Definition frame_period : Qc := Q2Qc (34 # 10000).

(** [window_size = int(bin_width/0.0034)] *)
Definition window_size (bin_width : Qc) : nat :=
  Z.to_nat (Tuning.astype_int (bin_width / frame_period)).

(** [kernel = np.ones(window_size) / window_size] *)
Definition kernel (window_size : nat) : list Qc :=
  replicate window_size (1 / Qc_of_Z (Z.of_nat window_size))%Qc.

(** <<
    x = np.convolve(x, kernel, 'same')
    x = x[window_size::window_size]
    >>
    (with [window_size = 0] the kernel is empty and the first statement
    raises). *)
Definition smooth (window_size : nat) (x : list Qc) : Py.result (list Qc) :=
  y ← convolve_same x (kernel window_size);
  mret (Np.slice_from window_size window_size y).

(** The tongue indicator is smoothed like the other traces, and then
    [session_traces_t_l[np.where(session_traces_t_l < 1)] = 0]. *)
Definition smooth_indicator (window_size : nat) (session_traces_t_l : list Qc)
  : Py.result (list Qc) :=
  y ← (smooth window_size session_traces_t_l : Py.result (list Qc));
  mret ((λ v : Qc, if decide (v < 1)%Qc then 0%Qc else v) <$> (y : list Qc)).

End Smooth.

(** ** The periods away from licking ([GLMFitNoLick.make],
    [GLMFitNoLickBody.make]) *)

Module NoLick.

(** [bin_width = 0.017] *)
Definition bin_width : Qc := Q2Qc (17 # 1000).

(** The margin [0.2] kept around a lick bout. *)
Definition margin : Qc := Q2Qc (2 # 10).

(** [all_period_idx*bin_width] at one index. *)
Definition time_of (k : nat) : Qc := (Qc_of_Z (Z.of_nat k) * bin_width)%Qc.

(** [all_period_idx[mask]], for a mask given by a condition on the time of
    the bin. *)
Definition select (P : Qc → Prop) `{!∀ t, Decision (P t)}
  (all_period_idx : list nat) : list nat :=
  filter (λ k, P (time_of k)) all_period_idx.

(** <<
    for i,val in enumerate(lick_onset_time[1:]):
        good_period_idx.append(all_period_idx[(all_period_idx*bin_width<lick_onset_time[i+1]-0.2) & (all_period_idx*bin_width>lick_offset_time[i]+0.2)])
    >>
    from iteration [i] on, [rest] being the part of [lick_onset_time[1:]]
    still to visit; returns what is appended. *)
Fixpoint between_bouts (all_period_idx : list nat)
  (lick_onset_time lick_offset_time : list Qc) (i : nat) (rest : list Qc)
  : Py.result (list (list nat)) :=
  match rest with
  | [] => Py.Ok []
  | _ :: rest' =>
      onset ← Tuning.getitem lick_onset_time (Z.of_nat i + 1);
      offset ← Tuning.getitem lick_offset_time (Z.of_nat i);
      others ← between_bouts all_period_idx lick_onset_time lick_offset_time
                 (S i) rest';
      mret (select (λ t, t < onset - margin ∧ offset + margin < t)%Qc
                   all_period_idx :: others)
  end.

(** <<
    all_period_idx=np.arange(len(session_traces_b_y))
    good_period_idx=[all_period_idx[(all_period_idx*bin_width<lick_onset_time[1]-0.2)]] # restrict by whisking bouts
    for i,val in enumerate(lick_onset_time[1:]):
        ...
    good_period_idx.append(all_period_idx[(all_period_idx*bin_width>lick_offset_time[-1]+0.2)])
    good_period_idx=np.array(good_period_idx)
    good_period_idx=np.hstack(good_period_idx)
    >>
    [n] is [len(session_traces_b_y)].  [np.array] of arrays of different
    lengths is taken to build an array of arrays, as NumPy did before
    version 1.24. *)
Definition good_period_idx (n : nat) (lick_onset_time lick_offset_time : list Qc)
  : Py.result (list nat) :=
  let all_period_idx := seq 0 n in
  onset1 ← Tuning.getitem lick_onset_time 1;
  let first := select (λ t, t < onset1 - margin)%Qc all_period_idx in
  between ← between_bouts all_period_idx lick_onset_time lick_offset_time
              0 (drop 1 lick_onset_time);
  last_offset ← Tuning.getitem lick_offset_time (-1);
  let last := select (λ t, last_offset + margin < t)%Qc all_period_idx in
  mret (concat ([first] ++ between ++ [last])).

End NoLick.

(** ** Tongue contacts with the lick port ([ContactLick.make]) *)

Module ContactLick.

(** [ts = 0.0034] *)
Definition ts : Qc := Q2Qc (34 # 10000).

(** [radius=1] *)
Definition radius : Qc := 1%Qc.

(** [likelihood[i,:]==1] at one frame. *)
Definition is_one (v : F.float64) : bool := bool_decide (v = Some 1%Qc).

(** [np.median] of a float array: [nan] when the array is empty or holds a
    non-finite value. *)
Definition median (xs : list F.float64) : F.float64 :=
  match mapM id xs with
  | None => None
  | Some qs =>
      let s := merge_sort Qcle qs in
      let n := length s in
      if decide (n = 0) then None
      else if decide (n `mod` 2 = 1) then Some (s !!! (n `div` 2))
      else Some ((s !!! (n `div` 2 - 1)%nat + s !!! (n `div` 2)%nat) / 2)%Qc
  end.

(** [a + b] on one-dimensional arrays, with NumPy's broadcasting. *)
Definition np_add (a b : list F.float64) : Py.result (list F.float64) :=
  if decide (length a = length b) then Py.Ok (zip_with F.add a b)
  else if decide (length b = 1)
  then Py.Ok ((λ x, F.add x (b !!! 0)) <$> a)
  else if decide (length a = 1)
  then Py.Ok ((λ y, F.add (a !!! 0) y) <$> b)
  else Py.Raise Py.ValueError.

(** [(xp-lick_x_med)**2] *)
Definition sq_dev (xp : list F.float64) (med : F.float64) : list F.float64 :=
  (λ x, let d := F.sub x med in F.mul d d) <$> xp.

(** [row[s:e]] *)
Definition slice {A} (s e : nat) (row : list A) : list A :=
  take (e - s) (drop s row).

(** [np.where(d2 < radius**2)] on one array: the positions within reach. *)
Definition within (d2 : list F.float64) : list nat :=
  Np.argwhere ((λ d : F.float64,
                  match d with
                  | Some q => bool_decide (q < radius * radius)%Qc
                  | None => false
                  end) <$> d2).

(** <<
    for j in np.arange(len(lickS1)):
        xp=bot_ton_x[i,lickS1[j]:lickE1[j]]
        yp=bot_ton_y[i,lickS1[j]:lickE1[j]]
        zp=bot_ton_z[i,lickS1[j]:lickE1[j]]
        inside=np.where(((xp-lick_x_med)**2 + (yp-lick_y_med)**2 + (zp-lick_z_med)**2) < radius**2)
        if lickE1[j]-lickS1[j]>10 and lickE1[j]-lickS1[j]<35  and np.size(inside)>0:
            contacts.append(lickS1[j]*ts)
    >>
    over the licks still to visit. *)
Fixpoint contact_loop (ton_x ton_y ton_z : list F.float64)
  (lick_x_med lick_y_med lick_z_med : F.float64) (lickS1 lickE1 : list nat)
  : Py.result (list Qc) :=
  match lickS1, lickE1 with
  | s :: lickS1', e :: lickE1' =>
      let xp := slice s e ton_x in
      let yp := slice s e ton_y in
      let zp := slice s e ton_z in
      xy ← np_add (sq_dev xp lick_x_med) (sq_dev yp lick_y_med);
      d2 ← np_add xy (sq_dev zp lick_z_med);
      let inside := within d2 in
      let span := (Z.of_nat e - Z.of_nat s)%Z in
      contacts ← contact_loop ton_x ton_y ton_z
                   lick_x_med lick_y_med lick_z_med lickS1' lickE1';
      mret (if decide ((10 < span)%Z ∧ (span < 35)%Z ∧ 0 < length inside)
            then (Qc_of_Z (Z.of_nat s) * ts)%Qc :: contacts
            else contacts)
  | _, _ => Py.Ok []
  end.

(** One trial of [ContactLick.make]:
    <<
    lickSpan=np.where(likelihood[i,:]==1)[0]
    lickBreak=np.diff(lickSpan)
    lickS=np.concatenate(([0], np.where(lickBreak>1)[0]+1))
    contacts = []
    if len(lickS)>1:
        lickS1=lickSpan[lickS]
        lickE1=np.concatenate((lickSpan[lickS[1:]-1], [lickSpan[-1]]))
        lick_x_med=np.median(bot_lic_x[i,350:])
        lick_y_med=np.median(bot_lic_y[i,350:])
        lick_z_med=np.median(bot_lic_z[i,350:])
        for j in np.arange(len(lickS1)): ...
    >>
    Returns [contacts]. *)
Definition contacts (likelihood ton_x ton_y ton_z lic_x lic_y lic_z
                       : list F.float64) : Py.result (list Qc) :=
  let lickSpan := Np.argwhere (is_one <$> likelihood) in
  let lickBreak := Np.diff Z.sub (Z.of_nat <$> lickSpan) in
  let lickS : list Z :=
    0%Z :: ((λ k, Z.of_nat k + 1)%Z
              <$> Np.argwhere ((λ d, bool_decide (1 < d)%Z) <$> lickBreak)) in
  if decide (1 < length lickS) then
    lickS1 ← Tuning.getitems lickSpan lickS;
    ends ← Tuning.getitems lickSpan ((λ k, k - 1)%Z <$> drop 1 lickS);
    last ← Tuning.getitem lickSpan (-1);
    let lickE1 := ends ++ [last] in
    let lick_x_med := median (drop 350 lic_x) in
    let lick_y_med := median (drop 350 lic_y) in
    let lick_z_med := median (drop 350 lic_z) in
    contact_loop ton_x ton_y ton_z lick_x_med lick_y_med lick_z_med
                 lickS1 lickE1
  else Py.Ok [].

End ContactLick.

(** ** Inspiration onsets ([MovementTiming.make]) *)

Module Breath.

(** [a_threshold = -0.5] *)
Definition a_threshold : Qc := Q2Qc (-5 # 10).

(** [(x > a_threshold) & (np.roll(x,-1) <= a_threshold)]: the samples
    right before a downward crossing. *)
Definition falling (threshold : Qc) (x : list Qc) : list bool :=
  zip_with (λ a b, bool_decide (threshold < a)%Qc
                   && bool_decide (b ≤ threshold)%Qc)
           x (Np.roll x (-1)).

(** <<
    for i, inspir_value in enumerate(inspir_onset[:-1]):
        if any((inspir_amp>inspir_value) & (inspir_amp<inspir_onset[i+1])):
            inspir_onset_a.append(inspir_value)
    >>
    over the onsets still to visit; [inspir_onset[i+1]] is the onset that
    follows. *)
Fixpoint with_crossing (inspir_amp : list Qc) (inspir_onset : list Qc)
  : list Qc :=
  match inspir_onset with
  | inspir_value :: rest =>
      match rest with
      | next :: _ =>
          if decide (Exists (λ a, inspir_value < a ∧ a < next)%Qc inspir_amp)
          then inspir_value :: with_crossing inspir_amp rest
          else with_crossing inspir_amp rest
      | [] => []
      end
  | [] => []
  end.

(** <<
    threshold = np.pi
    cond = (phase_b < threshold) & (np.roll(phase_b,-1) >= threshold)
    inspir_onset=np.argwhere(cond)[:,0]*bin_width # get onset of breath
    a_threshold = -0.5 # amplitude threshold
    a_cond = (good_breathing > a_threshold) & (np.roll(good_breathing,-1) <= a_threshold)
    inspir_amp=np.argwhere(a_cond)[:,0]*bin_width # amp threshold
    inspir_onset_a = [] # only take inspir with a amp crossing
    for i, inspir_value in enumerate(inspir_onset[:-1]): ...
    inspir_onset=np.array(inspir_onset_a)
    >> *)
Definition inspiration_onsets (phase_b good_breathing : list Qc) : list Qc :=
  let threshold := Tuning.np_pi in
  let inspir_onset := Bout.onset_times threshold phase_b in
  let inspir_amp :=
    (λ i, Qc_of_Z (Z.of_nat i) * Bout.bin_width)%Qc
      <$> Np.argwhere (falling a_threshold good_breathing) in
  with_crossing inspir_amp inspir_onset.

End Breath.

(** ** Spike times along the session ([LickLatency.make],
    [UnitPsth.make], [LickReset.make], [LickRate.make]) *)

Module Spikes.

(** [traces_len*3.4/1000] for [traces_len=1471]: the time a trial takes. *)
Definition trial_time : Qc := Q2Qc (50014 # 10000).

(** [d[d < traces_len*3.4/1000]+traces_len*3.4/1000*i] *)
Definition shifted (i : nat) (d : list Qc) : list Qc :=
  (λ t, t + trial_time * Qc_of_Z (Z.of_nat i))%Qc
    <$> filter (λ t, t < trial_time)%Qc d.

(** [np.hstack(arrays)]: the arrays one after the other; an empty sequence
    of arrays raises. *)
Definition hstack {A} (arrays : list (list A)) : Py.result (list A) :=
  match arrays with
  | [] => Py.Raise Py.ValueError
  | _ => Py.Ok (concat arrays)
  end.

(** <<
    good_spikes=all_spikes
    for i, d in enumerate(good_spikes):
        good_spikes[i] = d[d < traces_len*3.4/1000]+traces_len*3.4/1000*i
    good_spikes = np.hstack(good_spikes)
    >> *)
Definition good_spikes (all_spikes : list (list Qc)) : Py.result (list Qc) :=
  hstack (imap shifted all_spikes).


End Spikes.

(** ** Spike counts around the lick-bout onsets ([LickLatency.make],
    [UnitPsth.make]) *)

Module Psth.

(** [bin_width=0.001] *)
Definition bin_width : Qc := Q2Qc (1 # 1000).

(** [good_spikes[(good_spikes>lick_t-t_before) & (good_spikes<lick_t+t_after)]-lick_t] *)
Definition around (t_before t_after : Qc) (good_spikes : list Qc)
  (lick_t : Qc) : list Qc :=
  (λ t, t - lick_t)%Qc
    <$> filter (λ t, lick_t - t_before < t ∧ t < lick_t + t_after)%Qc
               good_spikes.

(** <<
    psth=[]
    for lick_t in lick_onset[0]:
        psth.append(good_spikes[(good_spikes>lick_t-t_before) & (good_spikes<lick_t+t_after)]-lick_t)
    psth=np.hstack(psth)
    >>
    [lick_onset] is the array [lick_onset[0]] of the session. *)
Definition psth (t_before t_after : Qc) (good_spikes lick_onset : list Qc)
  : Py.result (list Qc) :=
  Spikes.hstack (around t_before t_after good_spikes <$> lick_onset).

(** The least integer that is not below [x]. *)
Definition ceil (x : Qc) : Z := (- ((- Qnum x) `div` Z.pos (Qden x)))%Z.

(** [np.arange(start, stop, step)] on floats: the
    [ceil((stop - start)/step)] values [start + k*step]. *)
Definition arange (start stop step : Qc) : list Qc :=
  (λ k, start + Qc_of_Z (Z.of_nat k) * step)%Qc
    <$> seq 0 (Z.to_nat (ceil ((stop - start) / step))).

(** [np.histogram(a, bins)[0]] for an array [bins] of increasing edges, as
    [np.arange] gives them: one count per pair of neighbouring edges. *)
Definition histogram_bins (a bins : list Qc) : list nat :=
  let n := length bins - 1 in
  (λ i, length (filter (Curve.in_bin bins n i) a)) <$> seq 0 n.

(** [UnitPsth.make] for one unit:
    <<
    t_before=0.5
    t_after=0.5
    bin_width=0.001
    ...
    y, bin_edges = np.histogram(psth, np.arange(-t_before, t_after, bin_width))
    half_bin=(bin_edges[1]-bin_edges[0])/2
    y=y/len(lick_onset[0])/(bin_edges[1]-bin_edges[0])
    units_psths.append({**unit_key, 'psth': y, 'psth_bins': bin_edges[1:]-half_bin})
    >>
    Returns [psth] and [psth_bins]. *)
Definition UnitPsth (all_spikes : list (list Qc)) (lick_onset : list Qc)
  : Py.result (list F.float64 * list Qc) :=
  let t_before := Q2Qc (1 # 2) in
  let t_after := Q2Qc (1 # 2) in
  good_spikes ← Spikes.good_spikes all_spikes;
  psth ← psth t_before t_after good_spikes lick_onset;
  let bin_edges := arange (- t_before) t_after bin_width in
  let y := histogram_bins psth bin_edges in
  let half_bin := ((bin_edges !!! 1%nat - bin_edges !!! 0%nat) / 2)%Qc in
  let y :=
    (λ c, F.div (F.div (F.of_nat c) (F.of_nat (length lick_onset)))
                (Some (bin_edges !!! 1%nat - bin_edges !!! 0%nat)%Qc))
      <$> y in
  mret (y, (λ e, e - half_bin)%Qc <$> drop 1 bin_edges).

(** <<
    latency=0
    for i, thr in enumerate(thr_cross[:-1]):
        if thr_cross[i+1]==thr+1:
            latency=thr*bin_width
            break
    >>
    over the crossings still to visit. *)
Fixpoint first_pair (thr_cross : list nat) : Qc :=
  match thr_cross with
  | thr :: rest =>
      match rest with
      | next :: _ =>
          if decide (next = thr + 1)
          then (Qc_of_Z (Z.of_nat thr) * bin_width)%Qc
          else first_pair rest
      | [] => 0%Qc
      end
  | [] => 0%Qc
  end.

Section LickLatency.
(** [stats.poisson.ppf(q, mu)] *)
Variable poisson_ppf : Qc → F.float64 → F.float64.

(** [stats.poisson.ppf(0.95,fr_mean)] for
    [fr_mean=np.mean(y[0:int((t_before/bin_width)-1)])], with
    [t_before=1]. *)
Definition threshold (y : list nat) : F.float64 :=
  let t_before := 1%Qc in
  let fr_mean :=
    F.mean (F.of_nat
              <$> take (Z.to_nat (Tuning.astype_int (t_before / bin_width - 1)))
                       y) in
  poisson_ppf (Q2Qc (95 # 100)) fr_mean.

(** [y > threshold] on one count; no count exceeds [nan]. *)
Definition exceeds (thr : F.float64) (c : nat) : bool :=
  match thr with
  | Some q => bool_decide (q < Qc_of_Z (Z.of_nat c))%Qc
  | None => false
  end.

(** [thr_cross=np.where(y[int((t_before/bin_width)):]>stats.poisson.ppf(0.95,fr_mean))[0]] *)
Definition thr_cross (y : list nat) : list nat :=
  let t_before := 1%Qc in
  Np.argwhere
    (exceeds (threshold y)
       <$> drop (Z.to_nat (Tuning.astype_int (t_before / bin_width))) y).

(** The latency, from the spike counts [y] of the bins. *)
Definition latency_of_counts (y : list nat) : Qc := first_pair (thr_cross y).

(** [LickLatency.make] for one unit:
    <<
    t_before=1
    t_after=0.5
    bin_width=0.001
    ...
    y, bin_edges = np.histogram(psth, np.arange(-t_before, t_after, bin_width))
    fr_mean=np.mean(y[0:int((t_before/bin_width)-1)])
    thr_cross=np.where(y[int((t_before/bin_width)):]>stats.poisson.ppf(0.95,fr_mean))[0]
    latency=0
    for i, thr in enumerate(thr_cross[:-1]): ...
    >> *)
Definition LickLatency (all_spikes : list (list Qc)) (lick_onset : list Qc)
  : Py.result Qc :=
  let t_before := 1%Qc in
  let t_after := Q2Qc (1 # 2) in
  good_spikes ← Spikes.good_spikes all_spikes;
  psth ← psth t_before t_after good_spikes lick_onset;
  let y := histogram_bins psth (arange (- t_before) t_after bin_width) in
  mret (latency_of_counts y).

End LickLatency.

End Psth.

(* ================================================================== *)
(** * Part II: properties *)
(* ================================================================== *)

(** ** Facts about the string order *)


Lemma ascii_compare_lt_trans (a b c : ascii) :
  Ascii.compare a b = Lt → Ascii.compare b c = Lt → Ascii.compare a c = Lt.
Proof.
  unfold Ascii.compare. rewrite !N.compare_lt_iff. apply N.lt_trans.
Qed.


Lemma string_compare_lt_trans (s1 s2 s3 : string) :
  String.compare s1 s2 = Lt → String.compare s2 s3 = Lt →
  String.compare s1 s3 = Lt.
Proof.
  revert s2 s3. induction s1 as [|a s1 IH]; intros [|b s2] [|c s3]; simpl;
    try done.
  destruct (Ascii.compare a b) eqn:Hab; try done.
  - apply Ascii.compare_eq_iff in Hab as ->.
    destruct (Ascii.compare b c) eqn:Hbc; try done. apply IH.
  - destruct (Ascii.compare b c) eqn:Hbc; try done.
    + apply Ascii.compare_eq_iff in Hbc as <-. by rewrite Hab.
    + by rewrite (ascii_compare_lt_trans a b c).
Qed.


#[global] Instance str_le_trans : Transitive str_le.
Proof.
  intros a b c. unfold str_le, String.leb.
  destruct (String.compare a b) eqn:Hab; try done.
  - apply String.compare_eq_iff in Hab as ->. done.
  - destruct (String.compare b c) eqn:Hbc; try done.
    + apply String.compare_eq_iff in Hbc as <-. by rewrite Hab.
    + by rewrite (string_compare_lt_trans a b c).
Qed.

#[global] Instance str_le_total : Total str_le.
Proof. intros a b. apply String.leb_total. Qed.

#[global] Instance str_le_antisym : AntiSymm (=) str_le.
Proof. intros a b. apply String.leb_antisym. Qed.

(** ** Generic list facts *)

Lemma filter_all {A} (P : A → Prop) `{!∀ x, Decision (P x)} (l : list A) :
  Forall P l → filter P l = l.
Proof.
  induction 1 as [|x l Hx _ IH]; [done|].
  rewrite filter_cons_True by done. by rewrite IH.
Qed.


Lemma filter_ext_elem {A} (P Q : A → Prop) `{!∀ x, Decision (P x)}
  `{!∀ x, Decision (Q x)} (l : list A) :
  (∀ x, x ∈ l → P x ↔ Q x) → filter P l = filter Q l.
Proof.
  induction l as [|x l IH]; intros Hext; [done|].
  rewrite !filter_cons.
  rewrite IH by (intros y Hy; apply Hext; by right).
  destruct (decide (P x)) as [HP|HP], (decide (Q x)) as [HQ|HQ]; try done.
  - destruct HQ. apply Hext; [by left|done].
  - destruct HP. apply Hext; [by left|done].
Qed.



(** ** Sorting indices by key, twice, yields ranks *)

Section argsort_rank.
Context {K : Type} `{!Inhabited K, !EqDecision K}.
Context (R : relation K) `{!RelDecision R}.
Context `{!Transitive R, !Total R, !AntiSymm (=) R}.

(** [j] lies strictly below [k] in the key order of [xs]. *)
Definition key_below (xs : list K) (k j : nat) : Prop :=
  R (xs !!! j) (xs !!! k) ∧ xs !!! j ≠ xs !!! k.

#[local] Instance key_below_dec xs k j : Decision (key_below xs k j).
Proof. unfold key_below. apply _. Defined.


#[local] Instance key_le_trans {A} (key : A → K) : Transitive (key_le R key).
Proof. intros a b c. unfold key_le. apply transitivity. Qed.

#[local] Instance key_le_total {A} (key : A → K) : Total (key_le R key).
Proof. intros a b. unfold key_le. apply total, _. Qed.










End argsort_rank.

(** ** Trial reordering *)









(** ** The holdout partition *)

Lemma slice_from_lookup {A} (skip step : nat) (xs : list A) (j : nat) :
  0 < step → Np.slice_from skip step xs !! j = xs !! (skip + j * step).
Proof.
  intros Hstep. revert skip j.
  induction xs as [|x xs IH]; intros skip j; [done|].
  destruct skip as [|s]; simpl.
  - destruct j as [|j]; [done|]. simpl. rewrite IH.
    replace (step + j * step) with (S (step - 1 + j * step)) by lia. done.
  - by rewrite IH.
Qed.

Lemma slice_from_elem_of {A} (skip step : nat) (xs : list A) (x : A) :
  x ∈ Np.slice_from skip step xs → x ∈ xs.
Proof.
  revert skip. induction xs as [|y xs IH]; intros skip; simpl; [done|].
  destruct skip as [|s].
  - intros [->|Hx]%elem_of_cons; [by left|]. right. by eapply IH.
  - intros Hx. right. by eapply IH.
Qed.

Lemma slice_from_StronglySorted {A} (R : relation A) skip step (xs : list A) :
  StronglySorted R xs → StronglySorted R (Np.slice_from skip step xs).
Proof.
  intros Hs. revert skip.
  induction Hs as [|x xs Hs IH Hx]; intros skip; simpl; [constructor|].
  destruct skip as [|s]; [|apply IH].
  constructor; [apply IH|].
  apply Forall_forall. intros y Hy%slice_from_elem_of.
  rewrite Forall_forall in Hx. by apply Hx.
Qed.

Lemma filter_StronglySorted {A} (R : relation A) (P : A → Prop)
  `{!∀ x, Decision (P x)} (xs : list A) :
  StronglySorted R xs → StronglySorted R (filter P xs).
Proof.
  induction 1 as [|x xs Hs IH Hx]; [constructor|].
  rewrite filter_cons. destruct (decide (P x)); [|done].
  constructor; [done|].
  apply Forall_forall. intros y [_ Hy]%list_elem_of_filter.
  rewrite Forall_forall in Hx. by apply Hx.
Qed.

Lemma StronglySorted_lt_le (xs : list Z) :
  StronglySorted Z.lt xs → StronglySorted Z.le xs.
Proof.
  induction 1 as [|x xs Hs IH Hx]; constructor; [done|].
  eapply Forall_impl; [exact Hx|]. intros y ?. simpl in *. lia.
Qed.

Lemma StronglySorted_lt_NoDup (xs : list Z) :
  StronglySorted Z.lt xs → NoDup xs.
Proof.
  induction 1 as [|x xs Hs IH Hx]; constructor; [|done].
  intros Hin. rewrite Forall_forall in Hx. apply Hx in Hin. lia.
Qed.

Lemma dedup_after_sorted (x : Z) (xs : list Z) :
  StronglySorted Z.lt (x :: xs) → Np.dedup_after x xs = xs.
Proof.
  revert x. induction xs as [|y xs IH]; intros x Hs; [done|].
  apply StronglySorted_cons in Hs as [Hx Hs]. simpl.
  apply Forall_cons in Hx as [Hxy _].
  destruct (decide (y = x)) as [->|_]; [lia|].
  by rewrite IH.
Qed.

Lemma unique_sorted (xs : list Z) :
  StronglySorted Z.lt xs → Np.unique xs = xs.
Proof.
  intros Hs. unfold Np.unique.
  assert (merge_sort Z.le xs = xs) as ->.
  { apply (StronglySorted_unique Z.le).
    - apply StronglySorted_merge_sort; apply _.
    - by apply StronglySorted_lt_le.
    - apply merge_sort_Permutation. }
  destruct xs as [|x xs]; [done|]. by rewrite dedup_after_sorted.
Qed.

Lemma first_index_lookup (xs : list Z) (i : nat) (v : Z) :
  NoDup xs → xs !! i = Some v → Np.first_index v xs = i.
Proof.
  intros Hnd Hi. unfold Np.first_index.
  destruct (list_find (λ x, x = v) xs) as [[j y]|] eqn:Hfind; simpl.
  - apply list_find_Some in Hfind as (Hj & -> & _).
    by eapply NoDup_lookup.
  - apply list_find_None in Hfind. rewrite Forall_forall in Hfind.
    destruct (Hfind v); [|done]. apply list_elem_of_lookup. eauto.
Qed.

(** On a strictly increasing array, [intersect1d] against a sub-array
    reports the position of each of its elements. *)
Lemma intersect1d_ind2_sorted (sub xs : list Z) :
  StronglySorted Z.lt xs → StronglySorted Z.lt sub →
  (∀ x, x ∈ sub → x ∈ xs) →
  Np.intersect1d_ind2 sub xs = (λ v, Np.first_index v xs) <$> sub.
Proof.
  intros Hxs Hsub Hincl. unfold Np.intersect1d_ind2.
  rewrite !unique_sorted by done.
  rewrite filter_all; [done|]. by apply Forall_forall.
Qed.

Lemma setdiff1d_sorted (xs ys : list Z) :
  StronglySorted Z.lt xs → StronglySorted Z.lt ys →
  Np.setdiff1d xs ys = filter (λ x, x ∉ ys) xs.
Proof. intros. unfold Np.setdiff1d. by rewrite !unique_sorted. Qed.

Lemma elem_of_slice5 (xs : list Z) (i : nat) (x : Z) :
  NoDup xs → xs !! i = Some x →
  x ∈ Np.slice_from 0 5 xs ↔ i `mod` 5 = 0.
Proof.
  intros Hnd Hi. rewrite list_elem_of_lookup.
  setoid_rewrite slice_from_lookup; [|lia]. split.
  - intros [j Hj]. rewrite Nat.add_0_l in Hj.
    rewrite (NoDup_lookup _ _ _ _ Hnd Hi Hj).
    by rewrite Nat.Div0.mod_mul.
  - intros Hmod. exists (i `div` 5). rewrite Nat.add_0_l.
    assert (i `div` 5 * 5 = i) as ->; [|done].
    pose proof (Nat.div_mod i 5). lia.
Qed.


Lemma first_index_fmap_id (xs : list Z) :
  NoDup xs →
  (λ v, Z.of_nat (Np.first_index v xs) + 1)%Z <$> xs
  = (λ i, Z.of_nat i + 1)%Z <$> seq 0 (length xs).
Proof.
  intros Hnd. apply list_eq. intros i. rewrite !list_lookup_fmap.
  destruct (xs !! i) as [v|] eqn:Hi; simpl.
  - rewrite lookup_seq_lt by (by eapply lookup_lt_Some). simpl.
    by rewrite (first_index_lookup xs i v).
  - apply lookup_ge_None in Hi. by rewrite lookup_seq_ge.
Qed.

Lemma holdout_cae_perm (trial_key_o : list Z) :
  StronglySorted Z.lt trial_key_o →
  Holdout.test_t (Holdout.GLMFitCAE_split trial_key_o)
    ++ Holdout.trial_key (Holdout.GLMFitCAE_split trial_key_o)
  ≡ₚ trial_key_o.
Proof.
  intros Hs. simpl.
  pose proof (StronglySorted_lt_NoDup _ Hs) as Hnd.
  set (test := Np.slice_from 0 5 trial_key_o).
  assert (StronglySorted Z.lt test) as Hts
    by by apply slice_from_StronglySorted.
  rewrite setdiff1d_sorted by done.
  etrans; [|apply (filter_app_complement (λ x, x ∈ test) trial_key_o)].
  apply Permutation_app_tail, NoDup_Permutation.
  - by apply StronglySorted_lt_NoDup.
  - by apply NoDup_filter.
  - intros x. rewrite list_elem_of_filter. split; [|tauto].
    intros Hx. split; [done|]. by eapply slice_from_elem_of.
Qed.

(** C5. On a non-empty, strictly increasing list of trial identifiers the
    holdout reserves exactly the trials at positions 0, 5, 10, ... for
    testing and trains on exactly the others; the two parts are disjoint
    and together make up the input, both in [GLMFitCAE.make] (which keeps
    trial identifiers) and in [GLMFit.make] (which keeps 1-based positions
    of the trial-ordered arrays); the partition is a function of the input
    list alone. *)
Theorem holdout_every_fifth (trial_key_o : list Z) :
  trial_key_o ≠ [] →
  StronglySorted Z.lt trial_key_o →
  let cae := Holdout.GLMFitCAE_split trial_key_o in
  let glm := Holdout.GLMFit_split trial_key_o in
  (∀ j, Holdout.test_t cae !! j = trial_key_o !! (5 * j))
  ∧ (∀ x, x ∈ Holdout.trial_key cae ↔
          ∃ i, trial_key_o !! i = Some x ∧ i `mod` 5 ≠ 0)
  ∧ (∀ x, x ∈ Holdout.test_t cae → x ∉ Holdout.trial_key cae)
  ∧ Holdout.test_t cae ++ Holdout.trial_key cae ≡ₚ trial_key_o
  ∧ Holdout.test_t glm
    = (λ j, Z.of_nat (5 * j) + 1)%Z <$> seq 0 (length (Holdout.test_t cae))
  ∧ (∀ p, p ∈ Holdout.trial_key glm ↔
          ∃ i, i < length trial_key_o ∧ i `mod` 5 ≠ 0
               ∧ p = (Z.of_nat i + 1)%Z)
  ∧ (∀ p, p ∈ Holdout.test_t glm → p ∉ Holdout.trial_key glm)
  ∧ Holdout.test_t glm ++ Holdout.trial_key glm
    ≡ₚ (λ i, Z.of_nat i + 1)%Z <$> seq 0 (length trial_key_o)
  ∧ (∀ l', l' = trial_key_o →
       Holdout.GLMFitCAE_split l' = cae ∧ Holdout.GLMFit_split l' = glm).
Proof.
  intros _ Hs cae glm.
  pose proof (StronglySorted_lt_NoDup _ Hs) as Hnd.
  pose proof (holdout_cae_perm _ Hs) as Hperm. fold cae in Hperm.
  set (test := Np.slice_from 0 5 trial_key_o).
  assert (StronglySorted Z.lt test) as Hts
    by by apply slice_from_StronglySorted.
  assert (Holdout.test_t cae = test) as Htest by done.
  assert (Holdout.trial_key cae = filter (λ x, x ∉ test) trial_key_o)
    as Htrain by (simpl; by rewrite setdiff1d_sorted).
  assert (StronglySorted Z.lt (Holdout.trial_key cae)) as Htrs
    by (rewrite Htrain; by apply filter_StronglySorted).
  set (pos := (λ v, Z.of_nat (Np.first_index v trial_key_o) + 1)%Z).
  assert (Holdout.test_t glm = pos <$> Holdout.test_t cae) as Hgtest.
  { simpl. rewrite intersect1d_ind2_sorted; [|done..|].
    - by rewrite <-list_fmap_compose.
    - intros x. apply slice_from_elem_of. }
  assert (Holdout.trial_key glm = pos <$> Holdout.trial_key cae) as Hgtrain.
  { unfold glm, Holdout.GLMFit_split. simpl.
    rewrite intersect1d_ind2_sorted; [|done..|].
    - by rewrite <-list_fmap_compose.
    - intros x. fold test. change (Np.setdiff1d trial_key_o test)
        with (Holdout.trial_key cae).
      rewrite Htrain. by intros [_ ?]%list_elem_of_filter. }
  assert (Holdout.test_t glm ++ Holdout.trial_key glm
          ≡ₚ (λ i, Z.of_nat i + 1)%Z <$> seq 0 (length trial_key_o))
    as Hgperm.
  { rewrite Hgtest, Hgtrain, <-fmap_app, Hperm.
    unfold pos. by rewrite (first_index_fmap_id trial_key_o Hnd). }
  assert (∀ x, x ∈ Holdout.trial_key cae ↔
               ∃ i, trial_key_o !! i = Some x ∧ i `mod` 5 ≠ 0) as Htrain_iff.
  { intros x. rewrite Htrain, list_elem_of_filter. split.
    - intros [Hnot [i Hi]%list_elem_of_lookup]. exists i. split; [done|].
      intros Hmod. apply Hnot. by apply (elem_of_slice5 _ i).
    - intros (i & Hi & Hmod). split.
      + intros Hin. by apply (elem_of_slice5 _ i) in Hin.
      + apply list_elem_of_lookup. eauto. }
  split_and!.
  - intros j. rewrite Htest. unfold test.
    rewrite slice_from_lookup by lia. f_equal. lia.
  - done.
  - assert (NoDup (Holdout.test_t cae ++ Holdout.trial_key cae)) as Hnd'
      by by rewrite Hperm.
    apply NoDup_app in Hnd' as (_ & Hdisj & _). done.
  - done.
  - rewrite Hgtest, Htest. apply list_eq. intros j.
    rewrite !list_lookup_fmap. unfold test at 1.
    rewrite slice_from_lookup by lia. rewrite Nat.add_0_l.
    destruct (trial_key_o !! (j * 5)) as [v|] eqn:Hv; simpl.
    + rewrite lookup_seq_lt.
      * simpl. unfold pos.
        rewrite (first_index_lookup _ (j * 5) v) by done.
        do 2 f_equal. lia.
      * apply lookup_lt_is_Some. unfold test.
        rewrite slice_from_lookup by lia. rewrite Nat.add_0_l. eauto.
    + rewrite lookup_seq_ge; [done|].
      apply lookup_ge_None. unfold test.
      rewrite slice_from_lookup by lia. by rewrite Nat.add_0_l.
  - intros p. rewrite Hgtrain, list_elem_of_fmap.
    setoid_rewrite Htrain_iff. split.
    + intros (v & -> & i & Hi & Hmod). exists i. split_and!; [|done|].
      * by eapply lookup_lt_Some.
      * unfold pos. by rewrite (first_index_lookup _ i v).
    + intros (i & Hi & Hmod & ->).
      apply lookup_lt_is_Some in Hi as [v Hv]. exists v. split; [|eauto].
      unfold pos. by rewrite (first_index_lookup _ i v).
  - assert (NoDup (Holdout.test_t glm ++ Holdout.trial_key glm)) as Hnd'.
    { rewrite Hgperm. apply NoDup_fmap_2; [|apply NoDup_seq].
      intros a b ?. lia. }
    apply NoDup_app in Hnd' as (_ & Hdisj & _). done.
  - done.
  - by intros l' ->.
Qed.

Lemma holdout_every_fifth_witness :
  Holdout.GLMFitCAE_split [1; 2; 3; 4; 6; 7; 8]%Z
    = Holdout.Partition [1; 7]%Z [2; 3; 4; 6; 8]%Z
  ∧ Holdout.GLMFit_split [1; 2; 3; 4; 6; 7; 8]%Z
    = Holdout.Partition [1; 6]%Z [2; 3; 4; 5; 7]%Z
  ∧ ∀ j, Holdout.test_t (Holdout.GLMFitCAE_split [1; 2; 3; 4; 6; 7; 8]%Z) !! j
         = [1; 2; 3; 4; 6; 7; 8]%Z !! (5 * j).
Proof.
  split; [vm_compute; reflexivity|]. split; [vm_compute; reflexivity|].
  refine (proj1 (holdout_every_fifth [1; 2; 3; 4; 6; 7; 8]%Z _ _)).
  - discriminate.
  - repeat constructor.
Defined.


(** ** Missing bad-video annotations *)

Lemma minus_trials_nil {A} (trial : A → Z) (table : list A) :
  BadVideo.minus_trials trial table [] = table.
Proof.
  unfold BadVideo.minus_trials. apply filter_all, Forall_forall.
  intros r _. apply not_elem_of_nil.
Qed.

Lemma minus_trials_zeros {A} (trial : A → Z) (table : list A)
  (excluded : list Z) :
  Forall (λ tr, tr = 0%Z) excluded →
  Forall (λ r, (1 ≤ trial r)%Z) table →
  BadVideo.minus_trials trial table excluded = table.
Proof.
  intros Hex Htab. unfold BadVideo.minus_trials.
  apply filter_all. eapply Forall_impl; [exact Htab|].
  intros r Hr Hin. rewrite Forall_forall in Hex. apply Hex in Hin.
  simpl in Hr. lia.
Qed.

(** The trials a field lists: none when the field is [None]. *)
Definition listed (x : option (list Z)) : list Z := default [] x.

Lemma elem_of_or_sentinel (x : option (list Z)) (tr : Z) :
  (1 ≤ tr)%Z → tr ∈ BadVideo.or_sentinel x ↔ tr ∈ listed x.
Proof.
  intros Htr. destruct x as [trials|]; [done|]. cbn. split.
  - intros ->%list_elem_of_singleton. lia.
  - by intros ?%elem_of_nil.
Qed.

Lemma minus_trials_ext {A} (trial : A → Z) (table : list A)
    (ex1 ex2 : list Z) :
  Forall (λ r, trial r ∈ ex1 ↔ trial r ∈ ex2) table →
  BadVideo.minus_trials trial table ex1
  = BadVideo.minus_trials trial table ex2.
Proof.
  intros Hall. unfold BadVideo.minus_trials. apply filter_ext_elem.
  intros r Hr. rewrite Forall_forall in Hall. by rewrite (Hall r Hr).
Qed.

(** C6.  Every annotation field of the session's [BadVideo] row that is
    [None] is replaced by the sentinel [np.array([0])], whatever the other
    fields hold, and no exception is raised.  Provided every trial
    identifier of the restricted table is at least 1, the restriction then
    selects the rows it would select had the field listed no trial at all:
    in [JawTuning.make], which reads [miss_trial_side] only, a missing
    field selects every row; in [GLMFit.make] the rows excluded are those
    of the trials that the fields that are present list, so that a row
    whose fields are all missing or empty (as [BadVideo.make] writes it for
    a session without bad videos) selects every row. *)
Theorem missing_annotation_excludes_nothing {A} (trial : A → Z)
  (table : list A) (r : BadVideo.row) (others : list BadVideo.row) :
  Forall (λ x, (1 ≤ trial x)%Z) table →
  (∃ excluded,
     BadVideo.JawTuning_excluded (r :: others) = Py.Ok excluded
     ∧ BadVideo.minus_trials trial table excluded
       = BadVideo.minus_trials trial table (listed (BadVideo.miss_trial_side r))
     ∧ (BadVideo.miss_trial_side r = None →
        excluded = [0%Z]
        ∧ BadVideo.minus_trials trial table excluded
          = BadVideo.minus_trials trial table []))
  ∧ (∃ bad_trials,
       BadVideo.GLMFit_bad_trials (r :: others) = Py.Ok bad_trials
       ∧ BadVideo.minus_trials trial table bad_trials
         = BadVideo.minus_trials trial table
             (listed (BadVideo.bad_trial_side r)
              ++ listed (BadVideo.bad_trial_bot r)
              ++ listed (BadVideo.miss_trial_side r)
              ++ listed (BadVideo.miss_trial_bot r))
       ∧ (Forall (λ field, listed field = [])
            [BadVideo.bad_trial_side r; BadVideo.bad_trial_bot r;
             BadVideo.miss_trial_side r; BadVideo.miss_trial_bot r] →
          BadVideo.minus_trials trial table bad_trials
          = BadVideo.minus_trials trial table [])
       ∧ (BadVideo.bad_trial_side r = None →
          BadVideo.bad_trial_bot r = None →
          BadVideo.miss_trial_side r = None →
          BadVideo.miss_trial_bot r = None →
          bad_trials = [0; 0; 0; 0]%Z))
  ∧ BadVideo.minus_trials trial table [] = table.
Proof.
  intros Htab.
  assert (∀ ex1 ex2 : list Z,
    (∀ tr, (1 ≤ tr)%Z → tr ∈ ex1 ↔ tr ∈ ex2) →
    BadVideo.minus_trials trial table ex1
    = BadVideo.minus_trials trial table ex2) as Hext.
  { intros ex1 ex2 Hex. apply minus_trials_ext.
    eapply Forall_impl; [exact Htab|]. intros x Hx. by apply Hex. }
  split_and!.
  - eexists. split; [reflexivity|]. split.
    + apply Hext. intros tr Htr. by apply elem_of_or_sentinel.
    + intros ->. split; [done|].
      apply Hext. intros tr Htr. by apply (elem_of_or_sentinel None).
  - eexists. split; [reflexivity|].
    assert (BadVideo.minus_trials trial table
              (BadVideo.or_sentinel (BadVideo.bad_trial_side r)
               ++ BadVideo.or_sentinel (BadVideo.bad_trial_bot r)
               ++ BadVideo.or_sentinel (BadVideo.miss_trial_side r)
               ++ BadVideo.or_sentinel (BadVideo.miss_trial_bot r))
            = BadVideo.minus_trials trial table
                (listed (BadVideo.bad_trial_side r)
                 ++ listed (BadVideo.bad_trial_bot r)
                 ++ listed (BadVideo.miss_trial_side r)
                 ++ listed (BadVideo.miss_trial_bot r))) as Hsel.
    { apply Hext. intros tr Htr.
      rewrite !elem_of_app, !elem_of_or_sentinel by done. done. }
    split; [exact Hsel|]. split.
    + intros Hnone. rewrite Hsel.
      apply Forall_cons in Hnone as [-> Hnone].
      apply Forall_cons in Hnone as [-> Hnone].
      apply Forall_cons in Hnone as [-> Hnone].
      apply Forall_cons in Hnone as [-> _]. done.
    + by intros -> -> -> ->.
  - apply minus_trials_nil.
Qed.

(** The row that [BadVideo.make] writes for a session without bad videos:
    empty arrays of bad trials, no arrays of missing trials. *)
Lemma missing_annotation_excludes_nothing_witness :
  ∃ bad_trials,
    BadVideo.GLMFit_bad_trials
      [BadVideo.Row (Some []) (Some []) None None] = Py.Ok bad_trials
    ∧ bad_trials = [0; 0]%Z
    ∧ BadVideo.minus_trials id [1; 2; 5]%Z bad_trials = [1; 2; 5]%Z.
Proof.
  assert (Forall (λ x, (1 ≤ id x)%Z) [1; 2; 5]%Z) as Htab.
  { repeat (apply Forall_cons_2; [unfold id; lia|]). apply Forall_nil_2. }
  destruct (missing_annotation_excludes_nothing id [1; 2; 5]%Z
              (BadVideo.Row (Some []) (Some []) None None) [] Htab)
    as (_ & (bad_trials & Hrun & _ & Hnone & _) & Hall).
  exists bad_trials. split; [exact Hrun|]. split.
  - by injection Hrun as <-.
  - rewrite Hnone, Hall; [done|]. by repeat constructor.
Defined.

(** ** The bad-video check of the motion-decomposition trace *)

Lemma bad_video_returns {R} (rest : list (list Qc) → Py.result (list R))
  (c : MotSVD.consumer) (col : list Qc) :
  length col `mod` MotSVD.num_frame ≠ 0 →
  MotSVD.returns_on_bad_video c = true →
  MotSVD.make rest c col = MotSVD.Returned ["Bad videos in bottom view"] [].
Proof.
  intros Hbad Hret. unfold MotSVD.make.
  rewrite bool_decide_eq_true_2 by done. by rewrite Hret.
Qed.

Lemma bad_video_MovementTiming {R}
  (rest : list (list Qc) → Py.result (list R)) (col : list Qc) :
  length col `mod` MotSVD.num_frame ≠ 0 →
  MotSVD.make rest MotSVD.MovementTiming col
  = MotSVD.Raised Py.UnboundLocalError ["Bad videos in bottom view"].
Proof.
  intros Hbad. unfold MotSVD.make.
  rewrite bool_decide_eq_true_2 by done. done.
Qed.

(** C2. A [mot_svd] column of 1472 samples (one frame more than one trial)
    is not a multiple of 1471.  [WhiskerTuning], [GLMFit], [GLMFitNoLick]
    and [GLMFitNoLickBody] print the diagnostic and return without
    inserting.  [MovementTiming] prints it too, but does not return: it goes
    on to read the unbound local [num_trial_w] and the call ends in an
    [UnboundLocalError]. *)
Theorem MovementTiming_bad_video_not_skipped {R}
  (rest : list (list Qc) → Py.result (list R)) :
  let col := replicate 1472 (Qc_of_Z 0) in
  length col `mod` MotSVD.num_frame ≠ 0
  ∧ (∀ c, c ≠ MotSVD.MovementTiming →
       MotSVD.make rest c col
       = MotSVD.Returned ["Bad videos in bottom view"] [])
  ∧ MotSVD.make rest MotSVD.MovementTiming col
    = MotSVD.Raised Py.UnboundLocalError ["Bad videos in bottom view"].
Proof.
  intros col.
  assert (length col `mod` MotSVD.num_frame ≠ 0) as Hbad
    by (unfold col; rewrite length_replicate; by vm_compute).
  split; [done|]. split.
  - intros c Hc. apply bad_video_returns; [done|]. by destruct c.
  - by apply bad_video_MovementTiming.
Qed.


(** ** Spike indices into the phase rows ([JawTuning.make]) *)

Lemma take_rows_Ok_inv {A} (rows : list A) (idx : list nat) (out : list A) :
  TrialOrder.take_rows rows idx = Py.Ok out →
  Forall2 (λ i x, rows !! i = Some x) idx out.
Proof.
  unfold TrialOrder.take_rows.
  destruct (mapM _ idx) as [r|] eqn:Hm; [|done].
  intros [= <-]. by apply mapM_Some.
Qed.

Lemma take_rows_Ok_intro {A} (rows : list A) (idx : list nat) :
  Forall (λ i, i < length rows) idx →
  ∃ out, TrialOrder.take_rows rows idx = Py.Ok out.
Proof.
  intros Hidx. unfold TrialOrder.take_rows.
  destruct (mapM (λ i, rows !! i) idx) as [r|] eqn:Hm; [eauto|].
  exfalso. apply mapM_None, Exists_exists in Hm as (i & Hi & Hnone).
  rewrite Forall_forall in Hidx. apply Hidx in Hi.
  apply lookup_ge_None in Hnone. lia.
Qed.











(** ** The rate-normalised tuning curve *)

Lemma Qc_of_Z_inj (a b : Z) : Qc_of_Z a = Qc_of_Z b → a = b.
Proof. intros H. apply (f_equal this) in H. by injection H. Qed.


Lemma histogram_edges (a : list Qc) (bins : nat) :
  snd (Curve.histogram a bins)
  = Curve.linspace (fst (Curve.outer_edges a)) (snd (Curve.outer_edges a)) bins.
Proof. unfold Curve.histogram. by destruct (Curve.outer_edges a). Qed.

Lemma histogram_counts (a : list Qc) (bins i : nat) :
  i < bins →
  fst (Curve.histogram a bins) !! i
  = Some (length (filter
            (Curve.in_bin (snd (Curve.histogram a bins)) bins i) a)).
Proof.
  intros Hi. unfold Curve.histogram. destruct (Curve.outer_edges a). simpl.
  rewrite list_lookup_fmap, lookup_seq_lt by done. done.
Qed.

Lemma histogram_counts_length (a : list Qc) (bins : nat) :
  length (fst (Curve.histogram a bins)) = bins.
Proof.
  unfold Curve.histogram. destruct (Curve.outer_edges a). simpl.
  by rewrite length_fmap, length_seq.
Qed.

Lemma rate_normalize_lookup (counts baseline : list nat) (fs : Qc)
  (i c b : nat) :
  counts !! i = Some c → baseline !! i = Some b →
  Curve.rate_normalize counts baseline fs !! i
  = Some (if decide (b = 0) then None
          else Some (Qc_of_Z (Z.of_nat c) / Qc_of_Z (Z.of_nat b) * fs)%Qc).
Proof.
  intros Hc Hb. unfold Curve.rate_normalize.
  rewrite lookup_zip_with, Hc. simpl. rewrite Hb. simpl. f_equal.
  unfold F.div, F.of_nat, F.of_Z.
  destruct (decide (b = 0)) as [->|Hb0].
  - by rewrite decide_True.
  - rewrite decide_False; [done|]. intros Heq%Qc_of_Z_inj. lia.
Qed.









(** ** The permutation test *)

(** Sample [i] of the permutation test: draws [i*n_spk], ...,
    [i*n_spk + n_spk - 1] of the generator, each of them taken as a
    position in the phase population. *)
Definition drawn (phase_s : list Qc) (n_spk : nat) (g : Curve.rng) (i : nat)
  : list Qc :=
  (λ j, phase_s !!! (g (i * n_spk + j) `mod` length phase_s)) <$> seq 0 n_spk.

Lemma drawn_lookup (phase_s : list Qc) (n_spk : nat) (g : Curve.rng)
    (i j : nat) :
  phase_s ≠ [] → j < n_spk →
  g (i * n_spk + j) `mod` length phase_s < length phase_s
  ∧ drawn phase_s n_spk g i !! j
    = phase_s !! (g (i * n_spk + j) `mod` length phase_s).
Proof.
  intros Hne Hj.
  assert (g (i * n_spk + j) `mod` length phase_s < length phase_s) as Hlt.
  { apply Nat.mod_upper_bound. by destruct phase_s. }
  split; [done|]. unfold drawn.
  rewrite list_lookup_fmap, lookup_seq_lt by done. cbn.
  symmetry. by apply list_lookup_lookup_total_lt.
Qed.

Lemma JawTuning_curve_baseline (all_phase phase_s : list Qc) (fs : Qc) :
  Curve.baseline (Curve.JawTuning_curve all_phase phase_s fs)
  = fst (Curve.histogram phase_s 20)
  ∧ Curve.edges (Curve.JawTuning_curve all_phase phase_s fs)
    = snd (Curve.histogram phase_s 20).
Proof.
  unfold Curve.JawTuning_curve.
  change Tuning.n_bins with 20.
  destruct (Curve.histogram all_phase 20) as [cs es].
  by destruct (Curve.histogram phase_s 20) as [cb eb].
Qed.

Section permutation_facts.
Variable compute_phase_tuning :
  list Qc → list F.float64 → F.float64 * F.float64.
Variable c : Curve.curve.
Variables (phase_s : list Qc) (n_spk : nat) (fs : Qc).
Hypothesis phase_s_nonempty : phase_s ≠ [].

(** The samples drawn from a generator of which [n_spk] draws have been
    used are the later samples of the generator itself. *)
Lemma drawn_shift (g g' : Curve.rng) (i : nat) :
  (∀ j, g' j = g (n_spk + j)) →
  drawn phase_s n_spk g' i = drawn phase_s n_spk g (S i).
Proof.
  intros Hg. unfold drawn. apply list_fmap_ext. intros _ j _. cbn.
  rewrite Hg. do 3 f_equal. lia.
Qed.

(** Round [i] of the loop uses the sample that the next [n_spk] draws of
    the generator select, and leaves the generator behind them. *)
Lemma permutation_loop_draws (n k : nat) (di_distr : list F.float64)
  (g : Curve.rng) :
  k + n ≤ length di_distr →
  ∃ g',
    Curve.permutation_loop compute_phase_tuning c phase_s n_spk fs
      (seq k n) di_distr g
    = Py.Ok (take k di_distr
             ++ ((λ i, Curve.null_index compute_phase_tuning c fs
                         (drawn phase_s n_spk g i)) <$> seq 0 n)
             ++ drop (k + n) di_distr, g')
    ∧ ∀ j, g' j = g (n * n_spk + j).
Proof.
  revert k di_distr g. induction n as [|n IH]; intros k di_distr g Hlen.
  { exists g. simpl. rewrite Nat.add_0_r, take_drop. done. }
  assert (Curve.random_choice phase_s n_spk g
          = Py.Ok (drawn phase_s n_spk g 0, λ j, g (n_spk + j))) as Hch.
  { unfold Curve.random_choice, drawn. by destruct phase_s. }
  cbn [seq Curve.permutation_loop]. rewrite Hch.
  change (mbind ?f (Py.Ok ?v)) with (f v). cbv beta iota.
  set (v := Curve.null_index compute_phase_tuning c fs
              (drawn phase_s n_spk g 0)).
  destruct (IH (S k) (<[k:=v]> di_distr) (λ j, g (n_spk + j)))
    as (g' & Hloop & Hg').
  { rewrite length_insert. lia. }
  exists g'. split.
  - rewrite Hloop. do 2 f_equal.
    assert (di_distr !! k = Some (di_distr !!! k)) as Hk
      by (apply list_lookup_lookup_total_lt; lia).
    rewrite (take_S_r _ _ v) by (apply list_lookup_insert_eq; lia).
    rewrite take_insert_ge by lia.
    rewrite drop_insert_lt by lia.
    rewrite <-app_assoc. cbn [app fmap list_fmap].
    replace (k + S n) with (S (k + n)) by lia. do 3 f_equal.
    rewrite <-fmap_S_seq, <-list_fmap_compose.
    apply list_fmap_ext. intros _ i _. cbn. f_equal.
    by apply drawn_shift.
  - intros j. rewrite Hg'. f_equal. lia.
Qed.

End permutation_facts.

(** C8. The permutation test fills a null distribution of exactly 100
    modulation indices and reports the p-value of
    [mannwhitneyu(modulation_index, di_distr, alternative='greater')].
    Entry [i] of the distribution comes from a sample of [len(all_phase)]
    phases of the whole phase population: element [j] of the sample is the
    phase at the position that draw [i*len(all_phase) + j] of the generator
    selects, so that every draw is made anew from the whole population (with
    replacement) and every sample uses draws of its own.  The sample is
    histogrammed into 20 bins over its own range; the count of each bin is
    divided by the baseline count of that bin of the observed curve (the
    phases of the population in the bin) and multiplied by the sampling
    rate (non-finite where that baseline count is zero); the entry is the
    modulation index that [compute_phase_tuning] gives for this curve over
    the bin centres of the observed curve. *)
Theorem permutation_null_distribution
  (compute_phase_tuning : list Qc → list F.float64 → F.float64 * F.float64)
  (mannwhitneyu : list F.float64 → list F.float64 → Curve.alternative
                  → F.float64 * F.float64)
  (all_phase phase_s : list Qc) (fs : Qc) (g : Curve.rng) :
  phase_s ≠ [] →
  let c := Curve.JawTuning_curve all_phase phase_s fs in
  let modulation_index :=
    snd (compute_phase_tuning (Curve.tofitx c) (Curve.tofity c)) in
  ∃ di_distr,
    Curve.JawTuning_di_perm compute_phase_tuning mannwhitneyu
      all_phase phase_s fs g
    = Py.Ok (di_distr,
             snd (mannwhitneyu [modulation_index] di_distr Curve.Greater))
    ∧ length di_distr = 100
    ∧ ∀ i, i < 100 →
        let sample := drawn phase_s (length all_phase) g i in
        let edges_p :=
          Curve.linspace (fst (Curve.outer_edges sample))
                         (snd (Curve.outer_edges sample)) 20 in
        length sample = length all_phase
        ∧ (∀ j, j < length all_phase →
             let pos := g (i * length all_phase + j) `mod` length phase_s in
             pos < length phase_s ∧ sample !! j = phase_s !! pos)
        ∧ ∃ tofity_p,
            di_distr !! i
            = Some (snd (compute_phase_tuning (Curve.tofitx c) tofity_p))
            ∧ length tofity_p = 20
            ∧ ∀ k, k < 20 →
                let n_sample :=
                  length (filter (Curve.in_bin edges_p 20 k) sample) in
                let n_base :=
                  length (filter (Curve.in_bin (Curve.edges c) 20 k) phase_s) in
                Curve.baseline c !! k = Some n_base
                ∧ tofity_p !! k
                  = Some (if decide (n_base = 0) then None
                          else Some (Qc_of_Z (Z.of_nat n_sample)
                                     / Qc_of_Z (Z.of_nat n_base) * fs)%Qc).
Proof.
  intros Hne c modulation_index.
  destruct (permutation_loop_draws compute_phase_tuning c phase_s
              (length all_phase) fs Hne Tuning.n_perm 0
              (F.zeros Tuning.n_perm) g)
    as (g' & Hloop & _).
  { unfold F.zeros. rewrite length_replicate. lia. }
  rewrite drop_ge, app_nil_r in Hloop
    by (unfold F.zeros; rewrite length_replicate; lia).
  rewrite take_0, app_nil_l in Hloop.
  exists ((λ i, Curve.null_index compute_phase_tuning c fs
                  (drawn phase_s (length all_phase) g i))
            <$> seq 0 Tuning.n_perm).
  split_and!.
  - unfold Curve.JawTuning_di_perm. fold c.
    destruct (compute_phase_tuning (Curve.tofitx c) (Curve.tofity c))
      as [pp mi] eqn:Hcpt.
    rewrite Hloop. unfold modulation_index.
    unfold mbind, result_bind, Py.bind, mret, result_ret.
    cbv beta iota. cbn [snd].
    by match goal with
       | |- context [mannwhitneyu ?a ?b ?d] => destruct (mannwhitneyu a b d)
       end.
  - by rewrite length_fmap, length_seq.
  - intros i Hi sample edges_p.
    split; [unfold sample, drawn; by rewrite length_fmap, length_seq|].
    split; [intros j Hj; by apply drawn_lookup|].
    destruct (JawTuning_curve_baseline all_phase phase_s fs) as [Hb He].
    fold c in Hb, He.
    exists (Curve.rate_normalize (fst (Curve.histogram sample Tuning.n_bins))
              (Curve.baseline c) fs).
    split_and!.
    + rewrite list_lookup_fmap, lookup_seq_lt by (unfold Tuning.n_perm; lia).
      reflexivity.
    + unfold Curve.rate_normalize.
      rewrite length_zip_with, histogram_counts_length, Hb.
      rewrite histogram_counts_length. done.
    + intros k Hk n_sample n_base.
      assert (Curve.baseline c !! k = Some n_base) as Hbase.
      { unfold n_base. rewrite Hb, He. by apply histogram_counts. }
      split; [done|].
      apply rate_normalize_lookup; [|done].
      rewrite (histogram_counts sample Tuning.n_bins k) by done.
      by rewrite histogram_edges.
Qed.

(** Three phases, two spikes, the generator that yields 0, 1, 2, ...:
    sample 1 consists of draws 2 and 3, that is of the phases at positions
    2 and 0 of the population. *)
Lemma permutation_null_distribution_witness :
  ∃ di_distr,
    Curve.JawTuning_di_perm (λ _ y, (F.zero, F.sum y)) (λ x _ _, (F.zero, F.sum x))
      [Qc_of_Z 1; Qc_of_Z 2] [Qc_of_Z 1; Qc_of_Z 2; Qc_of_Z 3]
      (Qc_of_Z 2) (λ j, j)
    = Py.Ok (di_distr,
             F.sum [F.sum (Curve.tofity (Curve.JawTuning_curve
                     [Qc_of_Z 1; Qc_of_Z 2]
                     [Qc_of_Z 1; Qc_of_Z 2; Qc_of_Z 3] (Qc_of_Z 2)))])
    ∧ length di_distr = 100
    ∧ drawn [Qc_of_Z 1; Qc_of_Z 2; Qc_of_Z 3] 2 (λ j, j) 1
      = [Qc_of_Z 3; Qc_of_Z 1].
Proof.
  destruct (permutation_null_distribution
              (λ _ y, (F.zero, F.sum y)) (λ x _ _, (F.zero, F.sum x))
              [Qc_of_Z 1; Qc_of_Z 2] [Qc_of_Z 1; Qc_of_Z 2; Qc_of_Z 3]
              (Qc_of_Z 2) (λ j, j))
    as (di_distr & Hrun & Hlen & _).
  - discriminate.
  - exists di_distr. split; [exact Hrun|]. split; [exact Hlen|reflexivity].
Defined.


(** ** The store while the fits run *)

(** Slot [j] of an array: an element of a vector, a row of a matrix. *)
Definition slot (a : GLM.ndarray) (j : nat)
  : option (F.float64 + list F.float64) :=
  match a with
  | GLM.Vec v => inl <$> v !! j
  | GLM.Mat m => inr <$> m !! j
  end.

Definition slot_at (h : GLM.heap) (l j : nat)
  : option (F.float64 + list F.float64) :=
  GLM.objs h !! l ≫= λ a, slot a j.

(** [touches L i m]: statement [m] allocates nothing, writes to no array
    outside [L], and in any array only to slot [i]. *)
Definition touches {A} (L : list nat) (i : nat) (m : GLM.M A) : Prop :=
  ∀ h, GLM.next (m h).1 = GLM.next h
       ∧ (∀ l, l ∉ L → GLM.objs (m h).1 !! l = GLM.objs h !! l)
       ∧ (∀ l j, j ≠ i → slot_at (m h).1 l j = slot_at h l j).

Lemma touches_ret {A} L i (a : A) : touches L i (mret a).
Proof. intros h. done. Qed.

Lemma touches_lift {A} L i (r : Py.result A) : touches L i (GLM.lift r).
Proof. intros h. done. Qed.

Lemma touches_bind {A B} L i (m : GLM.M A) (k : A → GLM.M B) :
  touches L i m → (∀ a, touches L i (k a)) → touches L i (m ≫= k).
Proof.
  intros Hm Hk h. unfold mbind, GLM.M_bind.
  destruct (Hm h) as (Hn & Ho & Hs).
  destruct (m h) as [h1 [a|e]]; simpl in *; [|done].
  destruct (Hk a h1) as (Hn' & Ho' & Hs').
  split; [congruence|]. split.
  - intros l Hl. by rewrite Ho', Ho.
  - intros l j Hj. by rewrite Hs', Hs.
Qed.

Lemma touches_try_pass L i (m : GLM.M ()) :
  touches L i m → touches L i (GLM.try_pass m).
Proof.
  intros Hm h. unfold GLM.try_pass. specialize (Hm h).
  by destruct (m h).
Qed.

Lemma slot_at_insert_ne (h : GLM.heap) (n a l j : nat) (x : GLM.ndarray) :
  l ≠ a →
  slot_at (GLM.Heap n (<[a := x]> (GLM.objs h))) l j = slot_at h l j.
Proof. intros Hl. unfold slot_at. simpl. by rewrite lookup_insert_ne. Qed.

Lemma touches_setitem L i a v : a ∈ L → touches L i (GLM.setitem a i v).
Proof.
  intros Ha h. unfold GLM.setitem.
  destruct (GLM.objs h !! a) as [[xs|m]|] eqn:Hobj; simpl; try done.
  destruct (decide (i < length xs)) as [Hlt|Hge]; simpl; [|done].
  split; [done|]. split.
  - intros l Hl. apply lookup_insert_ne. by intros ->.
  - intros l j Hj. destruct (decide (l = a)) as [->|Hne].
    + unfold slot_at. simpl. rewrite lookup_insert_eq, Hobj. simpl.
      by rewrite list_lookup_insert_ne.
    + by apply slot_at_insert_ne.
Qed.

Lemma touches_setrow L i a row : a ∈ L → touches L i (GLM.setrow a i row).
Proof.
  intros Ha h. unfold GLM.setrow.
  destruct (GLM.objs h !! a) as [[xs|m]|] eqn:Hobj; simpl; try done.
  destruct (m !! i) as [old|] eqn:Hold; simpl; [|done].
  assert (∀ new, 
    (∀ l, l ∉ L → <[a := GLM.Mat (<[i := new]> m)]> (GLM.objs h) !! l
                  = GLM.objs h !! l)
    ∧ (∀ l j, j ≠ i →
         slot_at (GLM.Heap (GLM.next h)
                    (<[a := GLM.Mat (<[i := new]> m)]> (GLM.objs h))) l j
         = slot_at h l j)) as Hnew.
  { intros new. split.
    - intros l Hl. apply lookup_insert_ne. by intros ->.
    - intros l j Hj. destruct (decide (l = a)) as [->|Hne].
      + unfold slot_at. simpl. rewrite lookup_insert_eq, Hobj. simpl.
        by rewrite list_lookup_insert_ne.
      + by apply slot_at_insert_ne. }
  destruct (decide (length row = length old)) as [Heq|Hne]; simpl.
  { split; [done|]. apply Hnew. }
  destruct (decide (length row = 1)) as [Heq1|Hne1]; simpl; [|done].
  split; [done|]. apply Hnew.
Qed.

(** *** The loop over [taus] *)

Section for_taus_facts.
Variable L : list nat.
Variable body : nat → Z → GLM.M ().
Hypothesis body_touches : ∀ i tau, touches L i (body i tau).
Hypothesis body_ok : ∀ i tau h, (body i tau h).2 = Py.Ok ().

(** Round [k] of the loop is the only one that may write slot [i0 + k];
    when it writes nothing, that slot ends as it began. *)
Lemma for_taus_spec (taus : list Z) (i0 : nat) (h : GLM.heap) :
  let h' := (GLM.for_taus body i0 taus h).1 in
  (GLM.for_taus body i0 taus h).2 = Py.Ok ()
  ∧ GLM.next h' = GLM.next h
  ∧ (∀ l, l ∉ L → GLM.objs h' !! l = GLM.objs h !! l)
  ∧ (∀ l j, j < i0 ∨ i0 + length taus ≤ j → slot_at h' l j = slot_at h l j)
  ∧ (∀ k tau, taus !! k = Some tau →
       (∀ h0, (body (i0 + k) tau h0).1 = h0) →
       ∀ l, slot_at h' l (i0 + k) = slot_at h l (i0 + k)).
Proof.
  revert i0 h. induction taus as [|tau taus IH]; intros i0 h; simpl.
  { split_and!; done. }
  unfold mbind, GLM.M_bind.
  pose proof (body_ok i0 tau h) as Hok.
  destruct (body_touches i0 tau h) as (Hn & Ho & Hs).
  destruct (body i0 tau h) as [h1 r] eqn:Hb. simpl in *. subst r.
  destruct (IH (S i0) h1) as (IHok & IHn & IHo & IHs & IHk).
  split_and!.
  - done.
  - congruence.
  - intros l Hl. by rewrite IHo, Ho.
  - intros l j Hj. rewrite IHs by lia. apply Hs. lia.
  - intros [|k] tau' Hk Hnoop l.
    + simpl in Hk. injection Hk as <-. rewrite Nat.add_0_r in *.
      rewrite IHs by lia. specialize (Hnoop h).
      rewrite Hb in Hnoop. simpl in Hnoop. by subst h1.
    + simpl in Hk. replace (i0 + S k) with (S i0 + k) in * by lia.
      rewrite (IHk k tau' Hk Hnoop). apply Hs. lia.
Qed.

End for_taus_facts.

Section for_taus_rounds.
Variable L : list nat.
Variable body : nat → Z → GLM.M ().
Hypothesis body_touches : ∀ i tau, touches L i (body i tau).
Hypothesis body_ok : ∀ i tau h, (body i tau h).2 = Py.Ok ().
(** [Pre i h]: what round [i] finds in slot [i] of the arrays;
    [Post i tau h]: what it leaves there. *)
Variable Pre : nat → GLM.heap → Prop.
Variable Post : nat → Z → GLM.heap → Prop.
Hypothesis Pre_slots : ∀ i h h',
  (∀ l, slot_at h' l i = slot_at h l i) → Pre i h → Pre i h'.
Hypothesis Post_slots : ∀ i tau h h',
  (∀ l, slot_at h' l i = slot_at h l i) → Post i tau h → Post i tau h'.
Hypothesis body_round : ∀ i tau h, Pre i h → Post i tau (body i tau h).1.

(** Every round of the loop is run, whatever the rounds before it did:
    when the loop is left, slot [i0 + k] is as round [k] left it. *)
Lemma for_taus_rounds (taus : list Z) (i0 : nat) (h : GLM.heap) :
  (∀ k, k < length taus → Pre (i0 + k) h) →
  ∀ k tau, taus !! k = Some tau →
    Post (i0 + k) tau (GLM.for_taus body i0 taus h).1.
Proof.
  revert i0 h. induction taus as [|tau taus IH]; intros i0 h Hpre k tau' Hk.
  { done. }
  cbn [GLM.for_taus]. unfold mbind, GLM.M_bind.
  pose proof (body_ok i0 tau h) as Hok.
  pose proof (body_round i0 tau h) as Hround.
  destruct (body_touches i0 tau h) as (_ & _ & Hs).
  destruct (body i0 tau h) as [h1 r] eqn:Hb. cbn [fst snd] in *. subst r.
  destruct (for_taus_spec L body body_touches body_ok taus (S i0) h1)
    as (_ & _ & _ & Hrest & _).
  destruct k as [|k].
  - cbn in Hk. injection Hk as <-. rewrite Nat.add_0_r.
    eapply Post_slots; [|apply Hround].
    + intros l. apply Hrest. lia.
    + specialize (Hpre 0). rewrite Nat.add_0_r in Hpre. apply Hpre. cbn. lia.
  - cbn in Hk. replace (i0 + S k) with (S i0 + k) by lia.
    apply IH; [|done]. intros k' Hk'.
    replace (S i0 + k') with (i0 + S k') by lia.
    eapply Pre_slots; [|apply (Hpre (S k'))].
    + intros l. apply Hs. lia.
    + cbn. lia.
Qed.

End for_taus_rounds.

(** An assignment to a slot that exists succeeds, fills the slot and
    leaves the other arrays as they are. *)
Lemma setitem_slot (h : GLM.heap) (a i : nat) (v x : F.float64) :
  slot_at h a i = Some (inl x) →
  ∃ h', GLM.setitem a i v h = (h', Py.Ok ())
      ∧ slot_at h' a i = Some (inl v)
      ∧ ∀ l, l ≠ a → GLM.objs h' !! l = GLM.objs h !! l.
Proof.
  unfold slot_at, GLM.setitem.
  destruct (GLM.objs h !! a) as [[xs|m]|] eqn:Hobj; cbn; [| |done].
  - destruct (xs !! i) as [x'|] eqn:Hi; cbn; [|done]. intros _.
    apply lookup_lt_Some in Hi.
    rewrite decide_True by done.
    eexists. split; [done|]. cbn. split.
    + rewrite lookup_insert_eq. cbn. by rewrite list_lookup_insert_eq.
    + intros l Hl. by rewrite lookup_insert_ne.
  - by destruct (m !! i).
Qed.

Lemma setrow_slot (h : GLM.heap) (a i : nat) (row old : list F.float64) :
  slot_at h a i = Some (inr old) → length row = length old →
  ∃ h', GLM.setrow a i row h = (h', Py.Ok ())
      ∧ slot_at h' a i = Some (inr row)
      ∧ ∀ l, l ≠ a → GLM.objs h' !! l = GLM.objs h !! l.
Proof.
  unfold slot_at, GLM.setrow.
  destruct (GLM.objs h !! a) as [[xs|m]|] eqn:Hobj; cbn; [| |done].
  - by destruct (xs !! i).
  - destruct (m !! i) as [old'|] eqn:Hi; cbn; [|done].
    intros [= ->] Hlen. rewrite decide_True by done.
    apply lookup_lt_Some in Hi.
    eexists. split; [done|]. cbn. split.
    + rewrite lookup_insert_eq. cbn. by rewrite list_lookup_insert_eq.
    + intros l Hl. by rewrite lookup_insert_ne.
Qed.


(** *** The loop over units *)

Section for_units_facts.
Context {U R : Type}.
Variable unit : U → GLM.M R.
(** What a unit's record satisfies in the store. *)
Variable P : U → R → GLM.heap → Prop.
Hypothesis P_frame : ∀ u r h h',
  P u r h → GLM.next h ≤ GLM.next h' →
  (∀ l, l < GLM.next h → GLM.objs h' !! l = GLM.objs h !! l) →
  P u r h'.
Hypothesis unit_spec : ∀ u h, ∃ h' r,
  unit u h = (h', Py.Ok r)
  ∧ GLM.next h ≤ GLM.next h'
  ∧ (∀ l, l < GLM.next h → GLM.objs h' !! l = GLM.objs h !! l)
  ∧ P u r h'.

(** Every unit hands on a record, and what held of a record after its
    unit still holds when all units are done: later units only write to
    arrays of their own. *)
Lemma for_units_spec (units : list U) (h : GLM.heap) :
  ∃ h' rs,
    GLM.for_units unit units h = (h', Py.Ok rs)
    ∧ GLM.next h ≤ GLM.next h'
    ∧ (∀ l, l < GLM.next h → GLM.objs h' !! l = GLM.objs h !! l)
    ∧ Forall2 (λ u r, P u r h') units rs.
Proof.
  revert h. induction units as [|u units IH]; intros h; simpl.
  { exists h, []. split_and!; done || constructor. }
  destruct (unit_spec u h) as (h1 & r & Hu & Hn1 & Ho1 & HP).
  destruct (IH h1) as (h' & rs & Hrs & Hn & Ho & Hall).
  exists h', (r :: rs). unfold mbind, GLM.M_bind. rewrite Hu, Hrs. simpl.
  split_and!.
  - done.
  - lia.
  - intros l Hl. rewrite Ho by lia. by apply Ho1.
  - constructor; [|done]. by eapply P_frame.
Qed.

End for_units_facts.

Lemma slot_at_frame (h h' : GLM.heap) (l j : nat) :
  GLM.objs h' !! l = GLM.objs h !! l → slot_at h' l j = slot_at h l j.
Proof. intros Hl. unfold slot_at. by rewrite Hl. Qed.

Lemma read_vec_slot (h : GLM.heap) (l i : nat) (x : F.float64) :
  slot_at h l i = Some (inl x) → GLM.read_vec h l !! i = Some x.
Proof.
  unfold slot_at, GLM.read_vec.
  destruct (GLM.objs h !! l) as [[v|m]|]; simpl; try done.
  - destruct (v !! i); simpl; congruence.
  - destruct (m !! i); simpl; congruence.
Qed.

Lemma read_mat_slot (h : GLM.heap) (l i : nat) (row : list F.float64) :
  slot_at h l i = Some (inr row) → GLM.read_mat h l !! i = Some row.
Proof.
  unfold slot_at, GLM.read_mat.
  destruct (GLM.objs h !! l) as [[v|m]|]; simpl; try done.
  - destruct (v !! i); simpl; congruence.
  - destruct (m !! i); simpl; congruence.
Qed.

(** *** [GLMFit.make] *)

Section GLMFit_facts.
Context {design model glm_result : Type}.
Variable sm_GLM : list Z → design → Py.result model.
Variable fit : model → Py.result glm_result.
Variable resid_response : glm_result → list F.float64.
Variable params : glm_result → list F.float64.
Variable predict : glm_result → design → Py.result (list F.float64).
Variables (V V_t : design) (n_weights : nat).

(** The fit for the spike counts [y] shifted by [tau] raises. *)
Definition fit_raises (y : list Z) (tau : Z) : Prop :=
  ∀ m, sm_GLM (Np.roll y tau) V = Py.Ok m → ∃ e, fit m = Py.Raise e.

(** Building the model, which happens outside the [try], never raises. *)
Hypothesis sm_GLM_ok : ∀ y, ∃ m, sm_GLM y V = Py.Ok m.

Lemma GLMFit_tau_touches y y_t r2s r2s_t weights_t predict_ys i tau :
  touches [r2s; r2s_t; weights_t; predict_ys] i
    (GLM.GLMFit_tau sm_GLM fit resid_response params predict V V_t
     y y_t r2s r2s_t weights_t predict_ys i tau).
Proof.
  unfold GLM.GLMFit_tau.
  apply touches_bind; [apply touches_lift|]. intros glm_poiss.
  apply touches_try_pass.
  repeat (apply touches_bind; [|intros ?]);
    try apply touches_lift;
    try (apply touches_setitem; set_solver);
    try (apply touches_setrow; set_solver).
Qed.

Lemma GLMFit_tau_ok y y_t r2s r2s_t weights_t predict_ys i tau h :
  (GLM.GLMFit_tau sm_GLM fit resid_response params predict V V_t
     y y_t r2s r2s_t weights_t predict_ys i tau h).2 = Py.Ok ().
Proof.
  unfold GLM.GLMFit_tau, mbind, GLM.M_bind, GLM.lift.
  destruct (sm_GLM_ok (Np.roll y tau)) as [m ->].
  unfold GLM.try_pass.
  by match goal with |- context [match ?x with _ => _ end] => destruct x end.
Qed.

Lemma GLMFit_tau_fit_raises y y_t r2s r2s_t weights_t predict_ys i tau h :
  fit_raises y tau →
  (GLM.GLMFit_tau sm_GLM fit resid_response params predict V V_t
     y y_t r2s r2s_t weights_t predict_ys i tau h).1 = h.
Proof.
  intros Hraise.
  unfold GLM.GLMFit_tau, mbind, GLM.M_bind, GLM.lift.
  destruct (sm_GLM_ok (Np.roll y tau)) as [m Hm]. rewrite Hm.
  destruct (Hraise m Hm) as [e He].
  unfold GLM.try_pass. by rewrite He.
Qed.

(** Slot [i] of the arrays [r2s] (at [a]), [weights_t] (at [w]) and
    [predict_ys] (at [q]) holds zeros, as [np.zeros] left it. *)
Definition GLMFit_zero_at (y_t : list Z) (a w q : nat) (i : nat)
  (h : GLM.heap) : Prop :=
  slot_at h a i = Some (inl F.zero)
  ∧ slot_at h w i = Some (inr (F.zeros n_weights))
  ∧ slot_at h q i = Some (inr (F.zeros (length y_t))).

(** What the round for the shift [tau] leaves in slot [i] of these arrays,
    by how far its [try] block gets: when every step succeeds, the
    held-out score, the fitted weights and the prediction; when the
    prediction raises, the in-sample score written before it, and zeros in
    the two rows. *)
Definition GLMFit_round_at (y y_t : list Z) (a w q : nat) (i : nat) (tau : Z)
  (h : GLM.heap) : Prop :=
  (∀ m res r2 y_roll_t_p errs r2_t,
     sm_GLM (Np.roll y tau) V = Py.Ok m → fit m = Py.Ok res →
     GLM.pseudo_r2 (resid_response res) (GLM.deviations (Np.roll y tau))
     = Py.Ok r2 →
     predict res V_t = Py.Ok y_roll_t_p →
     GLM.np_sub (F.of_Z <$> Np.roll y_t tau) y_roll_t_p = Py.Ok errs →
     GLM.pseudo_r2 errs (GLM.deviations (Np.roll y_t tau)) = Py.Ok r2_t →
     length y_roll_t_p = length y_t → length (params res) = n_weights →
     slot_at h a i = Some (inl r2_t)
     ∧ slot_at h w i = Some (inr (params res))
     ∧ slot_at h q i = Some (inr y_roll_t_p))
  ∧ (∀ m res r2 e,
       sm_GLM (Np.roll y tau) V = Py.Ok m → fit m = Py.Ok res →
       GLM.pseudo_r2 (resid_response res) (GLM.deviations (Np.roll y tau))
       = Py.Ok r2 →
       predict res V_t = Py.Raise e →
       slot_at h a i = Some (inl r2)
       ∧ slot_at h w i = Some (inr (F.zeros n_weights))
       ∧ slot_at h q i = Some (inr (F.zeros (length y_t)))).

Lemma GLMFit_zero_at_slots y_t a w q i h h' :
  (∀ l, slot_at h' l i = slot_at h l i) →
  GLMFit_zero_at y_t a w q i h → GLMFit_zero_at y_t a w q i h'.
Proof. intros Hs. unfold GLMFit_zero_at. by rewrite !Hs. Qed.

Lemma GLMFit_round_at_slots y y_t a w q i tau h h' :
  (∀ l, slot_at h' l i = slot_at h l i) →
  GLMFit_round_at y y_t a w q i tau h → GLMFit_round_at y y_t a w q i tau h'.
Proof. intros Hs. unfold GLMFit_round_at. by rewrite !Hs. Qed.

Lemma GLMFit_tau_round y y_t a w q i tau h :
  a ≠ w → a ≠ q → w ≠ q →
  GLMFit_zero_at y_t a w q i h →
  GLMFit_round_at y y_t a w q i tau
    (GLM.GLMFit_tau sm_GLM fit resid_response params predict V V_t
       y y_t a a w q i tau h).1.
Proof.
  intros Haw Haq Hwq (Za & Zw & Zq). split.
  - intros m res r2 p errs r2_t Hm Hfit Hr2 Hp Herrs Hr2t Hlp Hlw.
    destruct (setitem_slot h a i r2 _ Za) as (h1 & Hs1 & Ha1 & Ho1).
    destruct (setitem_slot h1 a i r2_t _ Ha1) as (h2 & Hs2 & Ha2 & Ho2).
    assert (slot_at h2 q i = Some (inr (F.zeros (length y_t)))) as Zq2.
    { rewrite (slot_at_frame h1 h2) by (apply Ho2; congruence).
      by rewrite (slot_at_frame h h1) by (apply Ho1; congruence). }
    destruct (setrow_slot h2 q i p _ Zq2) as (h3 & Hs3 & Hq3 & Ho3).
    { unfold F.zeros. by rewrite length_replicate. }
    assert (slot_at h3 w i = Some (inr (F.zeros n_weights))) as Zw3.
    { rewrite (slot_at_frame h2 h3) by (by apply Ho3).
      rewrite (slot_at_frame h1 h2) by (apply Ho2; congruence).
      by rewrite (slot_at_frame h h1) by (apply Ho1; congruence). }
    destruct (setrow_slot h3 w i (params res) _ Zw3) as (h4 & Hs4 & Hw4 & Ho4).
    { unfold F.zeros. by rewrite length_replicate. }
    assert (GLM.GLMFit_tau sm_GLM fit resid_response params predict V V_t
              y y_t a a w q i tau h = (h4, Py.Ok ())) as ->.
    { unfold GLM.GLMFit_tau, mbind, GLM.M_bind, GLM.lift, GLM.try_pass.
      cbv zeta. rewrite Hm. cbv beta iota. rewrite Hfit. cbv beta iota.
      rewrite Hr2. cbv beta iota. rewrite Hs1. cbv beta iota.
      rewrite Hp. cbv beta iota. rewrite Herrs. cbv beta iota.
      rewrite Hr2t. cbv beta iota. rewrite Hs2. cbv beta iota.
      rewrite Hs3. cbv beta iota. rewrite Hs4. done. }
    cbn [fst]. split_and!.
    + rewrite (slot_at_frame h3 h4) by (by apply Ho4).
      by rewrite (slot_at_frame h2 h3) by (by apply Ho3).
    + done.
    + by rewrite (slot_at_frame h3 h4) by (apply Ho4; congruence).
  - intros m res r2 e Hm Hfit Hr2 Hp.
    destruct (setitem_slot h a i r2 _ Za) as (h1 & Hs1 & Ha1 & Ho1).
    assert (GLM.GLMFit_tau sm_GLM fit resid_response params predict V V_t
              y y_t a a w q i tau h = (h1, Py.Ok ())) as ->.
    { unfold GLM.GLMFit_tau, mbind, GLM.M_bind, GLM.lift, GLM.try_pass.
      cbv zeta. rewrite Hm. cbv beta iota. rewrite Hfit. cbv beta iota.
      rewrite Hr2. cbv beta iota. rewrite Hs1. cbv beta iota.
      rewrite Hp. done. }
    cbn [fst]. split_and!.
    + done.
    + by rewrite (slot_at_frame h h1) by (apply Ho1; congruence).
    + by rewrite (slot_at_frame h h1) by (apply Ho1; congruence).
Qed.

(** What holds of a unit's record: its two pseudo-R2 fields are one and
    the same array, and for every shift whose fit raises the slots of that
    shift hold zeros. *)
Definition GLMFit_post (u : list Z * list Z) (r : GLM.refs) (h : GLM.heap)
  : Prop :=
  GLM.ref_r2_t r = GLM.ref_r2 r
  ∧ GLM.ref_r2 r < GLM.next h
  ∧ GLM.ref_weights r < GLM.next h
  ∧ GLM.ref_predict_y r < GLM.next h
  ∧ ∀ i tau, GLM.taus !! i = Some tau → fit_raises u.1 tau →
      slot_at h (GLM.ref_r2 r) i = Some (inl F.zero)
      ∧ slot_at h (GLM.ref_weights r) i = Some (inr (F.zeros n_weights))
      ∧ slot_at h (GLM.ref_predict_y r) i
        = Some (inr (F.zeros (length u.2))).

(** ... and the slots of every shift are as the round of that shift left
    them. *)
Definition GLMFit_rounds (u : list Z * list Z) (r : GLM.refs) (h : GLM.heap)
  : Prop :=
  GLMFit_post u r h
  ∧ ∀ i tau, GLM.taus !! i = Some tau →
      GLMFit_round_at u.1 u.2 (GLM.ref_r2 r) (GLM.ref_weights r)
        (GLM.ref_predict_y r) i tau h.

Lemma GLMFit_post_frame u r h h' :
  GLMFit_post u r h → GLM.next h ≤ GLM.next h' →
  (∀ l, l < GLM.next h → GLM.objs h' !! l = GLM.objs h !! l) →
  GLMFit_post u r h'.
Proof.
  intros (H1 & H2 & H3 & H4 & H5) Hn Ho.
  split; [done|]. do 3 (split; [lia|]).
  intros i tau Hi Hr. destruct (H5 i tau Hi Hr) as (Ha & Hb & Hc).
  rewrite !(slot_at_frame h h') by (apply Ho; lia). done.
Qed.

Lemma GLMFit_rounds_frame u r h h' :
  GLMFit_rounds u r h → GLM.next h ≤ GLM.next h' →
  (∀ l, l < GLM.next h → GLM.objs h' !! l = GLM.objs h !! l) →
  GLMFit_rounds u r h'.
Proof.
  intros [Hpost Hrounds] Hn Ho. split; [by eapply GLMFit_post_frame|].
  destruct Hpost as (_ & H2 & H3 & H4 & _).
  intros i tau Hi. specialize (Hrounds i tau Hi).
  unfold GLMFit_round_at in *.
  by rewrite !(slot_at_frame h h') by (apply Ho; lia).
Qed.

Lemma GLMFit_unit_spec u h :
  ∃ h' r,
    GLM.GLMFit_unit sm_GLM fit resid_response params predict V V_t
      n_weights u h = (h', Py.Ok r)
    ∧ GLM.next h ≤ GLM.next h'
    ∧ (∀ l, l < GLM.next h → GLM.objs h' !! l = GLM.objs h !! l)
    ∧ GLMFit_rounds u r h'.
Proof.
  destruct u as [y y_t].
  set (n := GLM.next h).
  set (h3 := GLM.Heap (S (S (S n)))
    (<[S (S n) := GLM.Mat (replicate (length GLM.taus)
                             (F.zeros (length y_t)))]>
      (<[S n := GLM.Mat (replicate (length GLM.taus) (F.zeros n_weights))]>
        (<[n := GLM.Vec (F.zeros (length GLM.taus))]> (GLM.objs h))))).
  set (body := GLM.GLMFit_tau sm_GLM fit resid_response params predict V V_t
                 y y_t n n (S n) (S (S n))).
  assert (GLM.GLMFit_unit sm_GLM fit resid_response params predict V V_t
            n_weights (y, y_t) h
          = match GLM.for_taus body 0 GLM.taus h3 with
            | (h', Py.Ok _) =>
                (h', Py.Ok (GLM.Refs n n (S n) (S (S n)) y_t))
            | (h', Py.Raise e) => (h', Py.Raise e)
            end) as -> by reflexivity.
  assert (∀ i, i < 11 → GLMFit_zero_at y_t n (S n) (S (S n)) i h3) as Hzero.
  { intros i Hi11. unfold GLMFit_zero_at, slot_at, h3. simpl.
    rewrite lookup_insert_ne, lookup_insert_ne, lookup_insert_eq by lia.
    rewrite lookup_insert_ne, lookup_insert_eq by lia.
    rewrite lookup_insert_eq. simpl. unfold F.zeros.
    clear -Hi11. do 11 (destruct i as [|i]; [done|]). lia. }
  pose proof (for_taus_rounds [n; n; S n; S (S n)] body
                (λ i tau, GLMFit_tau_touches y y_t n n (S n) (S (S n)) i tau)
                (λ i tau, GLMFit_tau_ok y y_t n n (S n) (S (S n)) i tau)
                (GLMFit_zero_at y_t n (S n) (S (S n)))
                (GLMFit_round_at y y_t n (S n) (S (S n)))
                (GLMFit_zero_at_slots y_t n (S n) (S (S n)))
                (GLMFit_round_at_slots y y_t n (S n) (S (S n)))
                (λ i tau h0, GLMFit_tau_round y y_t n (S n) (S (S n)) i tau h0
                               ltac:(lia) ltac:(lia) ltac:(lia))
                GLM.taus 0 h3 Hzero) as Hrounds.
  destruct (for_taus_spec [n; n; S n; S (S n)] body
              (λ i tau, GLMFit_tau_touches y y_t n n (S n) (S (S n)) i tau)
              (λ i tau, GLMFit_tau_ok y y_t n n (S n) (S (S n)) i tau)
              GLM.taus 0 h3)
    as (Hok & Hn & Ho & _ & Hk).
  destruct (GLM.for_taus body 0 GLM.taus h3) as [h' r] eqn:Hloop.
  simpl in Hok, Hn, Ho, Hk, Hrounds. subst r.
  eexists _, _. split; [done|]. split; [simpl in *; lia|]. split.
  - intros l Hl. rewrite Ho.
    2:{ rewrite !not_elem_of_cons. fold n in Hl.
        repeat split; try lia. apply not_elem_of_nil. }
    unfold h3. simpl. rewrite !lookup_insert_ne by lia. done.
  - split; [|exact Hrounds].
    split_and!; simpl; try lia.
    intros i tau Hi Hr.
    assert (i < 11) as Hi11 by (apply lookup_lt_Some in Hi; simpl in Hi; lia).
    rewrite !(Hk i tau Hi) by (intros h0; by apply GLMFit_tau_fit_raises).
    apply (Hzero i Hi11).
Qed.

Lemma GLMFit_make_spec (units : list (list Z * list Z)) :
  ∃ h' rs,
    GLM.GLMFit_make sm_GLM fit resid_response params predict V V_t
      n_weights units = Py.Ok (GLM.deref h' <$> rs)
    ∧ Forall2 (λ u r, GLMFit_rounds u r h') units rs.
Proof.
  destruct (for_units_spec
              (GLM.GLMFit_unit sm_GLM fit resid_response params predict
                 V V_t n_weights)
              GLMFit_rounds GLMFit_rounds_frame GLMFit_unit_spec
              units GLM.empty_heap)
    as (h' & rs & Hrun & _ & _ & Hall).
  exists h', rs. unfold GLM.GLMFit_make. by rewrite Hrun.
Qed.

(** In every record the two pseudo-R2 fields have the same contents:
    they are read from one array. *)
Lemma GLMFit_make_r2_alias (units : list (list Z * list Z)) :
  ∃ records,
    GLM.GLMFit_make sm_GLM fit resid_response params predict V V_t
      n_weights units = Py.Ok records
    ∧ length records = length units
    ∧ Forall (λ rec, GLM.r2 rec = GLM.r2_t rec) records.
Proof.
  destruct (GLMFit_make_spec units) as (h' & rs & -> & Hall).
  eexists. split; [done|]. split.
  - rewrite length_fmap. symmetry. by eapply Forall2_length.
  - apply Forall_fmap, Forall_forall. intros r [k Hk]%list_elem_of_lookup.
    destruct (Forall2_lookup_r _ _ _ _ _ Hall Hk) as (u & _ & Hpost).
    destruct Hpost as ((Halias & _) & _). simpl. by rewrite Halias.
Qed.

(** The records of [GLMFit.make], shift by shift. *)
Lemma GLMFit_make_fit_failure (units : list (list Z * list Z)) :
  ∃ records,
    GLM.GLMFit_make sm_GLM fit resid_response params predict V V_t
      n_weights units = Py.Ok records
    ∧ length records = length units
    ∧ (∀ k y y_t rec i tau,
        units !! k = Some (y, y_t) → records !! k = Some rec →
        GLM.taus !! i = Some tau → fit_raises y tau →
        GLM.r2 rec !! i = Some F.zero
        ∧ GLM.r2_t rec !! i = Some F.zero
        ∧ GLM.weights rec !! i = Some (F.zeros n_weights)
        ∧ GLM.predict_y rec !! i = Some (F.zeros (length y_t)))
    ∧ (∀ k y y_t rec i tau m res r2 y_roll_t_p errs r2_t,
        units !! k = Some (y, y_t) → records !! k = Some rec →
        GLM.taus !! i = Some tau →
        sm_GLM (Np.roll y tau) V = Py.Ok m → fit m = Py.Ok res →
        GLM.pseudo_r2 (resid_response res) (GLM.deviations (Np.roll y tau))
        = Py.Ok r2 →
        predict res V_t = Py.Ok y_roll_t_p →
        GLM.np_sub (F.of_Z <$> Np.roll y_t tau) y_roll_t_p = Py.Ok errs →
        GLM.pseudo_r2 errs (GLM.deviations (Np.roll y_t tau)) = Py.Ok r2_t →
        length y_roll_t_p = length y_t → length (params res) = n_weights →
        GLM.r2 rec !! i = Some r2_t
        ∧ GLM.r2_t rec !! i = Some r2_t
        ∧ GLM.weights rec !! i = Some (params res)
        ∧ GLM.predict_y rec !! i = Some y_roll_t_p)
    ∧ (∀ k y y_t rec i tau m res r2 e,
        units !! k = Some (y, y_t) → records !! k = Some rec →
        GLM.taus !! i = Some tau →
        sm_GLM (Np.roll y tau) V = Py.Ok m → fit m = Py.Ok res →
        GLM.pseudo_r2 (resid_response res) (GLM.deviations (Np.roll y tau))
        = Py.Ok r2 →
        predict res V_t = Py.Raise e →
        GLM.r2 rec !! i = Some r2
        ∧ GLM.r2_t rec !! i = Some r2
        ∧ GLM.weights rec !! i = Some (F.zeros n_weights)
        ∧ GLM.predict_y rec !! i = Some (F.zeros (length y_t))).
Proof.
  destruct (GLMFit_make_spec units) as (h' & rs & -> & Hall).
  eexists. split; [done|]. split.
  { rewrite length_fmap. symmetry. by eapply Forall2_length. }
  assert (∀ k y y_t rec, units !! k = Some (y, y_t) →
            (GLM.deref h' <$> rs) !! k = Some rec →
            ∃ r, rec = GLM.deref h' r ∧ GLMFit_rounds (y, y_t) r h') as Hrec.
  { intros k y y_t rec Hu Hrec. rewrite list_lookup_fmap in Hrec.
    destruct (rs !! k) as [r|] eqn:Hr; simpl in Hrec; [|done].
    injection Hrec as <-. exists r. split; [done|].
    exact (Forall2_lookup_lr _ _ _ _ _ _ Hall Hu Hr). }
  split_and!.
  - intros k y y_t rec i tau Hu Hr Hi Hraise.
    destruct (Hrec k y y_t rec Hu Hr)
      as (r & -> & (Halias & _ & _ & _ & Hzero) & _).
    destruct (Hzero i tau Hi Hraise) as (Ha & Hb & Hc). simpl.
    rewrite Halias.
    by rewrite (read_vec_slot _ _ _ _ Ha), (read_mat_slot _ _ _ _ Hb),
      (read_mat_slot _ _ _ _ Hc).
  - intros k y y_t rec i tau m res r2 p errs r2_t Hu Hr Hi
      Hm Hfit Hr2 Hp Herrs Hr2t Hlp Hlw.
    destruct (Hrec k y y_t rec Hu Hr) as (r & -> & (Halias & _) & Hrounds).
    destruct (Hrounds i tau Hi) as [Hall_ok _].
    destruct (Hall_ok m res r2 p errs r2_t Hm Hfit Hr2 Hp Herrs Hr2t Hlp Hlw)
      as (Ha & Hb & Hc). simpl in *.
    rewrite Halias.
    by rewrite (read_vec_slot _ _ _ _ Ha), (read_mat_slot _ _ _ _ Hb),
      (read_mat_slot _ _ _ _ Hc).
  - intros k y y_t rec i tau m res r2 e Hu Hr Hi Hm Hfit Hr2 Hp.
    destruct (Hrec k y y_t rec Hu Hr) as (r & -> & (Halias & _) & Hrounds).
    destruct (Hrounds i tau Hi) as [_ Hpred].
    destruct (Hpred m res r2 e Hm Hfit Hr2 Hp) as (Ha & Hb & Hc).
    simpl in *. rewrite Halias.
    by rewrite (read_vec_slot _ _ _ _ Ha), (read_mat_slot _ _ _ _ Hb),
      (read_mat_slot _ _ _ _ Hc).
Qed.

End GLMFit_facts.

(** *** [GLMFitNoLick.make] *)

Section GLMFitNoLick_facts.
Context {design model glm_result : Type}.
Variable sm_GLM : list Z → design → Py.result model.
Variable fit : model → Py.result glm_result.
Variable resid_response : glm_result → list F.float64.
Variable params : glm_result → list F.float64.
Variable predict : glm_result → design → Py.result (list F.float64).
Variable V : design.
Hypothesis sm_GLM_ok : ∀ y, ∃ m, sm_GLM y V = Py.Ok m.

Lemma GLMFitNoLick_tau_touches y r2s weights_t predict_ys i tau :
  touches [r2s; weights_t; predict_ys] i
    (GLM.GLMFitNoLick_tau sm_GLM fit resid_response params predict V
       y r2s weights_t predict_ys i tau).
Proof.
  unfold GLM.GLMFitNoLick_tau.
  apply touches_bind; [apply touches_lift|]. intros glm_poiss.
  apply touches_try_pass.
  repeat (apply touches_bind; [|intros ?]);
    try apply touches_lift;
    try (apply touches_setitem; set_solver);
    try (apply touches_setrow; set_solver).
Qed.

Lemma GLMFitNoLick_tau_ok y r2s weights_t predict_ys i tau h :
  (GLM.GLMFitNoLick_tau sm_GLM fit resid_response params predict V
     y r2s weights_t predict_ys i tau h).2 = Py.Ok ().
Proof.
  unfold GLM.GLMFitNoLick_tau, mbind, GLM.M_bind, GLM.lift.
  destruct (sm_GLM_ok (Np.roll y tau)) as [m ->].
  unfold GLM.try_pass.
  by match goal with |- context [match ?x with _ => _ end] => destruct x end.
Qed.

Lemma GLMFitNoLick_tau_fit_raises y r2s weights_t predict_ys i tau h :
  fit_raises sm_GLM fit V y tau →
  (GLM.GLMFitNoLick_tau sm_GLM fit resid_response params predict V
     y r2s weights_t predict_ys i tau h).1 = h.
Proof.
  intros Hraise.
  unfold GLM.GLMFitNoLick_tau, mbind, GLM.M_bind, GLM.lift.
  destruct (sm_GLM_ok (Np.roll y tau)) as [m Hm]. rewrite Hm.
  destruct (Hraise m Hm) as [e He].
  unfold GLM.try_pass. by rewrite He.
Qed.

Definition GLMFitNoLick_zero_at (y : list Z) (a w q : nat) (i : nat)
  (h : GLM.heap) : Prop :=
  slot_at h a i = Some (inl F.zero)
  ∧ slot_at h w i = Some (inr (F.zeros 9))
  ∧ slot_at h q i = Some (inr (F.zeros (length y))).

(** What the round for the shift [tau] leaves in slot [i] of the arrays
    [r2s] (at [a]), [weights_t] (at [w]) and [predict_ys] (at [q]). *)
Definition GLMFitNoLick_round_at (y : list Z) (a w q : nat) (i : nat)
  (tau : Z) (h : GLM.heap) : Prop :=
  (∀ m res r2 y_roll_t_p,
     sm_GLM (Np.roll y tau) V = Py.Ok m → fit m = Py.Ok res →
     GLM.pseudo_r2 (resid_response res) (GLM.deviations (Np.roll y tau))
     = Py.Ok r2 →
     predict res V = Py.Ok y_roll_t_p →
     length y_roll_t_p = length y → length (params res) = 9 →
     slot_at h a i = Some (inl r2)
     ∧ slot_at h w i = Some (inr (params res))
     ∧ slot_at h q i = Some (inr y_roll_t_p))
  ∧ (∀ m res r2 e,
       sm_GLM (Np.roll y tau) V = Py.Ok m → fit m = Py.Ok res →
       GLM.pseudo_r2 (resid_response res) (GLM.deviations (Np.roll y tau))
       = Py.Ok r2 →
       predict res V = Py.Raise e →
       slot_at h a i = Some (inl r2)
       ∧ slot_at h w i = Some (inr (F.zeros 9))
       ∧ slot_at h q i = Some (inr (F.zeros (length y)))).

Lemma GLMFitNoLick_zero_at_slots y a w q i h h' :
  (∀ l, slot_at h' l i = slot_at h l i) →
  GLMFitNoLick_zero_at y a w q i h → GLMFitNoLick_zero_at y a w q i h'.
Proof. intros Hs. unfold GLMFitNoLick_zero_at. by rewrite !Hs. Qed.

Lemma GLMFitNoLick_round_at_slots y a w q i tau h h' :
  (∀ l, slot_at h' l i = slot_at h l i) →
  GLMFitNoLick_round_at y a w q i tau h →
  GLMFitNoLick_round_at y a w q i tau h'.
Proof. intros Hs. unfold GLMFitNoLick_round_at. by rewrite !Hs. Qed.

Lemma GLMFitNoLick_tau_round y a w q i tau h :
  a ≠ w → a ≠ q → w ≠ q →
  GLMFitNoLick_zero_at y a w q i h →
  GLMFitNoLick_round_at y a w q i tau
    (GLM.GLMFitNoLick_tau sm_GLM fit resid_response params predict V
       y a w q i tau h).1.
Proof.
  intros Haw Haq Hwq (Za & Zw & Zq). split.
  - intros m res r2 p Hm Hfit Hr2 Hp Hlp Hlw.
    destruct (setitem_slot h a i r2 _ Za) as (h1 & Hs1 & Ha1 & Ho1).
    assert (slot_at h1 q i = Some (inr (F.zeros (length y)))) as Zq1.
    { by rewrite (slot_at_frame h h1) by (apply Ho1; congruence). }
    destruct (setrow_slot h1 q i p _ Zq1) as (h2 & Hs2 & Hq2 & Ho2).
    { unfold F.zeros. by rewrite length_replicate. }
    assert (slot_at h2 w i = Some (inr (F.zeros 9))) as Zw2.
    { rewrite (slot_at_frame h1 h2) by (by apply Ho2).
      by rewrite (slot_at_frame h h1) by (apply Ho1; congruence). }
    destruct (setrow_slot h2 w i (params res) _ Zw2) as (h3 & Hs3 & Hw3 & Ho3).
    { unfold F.zeros. by rewrite length_replicate. }
    assert (GLM.GLMFitNoLick_tau sm_GLM fit resid_response params predict V
              y a w q i tau h = (h3, Py.Ok ())) as ->.
    { unfold GLM.GLMFitNoLick_tau, mbind, GLM.M_bind, GLM.lift, GLM.try_pass.
      cbv zeta. rewrite Hm. cbv beta iota. rewrite Hfit. cbv beta iota.
      rewrite Hr2. cbv beta iota. rewrite Hs1. cbv beta iota.
      rewrite Hp. cbv beta iota. rewrite Hs2. cbv beta iota.
      rewrite Hs3. done. }
    cbn [fst]. split_and!.
    + rewrite (slot_at_frame h2 h3) by (by apply Ho3).
      by rewrite (slot_at_frame h1 h2) by (by apply Ho2).
    + done.
    + by rewrite (slot_at_frame h2 h3) by (apply Ho3; congruence).
  - intros m res r2 e Hm Hfit Hr2 Hp.
    destruct (setitem_slot h a i r2 _ Za) as (h1 & Hs1 & Ha1 & Ho1).
    assert (GLM.GLMFitNoLick_tau sm_GLM fit resid_response params predict V
              y a w q i tau h = (h1, Py.Ok ())) as ->.
    { unfold GLM.GLMFitNoLick_tau, mbind, GLM.M_bind, GLM.lift, GLM.try_pass.
      cbv zeta. rewrite Hm. cbv beta iota. rewrite Hfit. cbv beta iota.
      rewrite Hr2. cbv beta iota. rewrite Hs1. cbv beta iota.
      rewrite Hp. done. }
    cbn [fst]. split_and!.
    + done.
    + by rewrite (slot_at_frame h h1) by (apply Ho1; congruence).
    + by rewrite (slot_at_frame h h1) by (apply Ho1; congruence).
Qed.

Definition GLMFitNoLick_post (y : list Z) (r : GLM.refs_nolick)
  (h : GLM.heap) : Prop :=
  GLM.ref_r2_nolick r < GLM.next h
  ∧ GLM.ref_weights_nolick r < GLM.next h
  ∧ GLM.ref_predict_y_nolick r < GLM.next h
  ∧ ∀ i tau, GLM.taus !! i = Some tau → fit_raises sm_GLM fit V y tau →
      slot_at h (GLM.ref_r2_nolick r) i = Some (inl F.zero)
      ∧ slot_at h (GLM.ref_weights_nolick r) i = Some (inr (F.zeros 9))
      ∧ slot_at h (GLM.ref_predict_y_nolick r) i
        = Some (inr (F.zeros (length y))).

Definition GLMFitNoLick_rounds (y : list Z) (r : GLM.refs_nolick)
  (h : GLM.heap) : Prop :=
  GLMFitNoLick_post y r h
  ∧ ∀ i tau, GLM.taus !! i = Some tau →
      GLMFitNoLick_round_at y (GLM.ref_r2_nolick r)
        (GLM.ref_weights_nolick r) (GLM.ref_predict_y_nolick r) i tau h.

Lemma GLMFitNoLick_post_frame y r h h' :
  GLMFitNoLick_post y r h → GLM.next h ≤ GLM.next h' →
  (∀ l, l < GLM.next h → GLM.objs h' !! l = GLM.objs h !! l) →
  GLMFitNoLick_post y r h'.
Proof.
  intros (H2 & H3 & H4 & H5) Hn Ho.
  do 3 (split; [lia|]).
  intros i tau Hi Hr. destruct (H5 i tau Hi Hr) as (Ha & Hb & Hc).
  rewrite !(slot_at_frame h h') by (apply Ho; lia). done.
Qed.

Lemma GLMFitNoLick_rounds_frame y r h h' :
  GLMFitNoLick_rounds y r h → GLM.next h ≤ GLM.next h' →
  (∀ l, l < GLM.next h → GLM.objs h' !! l = GLM.objs h !! l) →
  GLMFitNoLick_rounds y r h'.
Proof.
  intros [Hpost Hrounds] Hn Ho.
  split; [by eapply GLMFitNoLick_post_frame|].
  destruct Hpost as (H2 & H3 & H4 & _).
  intros i tau Hi. specialize (Hrounds i tau Hi).
  unfold GLMFitNoLick_round_at in *.
  by rewrite !(slot_at_frame h h') by (apply Ho; lia).
Qed.

Lemma GLMFitNoLick_unit_spec y h :
  ∃ h' r,
    GLM.GLMFitNoLick_unit sm_GLM fit resid_response params predict V y h
    = (h', Py.Ok r)
    ∧ GLM.next h ≤ GLM.next h'
    ∧ (∀ l, l < GLM.next h → GLM.objs h' !! l = GLM.objs h !! l)
    ∧ GLMFitNoLick_rounds y r h'.
Proof.
  set (n := GLM.next h).
  set (h3 := GLM.Heap (S (S (S n)))
    (<[S (S n) := GLM.Mat (replicate (length GLM.taus)
                             (F.zeros (length y)))]>
      (<[S n := GLM.Mat (replicate (length GLM.taus) (F.zeros 9))]>
        (<[n := GLM.Vec (F.zeros (length GLM.taus))]> (GLM.objs h))))).
  set (body := GLM.GLMFitNoLick_tau sm_GLM fit resid_response params predict
                 V y n (S n) (S (S n))).
  assert (GLM.GLMFitNoLick_unit sm_GLM fit resid_response params predict V
            y h
          = match GLM.for_taus body 0 GLM.taus h3 with
            | (h', Py.Ok _) =>
                (h', Py.Ok (GLM.RefsNoLick n (S n) (S (S n)) y))
            | (h', Py.Raise e) => (h', Py.Raise e)
            end) as -> by reflexivity.
  assert (∀ i, i < 11 → GLMFitNoLick_zero_at y n (S n) (S (S n)) i h3)
    as Hzero.
  { intros i Hi11. unfold GLMFitNoLick_zero_at, slot_at, h3. simpl.
    rewrite lookup_insert_ne, lookup_insert_ne, lookup_insert_eq by lia.
    rewrite lookup_insert_ne, lookup_insert_eq by lia.
    rewrite lookup_insert_eq. simpl. unfold F.zeros.
    clear -Hi11. do 11 (destruct i as [|i]; [done|]). lia. }
  pose proof (for_taus_rounds [n; S n; S (S n)] body
                (λ i tau, GLMFitNoLick_tau_touches y n (S n) (S (S n)) i tau)
                (λ i tau, GLMFitNoLick_tau_ok y n (S n) (S (S n)) i tau)
                (GLMFitNoLick_zero_at y n (S n) (S (S n)))
                (GLMFitNoLick_round_at y n (S n) (S (S n)))
                (GLMFitNoLick_zero_at_slots y n (S n) (S (S n)))
                (GLMFitNoLick_round_at_slots y n (S n) (S (S n)))
                (λ i tau h0,
                   GLMFitNoLick_tau_round y n (S n) (S (S n)) i tau h0
                     ltac:(lia) ltac:(lia) ltac:(lia))
                GLM.taus 0 h3 Hzero) as Hrounds.
  destruct (for_taus_spec [n; S n; S (S n)] body
              (λ i tau, GLMFitNoLick_tau_touches y n (S n) (S (S n)) i tau)
              (λ i tau, GLMFitNoLick_tau_ok y n (S n) (S (S n)) i tau)
              GLM.taus 0 h3)
    as (Hok & Hn & Ho & _ & Hk).
  destruct (GLM.for_taus body 0 GLM.taus h3) as [h' r] eqn:Hloop.
  simpl in Hok, Hn, Ho, Hk, Hrounds. subst r.
  eexists _, _. split; [done|]. split; [simpl in *; lia|]. split.
  - intros l Hl. rewrite Ho.
    2:{ rewrite !not_elem_of_cons. fold n in Hl.
        repeat split; try lia. apply not_elem_of_nil. }
    unfold h3. simpl. rewrite !lookup_insert_ne by lia. done.
  - split; [|exact Hrounds].
    split_and!; simpl; try lia.
    intros i tau Hi Hr.
    assert (i < 11) as Hi11 by (apply lookup_lt_Some in Hi; simpl in Hi; lia).
    rewrite !(Hk i tau Hi)
      by (intros h0; by apply GLMFitNoLick_tau_fit_raises).
    apply (Hzero i Hi11).
Qed.

(** The records of [GLMFitNoLick.make], shift by shift. *)
Lemma GLMFitNoLick_make_fit_failure (units : list (list Z)) :
  ∃ records,
    GLM.GLMFitNoLick_make sm_GLM fit resid_response params predict V units
    = Py.Ok records
    ∧ length records = length units
    ∧ (∀ k y rec i tau,
        units !! k = Some y → records !! k = Some rec →
        GLM.taus !! i = Some tau → fit_raises sm_GLM fit V y tau →
        GLM.r2_nolick rec !! i = Some F.zero
        ∧ GLM.weights_nolick rec !! i = Some (F.zeros 9)
        ∧ GLM.predict_y_nolick rec !! i = Some (F.zeros (length y)))
    ∧ (∀ k y rec i tau m res r2 y_roll_t_p,
        units !! k = Some y → records !! k = Some rec →
        GLM.taus !! i = Some tau →
        sm_GLM (Np.roll y tau) V = Py.Ok m → fit m = Py.Ok res →
        GLM.pseudo_r2 (resid_response res) (GLM.deviations (Np.roll y tau))
        = Py.Ok r2 →
        predict res V = Py.Ok y_roll_t_p →
        length y_roll_t_p = length y → length (params res) = 9 →
        GLM.r2_nolick rec !! i = Some r2
        ∧ GLM.weights_nolick rec !! i = Some (params res)
        ∧ GLM.predict_y_nolick rec !! i = Some y_roll_t_p)
    ∧ (∀ k y rec i tau m res r2 e,
        units !! k = Some y → records !! k = Some rec →
        GLM.taus !! i = Some tau →
        sm_GLM (Np.roll y tau) V = Py.Ok m → fit m = Py.Ok res →
        GLM.pseudo_r2 (resid_response res) (GLM.deviations (Np.roll y tau))
        = Py.Ok r2 →
        predict res V = Py.Raise e →
        GLM.r2_nolick rec !! i = Some r2
        ∧ GLM.weights_nolick rec !! i = Some (F.zeros 9)
        ∧ GLM.predict_y_nolick rec !! i = Some (F.zeros (length y))).
Proof.
  destruct (for_units_spec
              (GLM.GLMFitNoLick_unit sm_GLM fit resid_response params
                 predict V)
              GLMFitNoLick_rounds GLMFitNoLick_rounds_frame
              GLMFitNoLick_unit_spec units GLM.empty_heap)
    as (h' & rs & Hrun & _ & _ & Hall).
  unfold GLM.GLMFitNoLick_make. rewrite Hrun.
  eexists. split; [done|]. split.
  { rewrite length_fmap. symmetry. by eapply Forall2_length. }
  assert (∀ k y rec, units !! k = Some y →
            (GLM.deref_nolick h' <$> rs) !! k = Some rec →
            ∃ r, rec = GLM.deref_nolick h' r ∧ GLMFitNoLick_rounds y r h')
    as Hrec.
  { intros k y rec Hu Hrec. rewrite list_lookup_fmap in Hrec.
    destruct (rs !! k) as [r|] eqn:Hr; simpl in Hrec; [|done].
    injection Hrec as <-. exists r. split; [done|].
    exact (Forall2_lookup_lr _ _ _ _ _ _ Hall Hu Hr). }
  split_and!.
  - intros k y rec i tau Hu Hr Hi Hraise.
    destruct (Hrec k y rec Hu Hr) as (r & -> & (_ & _ & _ & Hzero) & _).
    destruct (Hzero i tau Hi Hraise) as (Ha & Hb & Hc). simpl.
    by rewrite (read_vec_slot _ _ _ _ Ha), (read_mat_slot _ _ _ _ Hb),
      (read_mat_slot _ _ _ _ Hc).
  - intros k y rec i tau m res r2 p Hu Hr Hi Hm Hfit Hr2 Hp Hlp Hlw.
    destruct (Hrec k y rec Hu Hr) as (r & -> & _ & Hrounds).
    destruct (Hrounds i tau Hi) as [Hall_ok _].
    destruct (Hall_ok m res r2 p Hm Hfit Hr2 Hp Hlp Hlw) as (Ha & Hb & Hc).
    simpl.
    by rewrite (read_vec_slot _ _ _ _ Ha), (read_mat_slot _ _ _ _ Hb),
      (read_mat_slot _ _ _ _ Hc).
  - intros k y rec i tau m res r2 e Hu Hr Hi Hm Hfit Hr2 Hp.
    destruct (Hrec k y rec Hu Hr) as (r & -> & _ & Hrounds).
    destruct (Hrounds i tau Hi) as [_ Hpred].
    destruct (Hpred m res r2 e Hm Hfit Hr2 Hp) as (Ha & Hb & Hc). simpl.
    by rewrite (read_vec_slot _ _ _ _ Ha), (read_mat_slot _ _ _ _ Hb),
      (read_mat_slot _ _ _ _ Hc).
Qed.

End GLMFitNoLick_facts.

(** *** Concrete fits *)

(** A session in which every fit converges with zero residuals and
    every prediction on the test trials is [0, 1]. *)
Definition ex_sm_GLM (y : list Z) (V : ()) : Py.result (list Z) := Py.Ok y.
Definition ex_fit (m : list Z) : Py.result () := Py.Ok ().
Definition ex_resid_response (r : ()) : list F.float64 := F.zeros 2.
Definition ex_params (r : ()) : list F.float64 := F.zeros 9.
Definition ex_predict (r : ()) (V : ()) : Py.result (list F.float64) :=
  Py.Ok [F.of_Z 0; F.of_Z 1].
(** The same session with a prediction step that raises. *)
Definition ex_predict_raises (r : ()) (V : ())
  : Py.result (list F.float64) := Py.Raise Py.LibraryError.
(** The same session with fits that raise. *)
Definition ex_fit_raises (m : list Z) : Py.result () :=
  Py.Raise Py.LibraryError.

(** C1. One unit with spike counts [0, 2] on the training and on the test
    trials, fits with zero residuals and predictions [0, 1]: at shift 0 the
    in-sample pseudo-R2 is 1 - 0/2 = 1 and the held-out one is 1 - 1/2 =
    1/2.  The record's [r2] entry for shift 0 holds 1/2, the held-out
    value: [r2s_t=r2s] made both names one array, and the second write
    replaced the first. *)
Theorem GLMFit_r2_overwritten_by_held_out :
  ∃ rec,
    GLM.GLMFit_make ex_sm_GLM ex_fit ex_resid_response ex_params ex_predict
      () () 9 [([0; 2]%Z, [0; 2]%Z)] = Py.Ok [rec]
    ∧ GLM.taus !! 5 = Some 0%Z
    ∧ GLM.pseudo_r2 (ex_resid_response ())
        (GLM.deviations (Np.roll [0; 2]%Z 0)) = Py.Ok (F.of_Z 1)
    ∧ GLM.r2_t rec !! 5 = Some (Some (Q2Qc (1 # 2)))
    ∧ GLM.r2 rec !! 5 = Some (Some (Q2Qc (1 # 2)))
    ∧ GLM.r2 rec !! 5 ≠ Some (F.of_Z 1)
    ∧ GLM.r2 rec = GLM.r2_t rec.
Proof.
  eexists. split; [vm_compute; reflexivity|].
  split; [reflexivity|].
  split; [vm_compute; do 2 f_equal; by apply Qc_is_canon|].
  split; [vm_compute; do 2 f_equal; by apply Qc_is_canon|].
  split; [vm_compute; do 2 f_equal; by apply Qc_is_canon|].
  split; [intros H; vm_compute in H; discriminate|].
  reflexivity.
Qed.

(** C4 (as stated) fails.  When the fit succeeds and the prediction that
    follows raises, the exception is swallowed, the weight row and the
    predicted-rate row stay zero, but the pseudo-R2 entry written before
    the prediction keeps its value 1. *)
Lemma prediction_failure_keeps_r2 :
  ∃ rec,
    GLM.GLMFit_make ex_sm_GLM ex_fit ex_resid_response ex_params
      ex_predict_raises () () 9 [([0; 2]%Z, [0; 2]%Z)] = Py.Ok [rec]
    ∧ GLM.taus !! 5 = Some 0%Z
    ∧ (∃ e, ex_predict_raises () () = Py.Raise e)
    ∧ GLM.r2 rec !! 5 = Some (Some (Qc_of_Z 1))
    ∧ GLM.r2 rec !! 5 ≠ Some F.zero
    ∧ GLM.weights rec !! 5 = Some (F.zeros 9)
    ∧ GLM.predict_y rec !! 5 = Some (F.zeros 2).
Proof.
  eexists. split; [vm_compute; reflexivity|].
  split; [reflexivity|].
  split; [by eexists|].
  split; [vm_compute; do 2 f_equal; by apply Qc_is_canon|].
  split; [intros H; vm_compute in H; discriminate|].
  split; reflexivity.
Qed.

(** C4 (as amended).  Provided building the model ([sm.GLM(...)], outside
    the [try]) does not raise, nothing raised by a fit, a prediction or a
    scoring step leaves the loops: [GLMFit.make] and [GLMFitNoLick.make]
    produce one record per unit, whatever the fits and predictions do.  In
    the record of every unit, the slots of every shift (pseudo-R2 entries,
    weight row, predicted-rate row) are as the round of that shift leaves
    them, whatever happened in the rounds of the other shifts and in the
    other units: exactly zero when the fit of the shift raises; the score,
    the fitted weights and the prediction of the shift when every step of
    its round succeeds; and the in-sample score with a zero weight row and a
    zero predicted-rate row when the fit succeeds and the prediction
    raises. *)
Theorem fit_failure_leaves_zero_slots {design model glm_result : Type}
  (sm_GLM : list Z → design → Py.result model)
  (fit : model → Py.result glm_result)
  (resid_response params : glm_result → list F.float64)
  (predict : glm_result → design → Py.result (list F.float64))
  (V V_t V_nolick : design) (n_weights : nat)
  (units : list (list Z * list Z)) (units_nolick : list (list Z)) :
  (∀ y X, ∃ m, sm_GLM y X = Py.Ok m) →
  (∃ records,
     GLM.GLMFit_make sm_GLM fit resid_response params predict V V_t
       n_weights units = Py.Ok records
     ∧ length records = length units
     ∧ (∀ k y y_t rec i tau,
         units !! k = Some (y, y_t) → records !! k = Some rec →
         GLM.taus !! i = Some tau → fit_raises sm_GLM fit V y tau →
         GLM.r2 rec !! i = Some F.zero
         ∧ GLM.r2_t rec !! i = Some F.zero
         ∧ GLM.weights rec !! i = Some (F.zeros n_weights)
         ∧ GLM.predict_y rec !! i = Some (F.zeros (length y_t)))
     ∧ (∀ k y y_t rec i tau m res r2 y_roll_t_p errs r2_t,
         units !! k = Some (y, y_t) → records !! k = Some rec →
         GLM.taus !! i = Some tau →
         sm_GLM (Np.roll y tau) V = Py.Ok m → fit m = Py.Ok res →
         GLM.pseudo_r2 (resid_response res) (GLM.deviations (Np.roll y tau))
         = Py.Ok r2 →
         predict res V_t = Py.Ok y_roll_t_p →
         GLM.np_sub (F.of_Z <$> Np.roll y_t tau) y_roll_t_p = Py.Ok errs →
         GLM.pseudo_r2 errs (GLM.deviations (Np.roll y_t tau)) = Py.Ok r2_t →
         length y_roll_t_p = length y_t → length (params res) = n_weights →
         GLM.r2 rec !! i = Some r2_t
         ∧ GLM.r2_t rec !! i = Some r2_t
         ∧ GLM.weights rec !! i = Some (params res)
         ∧ GLM.predict_y rec !! i = Some y_roll_t_p)
     ∧ (∀ k y y_t rec i tau m res r2 e,
         units !! k = Some (y, y_t) → records !! k = Some rec →
         GLM.taus !! i = Some tau →
         sm_GLM (Np.roll y tau) V = Py.Ok m → fit m = Py.Ok res →
         GLM.pseudo_r2 (resid_response res) (GLM.deviations (Np.roll y tau))
         = Py.Ok r2 →
         predict res V_t = Py.Raise e →
         GLM.r2 rec !! i = Some r2
         ∧ GLM.r2_t rec !! i = Some r2
         ∧ GLM.weights rec !! i = Some (F.zeros n_weights)
         ∧ GLM.predict_y rec !! i = Some (F.zeros (length y_t))))
  ∧ (∃ records,
       GLM.GLMFitNoLick_make sm_GLM fit resid_response params predict
         V_nolick units_nolick = Py.Ok records
       ∧ length records = length units_nolick
       ∧ (∀ k y rec i tau,
           units_nolick !! k = Some y → records !! k = Some rec →
           GLM.taus !! i = Some tau →
           fit_raises sm_GLM fit V_nolick y tau →
           GLM.r2_nolick rec !! i = Some F.zero
           ∧ GLM.weights_nolick rec !! i = Some (F.zeros 9)
           ∧ GLM.predict_y_nolick rec !! i = Some (F.zeros (length y)))
       ∧ (∀ k y rec i tau m res r2 y_roll_t_p,
           units_nolick !! k = Some y → records !! k = Some rec →
           GLM.taus !! i = Some tau →
           sm_GLM (Np.roll y tau) V_nolick = Py.Ok m → fit m = Py.Ok res →
           GLM.pseudo_r2 (resid_response res)
             (GLM.deviations (Np.roll y tau)) = Py.Ok r2 →
           predict res V_nolick = Py.Ok y_roll_t_p →
           length y_roll_t_p = length y → length (params res) = 9 →
           GLM.r2_nolick rec !! i = Some r2
           ∧ GLM.weights_nolick rec !! i = Some (params res)
           ∧ GLM.predict_y_nolick rec !! i = Some y_roll_t_p)
       ∧ (∀ k y rec i tau m res r2 e,
           units_nolick !! k = Some y → records !! k = Some rec →
           GLM.taus !! i = Some tau →
           sm_GLM (Np.roll y tau) V_nolick = Py.Ok m → fit m = Py.Ok res →
           GLM.pseudo_r2 (resid_response res)
             (GLM.deviations (Np.roll y tau)) = Py.Ok r2 →
           predict res V_nolick = Py.Raise e →
           GLM.r2_nolick rec !! i = Some r2
           ∧ GLM.weights_nolick rec !! i = Some (F.zeros 9)
           ∧ GLM.predict_y_nolick rec !! i = Some (F.zeros (length y)))).
Proof.
  intros Hctor. split.
  - apply GLMFit_make_fit_failure. intros y. apply Hctor.
  - apply GLMFitNoLick_make_fit_failure. intros y. apply Hctor.
Qed.

(** Fits that raise exactly when the shifted spike counts are [2, 0]. *)
Definition ex_fit_some (m : list Z) : Py.result () :=
  if decide (m = [2; 0]%Z) then Py.Raise Py.LibraryError else Py.Ok ().

(** One unit with spike counts [0, 2]: the fit of the first shift (-5)
    raises and leaves zeros; the round of the second shift (-4) is run all
    the same and leaves its held-out score 1/2 and its prediction. *)
Lemma fit_failure_leaves_zero_slots_witness :
  ∃ rec,
    GLM.GLMFit_make ex_sm_GLM ex_fit_some ex_resid_response ex_params
      ex_predict () () 9 [([0; 2]%Z, [0; 2]%Z)] = Py.Ok [rec]
    ∧ GLM.r2 rec !! 0 = Some F.zero
    ∧ GLM.weights rec !! 0 = Some (F.zeros 9)
    ∧ GLM.predict_y rec !! 0 = Some (F.zeros 2)
    ∧ GLM.r2 rec !! 1 = Some (Some (Q2Qc (1 # 2)))
    ∧ GLM.predict_y rec !! 1 = Some [F.of_Z 0; F.of_Z 1].
Proof.
  destruct (fit_failure_leaves_zero_slots ex_sm_GLM ex_fit_some
              ex_resid_response ex_params ex_predict () () () 9
              [([0; 2]%Z, [0; 2]%Z)] [])
    as [(records & Hrun & Hlen & Hzero & Hfitted & _) _].
  - intros y X. by exists y.
  - destruct records as [|rec [|? ?]]; try discriminate Hlen.
    exists rec. split; [exact Hrun|].
    destruct (Hzero 0 [0; 2]%Z [0; 2]%Z rec 0 (-5)%Z)
      as (H1 & _ & H3 & H4); try reflexivity.
    { intros m [= <-]. by eexists. }
    split; [exact H1|]. split; [exact H3|]. split; [exact H4|].
    edestruct (Hfitted 0 [0; 2]%Z [0; 2]%Z rec 1 (-4)%Z)
      as (H5 & _ & _ & H8); [reflexivity..|].
    split; [|exact H8].
    etrans; [exact H5|].
    apply (f_equal Some), (f_equal Some). by apply Qc_is_canon.
Defined.


(** ** Bout detection *)

(** *** Facts about the array operations of the detector *)

Lemma argwhere_from_S (i : nat) (cond : list bool) :
  Np.argwhere_from (S i) cond = S <$> Np.argwhere_from i cond.
Proof.
  revert i. induction cond as [|b cond IH]; intros i; [done|].
  simpl. rewrite IH. by destruct b.
Qed.

Lemma argwhere_from_app (i : nat) (c1 c2 : list bool) :
  Np.argwhere_from i (c1 ++ c2)
  = Np.argwhere_from i c1 ++ Np.argwhere_from (i + length c1) c2.
Proof.
  revert i. induction c1 as [|b c1 IH]; intros i; simpl.
  - by rewrite Nat.add_0_r.
  - rewrite IH. replace (S i + length c1) with (i + S (length c1)) by lia.
    by destruct b.
Qed.

Lemma argwhere_from_elem (i e : nat) (cond : list bool) :
  e ∈ Np.argwhere_from i cond ↔ i ≤ e ∧ cond !! (e - i) = Some true.
Proof.
  revert i. induction cond as [|b cond IH]; intros i; simpl.
  - rewrite elem_of_nil. split; [done|]. intros [_ He]. by rewrite lookup_nil in He.
  - assert (e ∈ Np.argwhere_from (S i) cond
            ↔ i < e ∧ (b :: cond) !! (e - i) = Some true) as Hrec.
    { rewrite IH. split.
      - intros [Hle He]. split; [lia|].
        replace (e - i) with (S (e - S i)) by lia. done.
      - intros [Hlt He]. split; [lia|].
        replace (e - i) with (S (e - S i)) in He by lia. done. }
    destruct b.
    + rewrite elem_of_cons, Hrec. split.
      * intros [->|[? ?]]; [|split; [lia|done]].
        split; [lia|]. by rewrite Nat.sub_diag.
      * intros [Hle He]. destruct (decide (e = i)) as [->|]; [by left|].
        right. split; [lia|done].
    + rewrite Hrec. split; [intros [? ?]; split; [lia|done]|].
      intros [Hle He]. destruct (decide (e = i)) as [->|].
      * by rewrite Nat.sub_diag in He.
      * split; [lia|done].
Qed.

Lemma argwhere_from_sorted (i : nat) (cond : list bool) :
  StronglySorted lt (Np.argwhere_from i cond).
Proof.
  revert i. induction cond as [|b cond IH]; intros i; simpl; [constructor|].
  destruct b; [|apply IH]. constructor; [apply IH|].
  apply Forall_forall. intros e [He _]%argwhere_from_elem. lia.
Qed.

Lemma argwhere_lt_length (e : nat) (cond : list bool) :
  e ∈ Np.argwhere cond → e < length cond.
Proof.
  intros [_ He]%argwhere_from_elem. apply lookup_lt_Some in He. lia.
Qed.

Lemma StronglySorted_lookup_lt {A} (R : relation A) (l : list A)
  (i j : nat) (a b : A) :
  StronglySorted R l → l !! i = Some a → l !! j = Some b → i < j → R a b.
Proof.
  intros Hs Hi Hj Hij.
  rewrite <-(take_drop_middle l i a Hi) in Hs, Hj.
  apply StronglySorted_app_1_r, StronglySorted_cons in Hs as [Hall _].
  rewrite Forall_forall in Hall. apply Hall.
  assert (length (take i l) = i) as Hlen.
  { rewrite length_take. apply lookup_lt_Some in Hi. lia. }
  rewrite lookup_app_r in Hj by lia. rewrite Hlen in Hj.
  destruct (j - i) as [|k] eqn:Hk; [lia|]. simpl in Hj.
  apply list_elem_of_lookup. eauto.
Qed.

Lemma diff_Z_lookup (xs : list Z) (k : nat) (a b : Z) :
  xs !! k = Some a → xs !! S k = Some b →
  Np.diff Z.sub xs !! k = Some (b - a)%Z.
Proof.
  revert k. induction xs as [|x xs IH]; intros k Ha Hb; [done|].
  destruct xs as [|y xs]; [done|].
  destruct k as [|k]; simpl in *.
  - by simplify_eq.
  - by apply IH.
Qed.

Lemma diff_length {A} (sub : A → A → A) (xs : list A) :
  length (Np.diff sub xs) = length xs - 1.
Proof.
  induction xs as [|x xs IH]; [done|].
  destruct xs as [|y xs]; [done|]. simpl in *. rewrite IH. lia.
Qed.

(** *** The cycles kept by the detector *)

(** [np.diff] of an index array. *)
Definition idx_diff (l : list nat) : list Z := Np.diff Z.sub (Z.of_nat <$> l).

Lemma idx_diff_cons2 (x y : nat) (l : list nat) :
  idx_diff (x :: y :: l) = (Z.of_nat y - Z.of_nat x)%Z :: idx_diff (y :: l).
Proof. done. Qed.

Lemma idx_diff_single (x : nat) : idx_diff [x] = [].
Proof. done. Qed.

Lemma keep_cycles_cons (two : bool) (t : nat) (idx : list nat) (d : Z)
  (next : list Z) :
  Bout.keep_cycles two (t :: idx) (d :: next)
  = if bool_decide (d = 1%Z)
       && (negb two || match next with
                       | d' :: _ => bool_decide (d' = 1%Z)
                       | [] => false
                       end)
    then t :: Bout.keep_cycles two idx next
    else Bout.keep_cycles two idx next.
Proof. done. Qed.

Lemma keep_cycles_nil_r (two : bool) (idx : list nat) :
  Bout.keep_cycles two idx [] = [].
Proof. by destruct idx. Qed.

(** Two cycles kept one after the other are either neighbours or at least
    three apart. *)
Definition kept_step (a b : nat) : Prop := b = a + 1 ∨ a + 3 ≤ b.

Lemma keep_cycles_elem (two : bool) (idx : list nat) (next : list Z) (x : nat) :
  x ∈ Bout.keep_cycles two idx next → x ∈ idx.
Proof.
  revert next. induction idx as [|t idx IH]; intros next; [done|].
  destruct next as [|d next]; [by intros ?%elem_of_nil|].
  rewrite keep_cycles_cons. destruct (_ && _).
  - intros [->|Hx]%elem_of_cons; [by left|]. right. by eapply IH.
  - intros Hx. right. by eapply IH.
Qed.

Lemma keep_cycles_Forall (two : bool) (P : nat → Prop) (idx : list nat)
  (next : list Z) :
  Forall P idx → Forall P (Bout.keep_cycles two idx next).
Proof.
  intros Hall. apply Forall_forall. intros x Hx%keep_cycles_elem.
  rewrite Forall_forall in Hall. by apply Hall.
Qed.

Lemma Forall_HdRel {A} (R : relation A) (a : A) (l : list A) :
  Forall (R a) l → HdRel R a l.
Proof. destruct 1; by constructor. Qed.

(** After a kept cycle [t], whose successor in the array is [t + 1], the
    next kept cycle is [t + 1] or lies at least three further. *)
Lemma keep_cycles_HdRel (two : bool) (t : nat) (idx rest : list nat) :
  StronglySorted lt (t :: idx ++ rest) →
  head (idx ++ rest) = Some (t + 1) →
  HdRel kept_step t (Bout.keep_cycles two idx (idx_diff (idx ++ rest))).
Proof.
  intros Hs Hhd.
  destruct idx as [|t1 idx]; [constructor|].
  simpl in Hhd. injection Hhd as ->.
  apply StronglySorted_cons in Hs as [_ Hs].
  rewrite <-app_comm_cons in Hs |- *.
  apply StronglySorted_cons in Hs as [Hall1 Hs].
  destruct (idx ++ rest) as [|t2 l] eqn:Hl.
  { rewrite idx_diff_single, keep_cycles_nil_r. constructor. }
  assert (t + 1 < t2) as Ht2 by (by apply Forall_cons in Hall1 as [? _]).
  apply StronglySorted_cons in Hs as [Hall2 Hs].
  rewrite idx_diff_cons2, keep_cycles_cons.
  destruct (_ && _) eqn:Hkeep1.
  { constructor. by left. }
  (* [t + 1] is not kept *)
  destruct idx as [|t2' idx].
  { constructor. }
  rewrite <-app_comm_cons in Hl. injection Hl as -> Hl.
  destruct l as [|t3 l'].
  { rewrite idx_diff_single, keep_cycles_nil_r. constructor. }
  assert (t2 < t3) as Ht3 by (by apply Forall_cons in Hall2 as [? _]).
  rewrite idx_diff_cons2 in Hkeep1 |- *. rewrite keep_cycles_cons.
  assert (Forall (λ k, t + 3 ≤ k)
            (Bout.keep_cycles two idx (idx_diff (t3 :: l')))) as Hrest.
  { apply keep_cycles_Forall.
    assert (Forall (lt t2) idx) as Hidx.
    { rewrite <-Hl in Hall2. by apply Forall_app in Hall2 as [? _]. }
    eapply Forall_impl; [exact Hidx|]. intros k Hk. simpl in Hk. lia. }
  apply Forall_HdRel.
  destruct (_ && _) eqn:Hkeep2 in |- *.
  - constructor.
    + right.
      destruct (decide (t2 = t + 2)) as [->|]; [|lia].
      exfalso.
      apply andb_true_iff in Hkeep2 as [Hd2%bool_decide_eq_true _].
      apply andb_false_iff in Hkeep1 as [Hd|Hsec1].
      * apply bool_decide_eq_false in Hd. lia.
      * apply orb_false_iff in Hsec1 as [Htwo Hsec1].
        apply bool_decide_eq_false in Hsec1. lia.
    + eapply Forall_impl; [exact Hrest|]. intros k Hk. by right.
  - eapply Forall_impl; [exact Hrest|]. intros k Hk. by right.
Qed.

Lemma keep_cycles_Sorted (two : bool) (idx rest : list nat) :
  StronglySorted lt (idx ++ rest) →
  Sorted kept_step (Bout.keep_cycles two idx (idx_diff (idx ++ rest))).
Proof.
  induction idx as [|t idx IH]; intros Hs; [constructor|].
  rewrite <-app_comm_cons in Hs |- *.
  pose proof Hs as Hs'. apply StronglySorted_cons in Hs' as [Hall Htl].
  destruct (idx ++ rest) as [|t1 l] eqn:Hl.
  { rewrite idx_diff_single, keep_cycles_nil_r. constructor. }
  rewrite idx_diff_cons2, keep_cycles_cons. rewrite <-Hl in *.
  destruct (_ && _) eqn:Hkeep; [|by apply IH].
  constructor; [by apply IH|].
  apply keep_cycles_HdRel; [done|].
  rewrite Hl. simpl. f_equal.
  apply andb_true_iff in Hkeep as [Hd%bool_decide_eq_true _]. lia.
Qed.

Lemma kept_step_lt (a b : nat) : kept_step a b → a < b.
Proof. unfold kept_step. lia. Qed.

Lemma Sorted_lookup_adjacent {A} (R : relation A) (l : list A) (k : nat)
  (a b : A) :
  Sorted R l → l !! k = Some a → l !! S k = Some b → R a b.
Proof.
  intros Hs. revert k. induction Hs as [|x l Hs IH Hhd]; intros k Ha Hb;
    [done|].
  destruct k as [|k]; simpl in *.
  - simplify_eq. destruct Hhd; simpl in *; by simplify_eq.
  - by eapply IH.
Qed.

Lemma Sorted_mono {A} (R1 R2 : relation A) (l : list A) :
  (∀ a b, R1 a b → R2 a b) → Sorted R1 l → Sorted R2 l.
Proof.
  intros HR. induction 1 as [|x l Hs IH Hhd]; constructor; [done|].
  destruct Hhd; constructor. by apply HR.
Qed.

Lemma keep_cycles_StronglySorted (two : bool) (idx rest : list nat) :
  StronglySorted lt (idx ++ rest) →
  StronglySorted lt
    (Bout.keep_cycles two idx (idx_diff (idx ++ rest))).
Proof.
  intros Hs. apply Sorted_StronglySorted.
  - intros a b c. lia.
  - eapply Sorted_mono; [|by apply keep_cycles_Sorted].
    apply kept_step_lt.
Qed.


(** *** Bout starts and ends *)

Lemma roll_1 {A} (d : list A) :
  d ≠ [] → Np.roll d 1 = drop (length d - 1) d ++ take (length d - 1) d.
Proof.
  intros Hd. destruct d as [|x [|y d]]; [done|done|].
  unfold Np.roll.
  assert (Z.to_nat (1 `mod` Z.of_nat (length (x :: y :: d))) = 1) as ->; [|done].
  rewrite Z.mod_small; [done|]. simpl length. lia.
Qed.

(** The positions flagged as bout starts are, but for a possible first
    position 0, the successors of the positions flagged as bout ends, but
    for a possible last position. *)
Lemma bout_indices (d : list Z) :
  d ≠ [] →
  ∃ B, StronglySorted lt B
    ∧ (∀ b, b ∈ B → b < length d - 1 ∧ ∃ v, d !! b = Some v ∧ (2 ≤ v)%Z)
    ∧ ((Np.argwhere ((λ v, bool_decide (2 ≤ v)%Z) <$> Np.roll d 1)
          = 0 :: (S <$> B)
        ∧ Np.argwhere ((λ v, bool_decide (2 ≤ v)%Z) <$> d)
          = B ++ [length d - 1])
       ∨ (Np.argwhere ((λ v, bool_decide (2 ≤ v)%Z) <$> Np.roll d 1)
            = S <$> B
          ∧ Np.argwhere ((λ v, bool_decide (2 ≤ v)%Z) <$> d) = B)).
Proof.
  intros Hd. set (ge2 := λ v, bool_decide (2 ≤ v)%Z).
  set (m := length d).
  assert (0 < m) as Hm by (destruct d; [done|unfold m; simpl; lia]).
  exists (Np.argwhere (ge2 <$> take (m - 1) d)).
  assert (∃ x, drop (m - 1) d = [x]) as [x Hx].
  { destruct (drop (m - 1) d) as [|x [|y l]] eqn:Hdrop.
    - apply (f_equal length) in Hdrop. rewrite length_drop in Hdrop.
      simpl in Hdrop. lia.
    - eauto.
    - apply (f_equal length) in Hdrop. rewrite length_drop in Hdrop.
      simpl in Hdrop. lia. }
  split; [apply argwhere_from_sorted|]. split.
  - intros b [_ Hb]%argwhere_from_elem. rewrite Nat.sub_0_r in Hb.
    rewrite list_lookup_fmap in Hb.
    destruct (take (m - 1) d !! b) as [v|] eqn:Hv; [|done].
    simpl in Hb. injection Hb as Hb. apply bool_decide_eq_true in Hb.
    pose proof (lookup_lt_Some _ _ _ Hv) as Hlt.
    rewrite length_take in Hlt. split; [lia|].
    exists v. split; [|done].
    rewrite lookup_take_lt in Hv by lia. done.
  - rewrite roll_1 by done. fold m. rewrite Hx.
    assert (Np.argwhere (ge2 <$> d)
            = Np.argwhere (ge2 <$> take (m - 1) d)
              ++ (if ge2 x then [m - 1] else [])) as Hoff.
    { rewrite <-(take_drop (m - 1) d) at 1. rewrite Hx, fmap_app.
      unfold Np.argwhere. rewrite argwhere_from_app. f_equal.
      rewrite length_fmap, length_take. simpl.
      fold m. rewrite (Nat.min_l (m - 1) m) by lia.
      by destruct (ge2 x). }
    rewrite Hoff. rewrite fmap_app. simpl ([x] ++ _).
    change (ge2 <$> [x]) with [ge2 x]. simpl ([_] ++ _).
    destruct (ge2 x); [left|right]; (split; [|by rewrite ?app_nil_r]);
      unfold Np.argwhere; simpl; by rewrite argwhere_from_S.
Qed.

Lemma head_app_singleton_le (B : list nat) (e b : nat) :
  StronglySorted lt (b :: B ++ [e]) →
  ∃ h, head (B ++ [e]) = Some h ∧ S b ≤ h.
Proof.
  intros [Hall _]%StronglySorted_cons.
  destruct (B ++ [e]) as [|h l] eqn:Hl.
  - by destruct B.
  - exists h. split; [done|]. apply Forall_cons in Hall as [? _]. lia.
Qed.

Lemma take_rows_Ok_of_lookups {A} (rows : list A) (idx : list nat) (out : list A) :
  Forall2 (λ i x, rows !! i = Some x) idx out →
  TrialOrder.take_rows rows idx = Py.Ok out.
Proof.
  intros Hall. apply mapM_Some in Hall.
  unfold TrialOrder.take_rows. by rewrite Hall.
Qed.

(** The times of paired starts and ends come out in order. *)
Lemma well_ordered_bouts (T : list Qc) (I B : list nat) (s e h : nat)
  (on_idx off_idx : list nat) (on off : list Qc) :
  StronglySorted Qclt T → StronglySorted lt I →
  (∀ b, b ∈ B → ∃ a a', I !! b = Some a ∧ I !! S b = Some a' ∧ a + 3 ≤ a') →
  StronglySorted lt (B ++ [e]) →
  head (B ++ [e]) = Some h → s ≤ h →
  TrialOrder.take_rows I (s :: (S <$> B)) = Py.Ok on_idx →
  TrialOrder.take_rows T on_idx = Py.Ok on →
  TrialOrder.take_rows I (B ++ [e]) = Py.Ok off_idx →
  TrialOrder.take_rows T ((λ i, i + 2) <$> off_idx) = Py.Ok off →
  Bout.well_ordered on off.
Proof.
  intros HT HI. revert s h on_idx off_idx on off.
  induction B as [|b B IH];
    intros s h on_idx off_idx on off Hgap HB Hh Hs Hon_idx Hon Hoff_idx Hoff.
  - apply take_rows_Ok_inv in Hon_idx, Hon, Hoff_idx, Hoff.
    simpl in *. injection Hh as <-.
    apply Forall2_cons_inv_l in Hon_idx as (a_s & ? & Has & ->%Forall2_nil_inv_l & ->).
    apply Forall2_cons_inv_l in Hoff_idx as (a_e & ? & Hae & ->%Forall2_nil_inv_l & ->).
    apply Forall2_cons_inv_l in Hon as (t_on & ? & Hton & ->%Forall2_nil_inv_l & ->).
    simpl in Hoff.
    apply Forall2_cons_inv_l in Hoff as (t_off & ? & Htoff & ->%Forall2_nil_inv_l & ->).
    simpl. split; [|done].
    assert (a_s ≤ a_e) as Hle.
    { destruct (decide (s = e)) as [->|Hne]; [by simplify_eq|].
      apply Nat.lt_le_incl.
      apply (StronglySorted_lookup_lt lt I s e); [done..|lia]. }
    apply (StronglySorted_lookup_lt Qclt T a_s (a_e + 2)); [done..|lia].
  - rewrite <-app_comm_cons in *. simpl in Hh. injection Hh as <-.
    destruct (head_app_singleton_le B e b HB) as (h' & Hh' & Hbh').
    apply StronglySorted_cons in HB as [_ HB'].
    destruct (Hgap b) as (a_b & a_b' & Hab & Hab' & Hgap_b); [by left|].
    apply take_rows_Ok_inv in Hon_idx, Hon, Hoff_idx, Hoff.
    rewrite fmap_cons in Hon_idx.
    apply Forall2_cons_inv_l in Hon_idx as (a_s & on_idx' & Has & Hon_idx & ->).
    apply Forall2_cons_inv_l in Hoff_idx as (a_b0 & off_idx' & Hab0 & Hoff_idx & ->).
    simpl in Hab0. assert (a_b0 = a_b) as -> by congruence.
    apply Forall2_cons_inv_l in Hon as (t_on & on' & Hton & Hon & ->).
    rewrite fmap_cons in Hoff.
    apply Forall2_cons_inv_l in Hoff as (t_off & off' & Htoff & Hoff & ->).
    simpl in Has, Hton, Htoff.
    assert (a_s ≤ a_b) as Hle.
    { destruct (decide (s = b)) as [->|Hne]; [by simplify_eq|].
      apply Nat.lt_le_incl.
      apply (StronglySorted_lookup_lt lt I s b); [done..|lia]. }
    (* the next onset *)
    pose proof Hon_idx as Hon_idx2.
    apply Forall2_cons_inv_l in Hon_idx2
      as (a_b1 & on_idx'' & Hab1 & _ & ->).
    simpl in Hab1. assert (a_b1 = a_b') as -> by congruence.
    pose proof Hon as Hon2.
    apply Forall2_cons_inv_l in Hon2 as (t_on' & on'' & Hton' & _ & ->).
    simpl in Hton'.
    change (t_on < t_off ∧ t_off < t_on'
            ∧ Bout.well_ordered (t_on' :: on'') off')%Qc.
    split_and!.
    + apply (StronglySorted_lookup_lt Qclt T a_s (a_b + 2)); [done..|lia].
    + apply (StronglySorted_lookup_lt Qclt T (a_b + 2) a_b'); [done..|lia].
    + apply (IH (S b) h' (a_b' :: on_idx'') off_idx').
      * intros b0 Hb0. apply Hgap. by right.
      * done.
      * done.
      * done.
      * by apply take_rows_Ok_of_lookups.
      * by apply take_rows_Ok_of_lookups.
      * by apply take_rows_Ok_of_lookups.
      * by apply take_rows_Ok_of_lookups.
Qed.

(** *** The detector as a whole *)

Lemma onset_times_sorted (threshold : Qc) (x : list Qc) :
  StronglySorted Qclt (Curve.but_last (Bout.onset_times threshold x)).
Proof.
  unfold Curve.but_last.
  apply (StronglySorted_app_1_l _ _
           (drop (length (Bout.onset_times threshold x) - 1)
                 (Bout.onset_times threshold x))).
  rewrite take_drop. unfold Bout.onset_times.
  apply (StronglySorted_fmap _ lt); [|apply argwhere_from_sorted].
  intros i j Hij. apply Qcmult_lt_compat_r; [reflexivity|].
  apply (proj1 (Z2Qc_inj_lt _ _)). lia.
Qed.

Lemma kept_cycles_sorted (two : bool) (cond : list bool) :
  Sorted kept_step
    (Bout.keep_cycles two
       (take (length (Np.argwhere cond) - 2) (Np.argwhere cond))
       (Np.diff Z.sub (Z.of_nat <$> Np.argwhere cond))).
Proof.
  pose proof (keep_cycles_Sorted two
    (take (length (Np.argwhere cond) - 2) (Np.argwhere cond))
    (drop (length (Np.argwhere cond) - 2) (Np.argwhere cond))) as Hs.
  rewrite take_drop in Hs. apply Hs, argwhere_from_sorted.
Qed.

Lemma bouts_tail_well_ordered (T : list Qc) (I B : list nat) (e : nat)
  (on off : list Qc) :
  StronglySorted Qclt T → Sorted kept_step I →
  (∀ b, b ∈ B → b < length I - 2
              ∧ ∃ v, idx_diff I !! b = Some v ∧ (2 ≤ v)%Z) →
  StronglySorted lt B →
  length I - 2 ≤ e →
  (on_idx ← Tuning.take_ind I (0 :: (S <$> B));
   lick_onset_time ← Tuning.take_ind T on_idx;
   off_idx ← Tuning.take_ind I (B ++ [e]);
   lick_offset_time ← Tuning.take_ind T ((λ i, i + 2) <$> off_idx);
   mret (lick_onset_time, lick_offset_time)) = Py.Ok (on, off) →
  Bout.well_ordered on off.
Proof.
  intros HT HIs HB HBs He Hrun.
  assert (StronglySorted lt I) as HI.
  { apply Sorted_StronglySorted; [apply _|].
    eapply Sorted_mono; [apply kept_step_lt|done]. }
  assert (∀ b, b ∈ B →
            ∃ a a', I !! b = Some a ∧ I !! S b = Some a' ∧ a + 3 ≤ a')
    as Hgap.
  { intros b [Hb (v & Hv & Hv2)]%HB.
    destruct (lookup_lt_is_Some_2 I b) as [a Ha]; [lia|].
    destruct (lookup_lt_is_Some_2 I (S b)) as [a' Ha']; [lia|].
    exists a, a'. split_and!; try done.
    pose proof (Sorted_lookup_adjacent _ _ _ _ _ HIs Ha Ha') as Hk.
    assert (idx_diff I !! b = Some (Z.of_nat a' - Z.of_nat a)%Z) as Hdb.
    { apply diff_Z_lookup; rewrite list_lookup_fmap;
        [by rewrite Ha | by rewrite Ha']. }
    unfold kept_step in Hk. simplify_eq. lia. }
  assert (StronglySorted lt (B ++ [e])) as HBe.
  { apply StronglySorted_app_2; [|done|repeat constructor].
    intros x1 x2 [Hx1 _]%HB ->%list_elem_of_singleton. lia. }
  assert (∃ h, head (B ++ [e]) = Some h) as [h Hh]
    by (destruct B; simpl; eauto).
  unfold Tuning.take_ind in Hrun.
  destruct (TrialOrder.take_rows I (0 :: (S <$> B))) as [on_idx|] eqn:E1;
    [|done].
  change (mbind ?f (Py.Ok ?v)) with (f v) in Hrun. cbv beta in Hrun.
  destruct (TrialOrder.take_rows T on_idx) as [t_on|] eqn:E2; [|done].
  change (mbind ?f (Py.Ok ?v)) with (f v) in Hrun. cbv beta in Hrun.
  destruct (TrialOrder.take_rows I (B ++ [e])) as [off_idx|] eqn:E3; [|done].
  change (mbind ?f (Py.Ok ?v)) with (f v) in Hrun. cbv beta in Hrun.
  destruct (TrialOrder.take_rows T ((λ i, i + 2) <$> off_idx))
    as [t_off|] eqn:E4; [|done].
  injection Hrun as <- <-.
  apply (well_ordered_bouts T I B 0 e h on_idx off_idx); try done. lia.
Qed.

(** Whenever the detector returns, the onsets and offsets it returns are
    paired, every bout ends after it starts, and before the next starts. *)
Lemma bouts_well_ordered (threshold lo hi : Qc) (two : bool) (x : list Qc)
  (on off : list Qc) :
  Bout.bouts threshold lo hi two x = Py.Ok (on, off) →
  Bout.well_ordered on off.
Proof.
  unfold Bout.bouts.
  set (T := Curve.but_last _).
  set (A := Np.argwhere (Bout.in_band lo hi <$> _)).
  set (I := Bout.keep_cycles _ _ _).
  change (Np.diff Z.sub (Z.of_nat <$> I)) with (idx_diff I).
  intros Hrun.
  assert (StronglySorted Qclt T) as HT by apply onset_times_sorted.
  assert (Sorted kept_step I) as HIs by apply kept_cycles_sorted.
  assert (length (idx_diff I) = length I - 1) as Hlen.
  { unfold idx_diff. by rewrite diff_length, length_fmap. }
  destruct (decide (idx_diff I = [])) as [Hd|Hd].
  { by rewrite Hd in Hrun. }
  destruct (bout_indices (idx_diff I) Hd) as (B & HBs & HB & Hcases).
  assert (∀ b, b ∈ B → b < length I - 2
                     ∧ ∃ v, idx_diff I !! b = Some v ∧ (2 ≤ v)%Z) as HB'.
  { intros b [Hb Hv]%HB. split; [lia|done]. }
  destruct Hcases as [[Hon Hoff]|[Hon Hoff]]; rewrite Hon, Hoff in Hrun.
  - apply (bouts_tail_well_ordered T I B (length (idx_diff I) - 1));
      [done..|lia|exact Hrun].
  - destruct B as [|b B]; [done|].
    apply (bouts_tail_well_ordered T I (b :: B) (length I - 1));
      [done..|lia|exact Hrun].
Qed.

Lemma well_ordered_length (on off : list Qc) :
  Bout.well_ordered on off → length on = length off.
Proof.
  revert off. induction on as [|t on IH]; intros [|t' off]; try done.
  intros (_ & _ & Hrest). simpl. f_equal. by apply IH.
Qed.

(** *** Example traces *)

(** A tongue trace: [n] licks of 50 samples each (25 out, 25 in), that
    is 5.9 licks per second. *)
Definition ex_licks (n : nat) : list Qc :=
  concat (replicate n (replicate 25 (Qc_of_Z 0) ++ replicate 25 (Qc_of_Z 1))).

(** A pause of [n] samples without tongue. *)
Definition ex_pause (n : nat) : list Qc := replicate n (Qc_of_Z 0).

(** On a trace with three lick bouts the detector returns their onsets and
    offsets, paired and in order. *)
Lemma lick_bouts_three_bouts :
  ∃ onsets offsets,
    Bout.lick_bouts (ex_licks 7 ++ ex_pause 500 ++ ex_licks 7
                     ++ ex_pause 500 ++ ex_licks 8)
    = Py.Ok (onsets, offsets)
    ∧ length onsets = 3 ∧ length offsets = 3
    ∧ Bout.well_ordered onsets offsets.
Proof.
  eexists _, _. split; [vm_compute; reflexivity|].
  split; [reflexivity|]. split; [reflexivity|].
  by vm_compute.
Qed.

(** C7. A tongue trace holding one single lick bout (seven licks in a row,
    no pause): no gap between kept cycles reaches 2, so no bout start is
    flagged, [lick_bout_onset] is empty and the test
    [lick_bout_onset[0]!=0] that should force the first onset in raises
    [IndexError]: the detector returns no onset and offset arrays at all.
    The whisking detector fails the same way, and so do both on an empty
    trace. *)
Theorem bouts_single_bout_raises :
  Bout.lick_bouts (ex_licks 7) = Py.Raise Py.IndexError
  ∧ Bout.whisk_bouts (ex_licks 7) = Py.Raise Py.IndexError
  ∧ Bout.lick_bouts [] = Py.Raise Py.IndexError
  ∧ Bout.whisk_bouts [] = Py.Raise Py.IndexError.
Proof. by vm_compute. Qed.


(** ** Building the bad-video annotations *)

(** Indexing an array with the positions at which a condition on its rows
    holds selects the rows that satisfy the condition, in order. *)
Lemma take_rows_argwhere_from {A B} (g : A → B) (P : A → Prop)
  `{!∀ x, Decision (P x)} (pre : list B) (l : list A) :
  Forall2 (λ i x, (pre ++ (g <$> l)) !! i = Some x)
    (Np.argwhere_from (length pre) ((λ x, bool_decide (P x)) <$> l))
    (g <$> filter P l).
Proof.
  revert pre. induction l as [|a l IH]; intros pre; [constructor|].
  rewrite !fmap_cons, filter_cons. simpl.
  specialize (IH (pre ++ [g a])).
  rewrite length_app, Nat.add_1_r, <-app_assoc in IH. simpl in IH.
  destruct (decide (P a)) as [Ha|Ha].
  - rewrite bool_decide_eq_true_2 by done. rewrite fmap_cons.
    constructor; [|done]. by rewrite list_lookup_middle.
  - by rewrite bool_decide_eq_false_2 by done.
Qed.

Lemma take_ind_argwhere {A B} (g : A → B) (P : A → Prop)
  `{!∀ x, Decision (P x)} (l : list A) :
  Tuning.take_ind (g <$> l) (Np.argwhere ((λ x, bool_decide (P x)) <$> l))
  = Py.Ok (g <$> filter P l).
Proof.
  apply take_rows_Ok_of_lookups.
  apply (take_rows_argwhere_from g P [] l).
Qed.

Lemma BadVideo_make_bad_trials (cam : list BadVideoMake.tracked) :
  Tuning.take_ind (BadVideoMake.trial <$> cam)
    (BadVideoMake.bad_ind
       ((λ d : list Qc, length d) <$> (BadVideoMake.jaw_y <$> cam)))
  = Py.Ok (BadVideoMake.trial
             <$> filter (λ t, length (BadVideoMake.jaw_y t) ≠ 1471) cam).
Proof.
  unfold BadVideoMake.bad_ind. rewrite <-!list_fmap_compose.
  apply (take_ind_argwhere BadVideoMake.trial
           (λ t, length (BadVideoMake.jaw_y t) ≠ 1471) cam).
Qed.

Lemma dedup_after_spec (prev : Z) (xs : list Z) :
  StronglySorted Z.le (prev :: xs) →
  StronglySorted Z.lt (prev :: Np.dedup_after prev xs)
  ∧ ∀ x, x ∈ prev :: Np.dedup_after prev xs ↔ x ∈ prev :: xs.
Proof.
  revert prev. induction xs as [|y xs IH]; intros prev Hs.
  { split; [repeat constructor|done]. }
  apply StronglySorted_cons in Hs as [Hall Hs].
  pose proof Hall as Hall'. apply Forall_cons in Hall' as [Hpy Hpxs].
  simpl. destruct (decide (y = prev)) as [->|Hne].
  - destruct (IH prev) as [IH1 IH2].
    { constructor; [|done]. by eapply StronglySorted_cons. }
    split; [done|]. intros x. rewrite IH2, !elem_of_cons. tauto.
  - destruct (IH y Hs) as [IH1 IH2]. split.
    + constructor; [done|]. apply Forall_forall. intros x Hx.
      apply IH2 in Hx. apply StronglySorted_cons in Hs as [Hys _].
      apply elem_of_cons in Hx as [->|Hx]; [lia|].
      rewrite Forall_forall in Hys. apply Hys in Hx. lia.
    + intros x. rewrite (elem_of_cons (_ :: _)), IH2, !elem_of_cons. tauto.
Qed.

(** [np.unique] and [np.setdiff1d] in general: strictly increasing, with
    the expected members. *)
Lemma unique_spec (ar : list Z) :
  StronglySorted Z.lt (Np.unique ar) ∧ ∀ x, x ∈ Np.unique ar ↔ x ∈ ar.
Proof.
  unfold Np.unique.
  pose proof (StronglySorted_merge_sort Z.le ar) as Hs.
  pose proof (merge_sort_Permutation Z.le ar) as Hp.
  destruct (merge_sort Z.le ar) as [|x xs].
  - split; [constructor|]. intros x. by rewrite <-Hp.
  - destruct (dedup_after_spec x xs Hs) as [H1 H2].
    split; [done|]. intros y. by rewrite H2, Hp.
Qed.

Lemma setdiff1d_spec (ar1 ar2 : list Z) :
  StronglySorted Z.lt (Np.setdiff1d ar1 ar2)
  ∧ ∀ x, x ∈ Np.setdiff1d ar1 ar2 ↔ x ∈ ar1 ∧ x ∉ ar2.
Proof.
  unfold Np.setdiff1d.
  destruct (unique_spec ar1) as [Hs1 He1].
  destruct (unique_spec ar2) as [Hs2 He2]. split.
  - by apply filter_StronglySorted.
  - intros x. rewrite list_elem_of_filter, He1, He2. tauto.
Qed.

(** X1. [BadVideo.make] never raises, and the bad trials it records for a
    camera are exactly the trials of that camera's rows whose trace does
    not hold 1471 frames, in fetch order; both attributes are always
    arrays, never null. *)
Theorem BadVideo_make_flags_other_lengths
  (side bot : list BadVideoMake.tracked) (exp_trials : list Z) :
  ∃ r, BadVideoMake.make side bot exp_trials = Py.Ok r
    ∧ BadVideo.bad_trial_side r
      = Some (BadVideoMake.trial
                <$> filter (λ t, length (BadVideoMake.jaw_y t) ≠ 1471) side)
    ∧ BadVideo.bad_trial_bot r
      = Some (BadVideoMake.trial
                <$> filter (λ t, length (BadVideoMake.jaw_y t) ≠ 1471) bot).
Proof.
  unfold BadVideoMake.make. rewrite !BadVideo_make_bad_trials.
  eexists. split; [reflexivity|]. done.
Qed.

(** X2. [BadVideo.make] looks for missing trials of a camera only when the
    camera has another number of rows than the session has trials: with
    equal numbers the attribute is null whatever the trial numbers are (and
    [JawTuning.make] then excludes the stand-in trial 0 only); with
    different numbers it holds, strictly increasing, the session trials the
    camera has no row for. *)
Theorem BadVideo_make_missing_by_count
  (side bot : list BadVideoMake.tracked) (exp_trials : list Z) :
  ∃ r, BadVideoMake.make side bot exp_trials = Py.Ok r
    ∧ (length side = length exp_trials →
         BadVideo.miss_trial_side r = None
         ∧ BadVideo.JawTuning_excluded [r] = Py.Ok [0%Z])
    ∧ (length side ≠ length exp_trials →
         ∃ miss, BadVideo.miss_trial_side r = Some miss
           ∧ StronglySorted Z.lt miss
           ∧ ∀ t, t ∈ miss
                  ↔ t ∈ exp_trials ∧ t ∉ BadVideoMake.trial <$> side)
    ∧ (length bot = length exp_trials → BadVideo.miss_trial_bot r = None)
    ∧ (length bot ≠ length exp_trials →
         ∃ miss, BadVideo.miss_trial_bot r = Some miss
           ∧ StronglySorted Z.lt miss
           ∧ ∀ t, t ∈ miss
                  ↔ t ∈ exp_trials ∧ t ∉ BadVideoMake.trial <$> bot).
Proof.
  unfold BadVideoMake.make. rewrite !BadVideo_make_bad_trials.
  eexists. split; [reflexivity|].
  unfold BadVideoMake.missing. rewrite !length_fmap. simpl.
  split_and!.
  - intros Hlen. unfold BadVideo.JawTuning_excluded. simpl.
    destruct (decide (length side ≠ length exp_trials)); done.
  - intros Hlen. destruct (decide (length side ≠ length exp_trials)); [|done].
    eexists. split; [done|]. apply setdiff1d_spec.
  - intros Hlen. destruct (decide (length bot ≠ length exp_trials)); done.
  - intros Hlen. destruct (decide (length bot ≠ length exp_trials)); [|done].
    eexists. split; [done|]. apply setdiff1d_spec.
Qed.


(** ** The tongue indicator *)

(** What the two assignments leave at a position holding the likelihoods
    [x] (side) and [y] (bottom). *)
Definition tongue_value (x y : F.float64) : F.float64 :=
  if Tongue.gt_thr x && Tongue.gt_thr y then F.of_Z 1
  else if Tongue.le_thr x || Tongue.le_thr y then F.of_Z 0
  else y.

Lemma zip_with_zip_with_r {A B C} (f : A → B → C) (g : A → C → C)
  (a : list A) (b : list B) :
  zip_with g a (zip_with f a b) = zip_with (λ x y, g x (f x y)) a b.
Proof.
  revert b. induction a as [|x a IH]; intros [|y b]; simpl; [done..|].
  by rewrite IH.
Qed.

Lemma zip_with_cond {A B} (c : A → B → bool) (v : B) (a : list A)
  (b : list B) :
  zip_with (λ (c : bool) x, if c then v else x) (zip_with c a b) b
  = zip_with (λ x y, if c x y then v else y) a b.
Proof.
  revert b. induction a as [|x a IH]; intros [|y b]; simpl; [done..|].
  by rewrite IH.
Qed.

Lemma mat_zip_with_zip_with_r {A B C} (f : A → B → C) (g : A → C → C)
  (a : list (list A)) (b : list (list B)) :
  zip_with (zip_with g) a (zip_with (zip_with f) a b)
  = zip_with (zip_with (λ x y, g x (f x y))) a b.
Proof.
  revert b. induction a as [|x a IH]; intros [|y b]; simpl; [done..|].
  by rewrite IH, zip_with_zip_with_r.
Qed.

Lemma mat_zip_with_cond {A B} (c : A → B → bool) (v : B)
  (a : list (list A)) (b : list (list B)) :
  zip_with (zip_with (λ (c : bool) x, if c then v else x))
           (zip_with (zip_with c) a b) b
  = zip_with (zip_with (λ x y, if c x y then v else y)) a b.
Proof.
  revert b. induction a as [|x a IH]; intros [|y b]; simpl; [done..|].
  by rewrite IH, zip_with_cond.
Qed.

Lemma mat_zip_with_ext {A B C} (f g : A → B → C) (a : list (list A))
  (b : list (list B)) :
  (∀ x y, f x y = g x y) →
  zip_with (zip_with f) a b = zip_with (zip_with g) a b.
Proof.
  intros Hfg. revert b. induction a as [|x a IH]; intros [|y b]; simpl;
    [done..|].
  rewrite IH. f_equal. by apply zip_with_ext.
Qed.

Lemma same_shape_zip_with {A B C} (f : A → B → C) (a : list (list A))
  (b : list (list B)) :
  Tuning.same_shape a b → Tuning.same_shape a (zip_with (zip_with f) a b).
Proof.
  unfold Tuning.same_shape. induction 1 as [|x y a b Hxy Hab IH]; simpl;
    constructor; [|done].
  rewrite length_zip_with. lia.
Qed.

Lemma tongue_value_two_passes (x y : F.float64) :
  (if Tongue.le_thr x
      || Tongue.le_thr (if Tongue.gt_thr x && Tongue.gt_thr y
                        then F.of_Z 1 else y)
   then F.of_Z 0
   else if Tongue.gt_thr x && Tongue.gt_thr y then F.of_Z 1 else y)
  = tongue_value x y.
Proof.
  unfold tongue_value.
  destruct (Tongue.gt_thr x && Tongue.gt_thr y) eqn:Hgt; [|done].
  apply andb_true_iff in Hgt as [Hx _].
  assert (Tongue.le_thr x = false) as ->.
  { destruct x as [q|]; [|done]. simpl in *.
    apply bool_decide_eq_true in Hx. apply bool_decide_eq_false.
    by apply Qclt_not_le. }
  done.
Qed.

Lemma read_mat_lookup (h : GLM.heap) (a : nat) (m : list (list F.float64)) :
  GLM.objs h !! a = Some (GLM.Mat m) → GLM.read_mat h a = m.
Proof. intros Ha. unfold GLM.read_mat. by rewrite Ha. Qed.

Lemma read_mat_insert_eq (n a : nat) (o : gmap nat GLM.ndarray)
  (m : list (list F.float64)) :
  GLM.read_mat (GLM.Heap n (<[a := GLM.Mat m]> o)) a = m.
Proof. unfold GLM.read_mat. simpl. by rewrite lookup_insert_eq. Qed.

Lemma read_mat_insert_ne (n a a' : nat) (o : gmap nat GLM.ndarray)
  (x : GLM.ndarray) :
  a ≠ a' →
  GLM.read_mat (GLM.Heap n (<[a' := x]> o)) a = GLM.read_mat (GLM.Heap n o) a.
Proof. intros Hne. unfold GLM.read_mat. simpl. by rewrite lookup_insert_ne. Qed.

Lemma binarise_spec (h : GLM.heap) (s b : nat)
  (S B : list (list F.float64)) :
  GLM.objs h !! s = Some (GLM.Mat S) →
  GLM.objs h !! b = Some (GLM.Mat B) →
  s ≠ b →
  Tuning.same_shape S B →
  Tongue.binarise s b h
  = (GLM.Heap (GLM.next h)
       (<[b := GLM.Mat (zip_with (zip_with tongue_value) S B)]> (GLM.objs h)),
     Py.Ok b).
Proof.
  intros Hs Hb Hsb Hshape.
  unfold Tongue.binarise, Tongue.get, Tongue.set_where, GLM.lift,
    Tongue.elementwise.
  unfold mbind, GLM.M_bind, mret, GLM.M_ret. cbv beta iota.
  rewrite (read_mat_lookup h s S Hs), (read_mat_lookup h b B Hb).
  rewrite decide_True by done. cbv beta iota. cbn [GLM.objs GLM.next].
  rewrite !read_mat_insert_eq, !read_mat_insert_ne by done.
  assert (GLM.read_mat (GLM.Heap (GLM.next h) (GLM.objs h)) s = S) as ->
    by by apply read_mat_lookup.
  rewrite mat_zip_with_cond.
  rewrite decide_True by by apply same_shape_zip_with.
  cbv beta iota. cbn [GLM.objs GLM.next].
  rewrite insert_insert_eq.
  rewrite mat_zip_with_cond, mat_zip_with_zip_with_r.
  do 3 f_equal. f_equal. apply mat_zip_with_ext. intros x y.
  apply tongue_value_two_passes.
Qed.

Lemma tongue_value_finite (x y : Qc) :
  tongue_value (Some x) (Some y)
  = Some (if decide (Tongue.tongue_thr < x ∧ Tongue.tongue_thr < y)%Qc
          then Qc_of_Z 1 else Qc_of_Z 0).
Proof.
  unfold tongue_value. simpl.
  destruct (decide (Tongue.tongue_thr < x)%Qc) as [Hx|Hx];
    destruct (decide (Tongue.tongue_thr < y)%Qc) as [Hy|Hy].
  - rewrite !bool_decide_eq_true_2 by done. simpl.
    by rewrite decide_True.
  - rewrite (bool_decide_eq_false_2 (Tongue.tongue_thr < y)%Qc) by done.
    rewrite andb_false_r.
    rewrite (bool_decide_eq_true_2 (y ≤ Tongue.tongue_thr)%Qc)
      by by apply Qcnot_lt_le.
    rewrite orb_true_r. rewrite decide_False by tauto. done.
  - rewrite (bool_decide_eq_false_2 (Tongue.tongue_thr < x)%Qc) by done.
    rewrite (bool_decide_eq_true_2 (x ≤ Tongue.tongue_thr)%Qc)
      by by apply Qcnot_lt_le.
    simpl. rewrite decide_False by tauto. done.
  - rewrite (bool_decide_eq_false_2 (Tongue.tongue_thr < x)%Qc) by done.
    rewrite (bool_decide_eq_true_2 (x ≤ Tongue.tongue_thr)%Qc)
      by by apply Qcnot_lt_le.
    simpl. rewrite decide_False by tauto. done.
Qed.

Lemma tongue_value_idemp (x y : F.float64) :
  tongue_value x (tongue_value x y) = tongue_value x y.
Proof.
  unfold tongue_value.
  destruct (Tongue.gt_thr x) eqn:Hx; simpl.
  - destruct (Tongue.gt_thr y) eqn:Hy; simpl.
    + done.
    + destruct (Tongue.le_thr x || Tongue.le_thr y) eqn:Hle.
      * simpl. rewrite orb_true_r. done.
      * by rewrite Hy, Hle.
  - destruct (Tongue.le_thr x || Tongue.le_thr y) eqn:Hle.
    + rewrite orb_true_r. done.
    + by rewrite Hle.
Qed.

(** X3. The tongue indicator is written into the bottom-view likelihood
    array itself ([session_traces_t_l] is another name for it), the
    side-view array is left as it was, and although the second assignment
    reads the array the first one has changed, each position with finite
    likelihoods ends as 1 when both exceed 0.95 and as 0 otherwise. *)
Theorem tongue_indicator_in_place (h : GLM.heap) (s b : nat)
  (S B : list (list F.float64)) :
  GLM.objs h !! s = Some (GLM.Mat S) →
  GLM.objs h !! b = Some (GLM.Mat B) →
  s ≠ b →
  Tuning.same_shape S B →
  ∃ h', Tongue.binarise s b h = (h', Py.Ok b)
    ∧ GLM.read_mat h' s = S
    ∧ Tuning.same_shape B (GLM.read_mat h' b)
    ∧ ∀ i j row_s row_b x y,
        S !! i = Some row_s → row_s !! j = Some (Some x) →
        B !! i = Some row_b → row_b !! j = Some (Some y) →
        ∃ row_t, GLM.read_mat h' b !! i = Some row_t
          ∧ row_t !! j
            = Some (Some (if decide (Tongue.tongue_thr < x
                                     ∧ Tongue.tongue_thr < y)%Qc
                          then Qc_of_Z 1 else Qc_of_Z 0)).
Proof.
  intros Hs Hb Hsb Hshape.
  rewrite (binarise_spec h s b S B) by done.
  eexists. split; [reflexivity|].
  rewrite read_mat_insert_eq, read_mat_insert_ne by done.
  split_and!.
  - by apply read_mat_lookup.
  - clear Hs Hb. unfold Tuning.same_shape in *.
    induction Hshape as [|x y S B Hxy HSB IH]; simpl; constructor; [|done].
    rewrite length_zip_with. lia.
  - intros i j row_s row_b x y Hi Hx Hi' Hy.
    exists (zip_with tongue_value row_s row_b). split.
    + by rewrite lookup_zip_with, Hi, Hi'.
    + unfold F.float64 in *. rewrite lookup_zip_with, Hx, Hy. simpl.
      by rewrite tongue_value_finite.
Qed.

Lemma tongue_indicator_in_place_witness :
  ∃ h', Tongue.binarise 0 1
          (GLM.Heap 2 (<[1 := GLM.Mat [[F.of_Z 1; Some (Q2Qc (1 # 2))]]]>
                         (<[0 := GLM.Mat [[F.of_Z 1; F.of_Z 1]]]> ∅)))
        = (h', Py.Ok 1)
    ∧ GLM.read_mat h' 0 = [[F.of_Z 1; F.of_Z 1]].
Proof.
  destruct (tongue_indicator_in_place
              (GLM.Heap 2 (<[1 := GLM.Mat [[F.of_Z 1; Some (Q2Qc (1 # 2))]]]>
                             (<[0 := GLM.Mat [[F.of_Z 1; F.of_Z 1]]]> ∅)))
              0 1 [[F.of_Z 1; F.of_Z 1]] [[F.of_Z 1; Some (Q2Qc (1 # 2))]])
    as (h' & Hrun & Hside & _).
  - reflexivity.
  - reflexivity.
  - discriminate.
  - repeat constructor.
  - exists h'. split; [exact Hrun|exact Hside].
Defined.

(** X4. In [GLMFitNoLick.make], [GLMFitNoLickBody.make] and
    [MovementTiming.make] the mask of the whole session is computed from a
    copy of the bottom-view array taken after it has been overwritten with
    the indicator; the mask is a new array holding exactly the indicator
    again. *)
Theorem tongue_mask_is_indicator (h : GLM.heap) (s b : nat)
  (S B : list (list F.float64)) :
  GLM.objs h !! s = Some (GLM.Mat S) →
  GLM.objs h !! b = Some (GLM.Mat B) →
  s ≠ b → s < GLM.next h → b < GLM.next h →
  Tuning.same_shape S B →
  ∃ h' t_l t_l_f,
    Tongue.binarise_and_mask s b h = (h', Py.Ok (t_l, t_l_f))
    ∧ t_l = b ∧ t_l_f ≠ t_l
    ∧ GLM.read_mat h' t_l = zip_with (zip_with tongue_value) S B
    ∧ GLM.read_mat h' t_l_f = GLM.read_mat h' t_l.
Proof.
  intros Hs Hb Hsb Hsn Hbn Hshape.
  unfold Tongue.binarise_and_mask.
  unfold mbind at 1. unfold GLM.M_bind at 1.
  rewrite (binarise_spec h s b S B) by done.
  set (T := zip_with (zip_with tongue_value) S B).
  unfold Tongue.get, GLM.alloc.
  unfold mbind, GLM.M_bind, mret, GLM.M_ret. cbv beta iota.
  cbn [GLM.objs GLM.next].
  rewrite (read_mat_insert_ne _ s b) by done.
  rewrite (read_mat_lookup (GLM.Heap (GLM.next h) (GLM.objs h)) s S) by done.
  rewrite (read_mat_insert_ne _ b (GLM.next h)) by lia.
  rewrite read_mat_insert_eq.
  rewrite (binarise_spec _ (GLM.next h) (Datatypes.S (GLM.next h)) S T).
  - cbn [GLM.objs GLM.next]. eexists _, _, _. split; [reflexivity|].
    split; [done|]. split; [lia|].
    rewrite insert_insert_eq.
    rewrite read_mat_insert_eq.
    rewrite !read_mat_insert_ne by lia. rewrite read_mat_insert_eq.
    split; [done|].
    unfold T. rewrite mat_zip_with_zip_with_r.
    apply mat_zip_with_ext. intros x y. apply tongue_value_idemp.
  - cbn [GLM.objs]. rewrite lookup_insert_ne by lia.
    by rewrite lookup_insert_eq.
  - cbn [GLM.objs]. by rewrite lookup_insert_eq.
  - lia.
  - by apply same_shape_zip_with.
Qed.

Lemma tongue_mask_is_indicator_witness :
  ∃ h' t_l t_l_f,
    Tongue.binarise_and_mask 0 1
      (GLM.Heap 2 (<[1 := GLM.Mat [[F.of_Z 1; Some (Q2Qc (1 # 2))]]]>
                     (<[0 := GLM.Mat [[F.of_Z 1; F.of_Z 1]]]> ∅)))
    = (h', Py.Ok (t_l, t_l_f))
    ∧ GLM.read_mat h' t_l_f = GLM.read_mat h' t_l.
Proof.
  destruct (tongue_mask_is_indicator
              (GLM.Heap 2 (<[1 := GLM.Mat [[F.of_Z 1; Some (Q2Qc (1 # 2))]]]>
                             (<[0 := GLM.Mat [[F.of_Z 1; F.of_Z 1]]]> ∅)))
              0 1 [[F.of_Z 1; F.of_Z 1]] [[F.of_Z 1; Some (Q2Qc (1 # 2))]])
    as (h' & t_l & t_l_f & Hrun & _ & _ & _ & Hmask).
  - reflexivity.
  - reflexivity.
  - discriminate.
  - simpl. lia.
  - simpl. lia.
  - repeat constructor.
  - exists h', t_l, t_l_f. split; [exact Hrun|exact Hmask].
Defined.


(** ** Moving average and down-sampling *)

Lemma slice_from_length {A} (skip step : nat) (xs : list A) :
  0 < step →
  length (Np.slice_from skip step xs)
  = (length xs + step - 1 - skip) `div` step.
Proof.
  intros Hstep. revert skip.
  induction xs as [|x xs IH]; intros skip; simpl.
  - rewrite Nat.div_small; lia.
  - destruct skip as [|s].
    + simpl. rewrite IH.
      replace (length xs + step - 0 - 0) with (length xs + 1 * step)
        by lia.
      rewrite Nat.div_add by lia.
      destruct (decide (step - 1 ≤ length xs)) as [Hle|Hgt].
      * replace (length xs + step - 1 - (step - 1)) with (length xs) by lia.
        lia.
      * rewrite (Nat.div_small (length xs)) by lia.
        rewrite Nat.div_small; lia.
    + rewrite IH. f_equal. lia.
Qed.

Lemma Qc_sum_scale (c : Qc) (xs : list Qc) :
  Smooth.Qc_sum ((λ x, x * c)%Qc <$> xs) = (Smooth.Qc_sum xs * c)%Qc.
Proof.
  unfold Smooth.Qc_sum. induction xs as [|x xs IH].
  - simpl. by rewrite Qcmult_0_l.
  - rewrite fmap_cons. cbn [foldr]. rewrite IH.
    by rewrite Qcmult_plus_distr_l.
Qed.

Lemma lookup_total_seq_window {A} `{!Inhabited A} (xs : list A)
  (lo cnt : nat) :
  lo + cnt ≤ length xs →
  (λ m, xs !!! m) <$> seq lo cnt = take cnt (drop lo xs).
Proof.
  intros Hbound. apply list_eq. intros i.
  rewrite list_lookup_fmap.
  destruct (decide (i < cnt)) as [Hi|Hi].
  - rewrite lookup_seq_lt by done. simpl.
    rewrite lookup_take_lt, lookup_drop by done.
    symmetry. apply list_lookup_lookup_total_lt. lia.
  - rewrite lookup_seq_ge by lia. simpl.
    by rewrite lookup_take_ge by lia.
Qed.

(** One entry of the full convolution with a constant kernel: the sum of
    the window of the signal that ends at that entry, times the constant. *)
Lemma convolve_full_constant (a : list Qc) (w : nat) (c : Qc) (n : nat) :
  w - 1 ≤ n → n < length a + w - 1 →
  Smooth.convolve_full a (replicate w c) !! n
  = Some (Smooth.Qc_sum (take w (drop (n + 1 - w) a)) * c)%Qc.
Proof.
  intros Hlo Hn. unfold Smooth.convolve_full.
  rewrite length_replicate, list_lookup_fmap, lookup_seq_lt by done.
  simpl. f_equal.
  set (lo := n + 1 - w). set (hi := (n + 1) `min` length a).
  assert ((λ m : nat, a !!! m * replicate w c !!! (n - m)%nat)%Qc <$> seq lo (hi - lo)
          = (λ x, x * c)%Qc <$> ((λ m, a !!! m) <$> seq lo (hi - lo))) as ->.
  { rewrite <-list_fmap_compose. apply list_fmap_ext.
    intros i m [-> Hi]%lookup_seq. unfold compose.
    rewrite lookup_total_replicate_2 by (unfold lo, hi in *; lia). done. }
  rewrite Qc_sum_scale. f_equal.
  rewrite lookup_total_seq_window by (unfold lo, hi; lia).
  f_equal. apply list_eq. intros i.
  destruct (decide (i < hi - lo)) as [Hi|Hi].
  - rewrite !lookup_take_lt by (unfold lo, hi in *; lia). done.
  - rewrite lookup_take_ge by lia.
    destruct (decide (i < w)) as [Hiw|Hiw].
    + rewrite lookup_take_lt, lookup_drop by done. symmetry.
      apply lookup_ge_None. unfold lo, hi in *. lia.
    + by rewrite lookup_take_ge by lia.
Qed.

Lemma half_window (w : nat) : 0 < w → (w - 1) `div` 2 + 1 + w `div` 2 = w.
Proof.
  intros Hw.
  pose proof (Nat.div_mod_eq w 2). pose proof (Nat.div_mod_eq (w - 1) 2).
  pose proof (Nat.mod_upper_bound w 2). pose proof (Nat.mod_upper_bound (w - 1) 2).
  lia.
Qed.

(** The moving average: entry [k] is the mean of the window of [w]
    samples around it, [w/2] before and [(w-1)/2] after (fewer terms where
    the window passes the end of the trace, as if the trace went on with
    zeros). *)
Lemma convolve_same_kernel (x : list Qc) (w : nat) :
  0 < w → w ≤ length x →
  ∃ y, Smooth.convolve_same x (Smooth.kernel w) = Py.Ok y
    ∧ length y = length x
    ∧ ∀ k, w `div` 2 ≤ k → k < length x →
        y !! k = Some (Smooth.Qc_sum (take w (drop (k - w `div` 2) x))
                       * (1 / Qc_of_Z (Z.of_nat w)))%Qc.
Proof.
  intros Hw Hlen. unfold Smooth.convolve_same, Smooth.kernel.
  rewrite decide_False.
  2:{ intros [->|Hk]; [simpl in Hlen; lia|].
      apply (f_equal length) in Hk. rewrite length_replicate in Hk.
      simpl in Hk. lia. }
  rewrite length_replicate. rewrite decide_False by lia.
  eexists. split; [reflexivity|].
  pose proof (half_window w Hw) as Hhalf.
  assert (length (Smooth.convolve_full x
            (replicate w (1 / Qc_of_Z (Z.of_nat w))%Qc))
          = length x + w - 1) as Hfull.
  { unfold Smooth.convolve_full.
    by rewrite length_fmap, length_seq, length_replicate. }
  split.
  - rewrite length_take, length_drop, Hfull, length_replicate. lia.
  - intros k Hk Hkx.
    rewrite length_replicate.
    rewrite lookup_take_lt, lookup_drop by done.
    rewrite convolve_full_constant by lia.
    replace ((w - 1) `div` 2 + k + 1 - w) with (k - w `div` 2) by lia.
    done.
Qed.

Lemma smooth_spec (x : list Qc) (w : nat) :
  0 < w → w ≤ length x →
  ∃ out, Smooth.smooth w x = Py.Ok out
    ∧ length out = (length x - 1) `div` w
    ∧ ∀ j, j < length out →
        (j + 1) * w < length x
        ∧ out !! j
          = Some (Smooth.Qc_sum (take w (drop ((j + 1) * w - w `div` 2) x))
                  * (1 / Qc_of_Z (Z.of_nat w)))%Qc.
Proof.
  intros Hw Hlen.
  destruct (convolve_same_kernel x w Hw Hlen) as (y & Hy & Hylen & Hyk).
  unfold Smooth.smooth. rewrite Hy. eexists. split; [reflexivity|].
  assert (length (Np.slice_from w w y) = (length x - 1) `div` w) as Hout.
  { rewrite slice_from_length by done. rewrite Hylen. f_equal. lia. }
  split; [done|]. intros j Hj. rewrite Hout in Hj.
  assert ((j + 1) * w < length x) as Hjw.
  { pose proof (Nat.Div0.mul_div_le (length x - 1) w) as Hdiv.
    assert ((j + 1) * w ≤ w * ((length x - 1) `div` w)); [|lia].
    rewrite (Nat.mul_comm w). apply Nat.mul_le_mono_r. lia. }
  split; [done|].
  rewrite slice_from_lookup by done.
  replace (w + j * w) with ((j + 1) * w) by lia.
  apply Hyk; [|done].
  pose proof (Nat.Div0.div_le_upper_bound w 2 w) as Hh.
  assert (w `div` 2 ≤ w) by (apply Nat.Div0.div_le_upper_bound; lia).
  nia.
Qed.

(** X5. The moving average and down-sampling of a trace of at least
    [window_size] frames keeps one sample per [window_size] frames,
    starting at frame [window_size]: sample [j] is the mean of the
    [window_size] frames around frame [(j+1)*window_size] (fewer frames
    count, over the same divisor, where the window passes the end of the
    trace); it raises on an empty trace and on a window of size 0.  With
    [bin_width = 0.017] the window is 5 frames. *)
Theorem smooth_is_windowed_mean (x : list Qc) (w : nat) :
  Smooth.window_size (Q2Qc (17 # 1000)) = 5
  ∧ Smooth.smooth w [] = Py.Raise Py.ValueError
  ∧ Smooth.smooth 0 x = Py.Raise Py.ValueError
  ∧ (0 < w → w ≤ length x →
     ∃ out, Smooth.smooth w x = Py.Ok out
       ∧ length out = (length x - 1) `div` w
       ∧ ∀ j, j < length out →
           out !! j
           = Some (Smooth.Qc_sum
                     (take w (drop ((j + 1) * w - w `div` 2) x))
                   / Qc_of_Z (Z.of_nat w))%Qc).
Proof.
  split; [by vm_compute|]. split; [done|]. split.
  { unfold Smooth.smooth, Smooth.convolve_same, Smooth.kernel. simpl.
    by rewrite decide_True by by right. }
  intros Hw Hlen.
  destruct (smooth_spec x w Hw Hlen) as (out & Hrun & Hout & Hval).
  exists out. split; [done|]. split; [done|].
  intros j Hj. destruct (Hval j Hj) as [_ ->]. f_equal.
  unfold Qcdiv. by rewrite Qcmult_1_l.
Qed.

Lemma Qc_sum_singleton (v : Qc) : Smooth.Qc_sum [v] = v.
Proof. unfold Smooth.Qc_sum. simpl. apply Qcplus_0_r. Qed.

(** X6. In [MovementTiming.make] the bin width is the frame period, so the
    window is one frame wide: the moving average changes nothing and the
    down-sampling [x[1::1]] only drops the first frame, so that sample [i]
    of every processed trace is frame [i+1] of the video. *)
Theorem MovementTiming_smooth_drops_first_frame (x : list Qc) :
  Smooth.window_size Bout.bin_width = 1
  ∧ (x ≠ [] → Smooth.smooth 1 x = Py.Ok (drop 1 x)).
Proof.
  split; [by vm_compute|]. intros Hx.
  assert (1 ≤ length x) as Hlen by (destruct x; [done|simpl; lia]).
  destruct (smooth_spec x 1) as (out & Hrun & Hout & Hval); [lia|done|].
  rewrite Hrun. f_equal. apply list_eq. intros j.
  rewrite Nat.div_1_r in Hout.
  destruct (decide (j < length out)) as [Hj|Hj].
  - destruct (Hval j Hj) as [Hjx ->].
    rewrite lookup_drop.
    replace ((j + 1) * 1 - 1 `div` 2) with (1 + j) by (simpl; lia).
    destruct (lookup_lt_is_Some_2 x (1 + j)) as [v Hv]; [lia|].
    rewrite Hv. f_equal.
    rewrite (take_S_r _ 0 v) by (by rewrite lookup_drop, Nat.add_0_r).
    rewrite take_0, app_nil_l, Qc_sum_singleton.
    assert ((1 / Qc_of_Z (Z.of_nat 1))%Qc = 1%Qc) as ->
      by by apply Qc_is_canon.
    apply Qcmult_1_r.
  - rewrite lookup_ge_None_2 by lia.
    symmetry. apply lookup_ge_None_2. rewrite length_drop. lia.
Qed.

(** A sum of zeros and ones is at most their number, and reaches it only
    when all of them are ones. *)
Lemma Qc_sum_indicator (l : list Qc) :
  Forall (λ v, v = 0%Qc ∨ v = 1%Qc) l →
  (Smooth.Qc_sum l ≤ Qc_of_Z (Z.of_nat (length l)))%Qc
  ∧ (Smooth.Qc_sum l = Qc_of_Z (Z.of_nat (length l)) →
     l = replicate (length l) 1%Qc).
Proof.
  unfold Smooth.Qc_sum.
  induction 1 as [|v l Hv Hl [IH1 IH2]]; simpl length.
  { split; [|done]. cbn [foldr]. change (Z.of_nat 0) with 0%Z.
    rewrite Z2Qc_inj_0. reflexivity. }
  cbn [foldr].
  assert (Qc_of_Z (Z.of_nat (S (length l)))
          = (1 + Qc_of_Z (Z.of_nat (length l)))%Qc) as ->.
  { rewrite Nat2Z.inj_succ, <-Z.add_1_l, Z2Qc_inj_add.
    by rewrite Z2Qc_inj_1. }
  destruct Hv as [->| ->].
  - rewrite Qcplus_0_l. split.
    + eapply Qcle_trans; [exact IH1|].
      rewrite <-(Qcplus_0_l (Qc_of_Z _)) at 1.
      by apply Qcplus_le_mono_r.
    + intros Heq. exfalso. rewrite Heq in IH1.
      apply (Qcle_not_lt _ _ IH1).
      rewrite <-(Qcplus_0_l (Qc_of_Z _)) at 1.
      by apply Qcplus_lt_mono_r.
  - split.
    + by apply Qcplus_le_mono_l.
    + intros Heq. simpl. f_equal. apply IH2.
      apply (Qcplus_le_mono_l _ _ 1) in IH1.
      apply Qcle_antisym; [by apply Qcplus_le_mono_l in IH1|].
      rewrite <-Heq in IH1.
      apply (Qcplus_le_mono_l _ _ 1). rewrite Heq. reflexivity.
Qed.

Lemma Qc_sum_replicate_1 (n : nat) :
  Smooth.Qc_sum (replicate n 1%Qc) = Qc_of_Z (Z.of_nat n).
Proof.
  unfold Smooth.Qc_sum. induction n as [|n IH]; simpl replicate.
  - cbn [foldr]. change (Z.of_nat 0) with 0%Z. by rewrite Z2Qc_inj_0.
  - cbn [foldr]. rewrite IH.
    rewrite Nat2Z.inj_succ, <-Z.add_1_l, Z2Qc_inj_add.
    by rewrite Z2Qc_inj_1.
Qed.

(** The mean of at most [w] zeros and ones over the divisor [w] is 1 when
    there are [w] ones, and below 1 otherwise. *)
Lemma mean_indicator (l : list Qc) (w : nat) :
  0 < w → length l ≤ w →
  Forall (λ v, v = 0%Qc ∨ v = 1%Qc) l →
  (if decide (Smooth.Qc_sum l * (1 / Qc_of_Z (Z.of_nat w)) < 1)%Qc
   then 0%Qc else (Smooth.Qc_sum l * (1 / Qc_of_Z (Z.of_nat w)))%Qc)
  = if decide (l = replicate w 1%Qc) then 1%Qc else 0%Qc.
Proof.
  intros Hw Hlen H01.
  assert (0 < Qc_of_Z (Z.of_nat w))%Qc as HW.
  { rewrite <-Z2Qc_inj_0. apply (proj1 (Z2Qc_inj_lt _ _)). lia. }
  assert (Qc_of_Z (Z.of_nat w) ≠ 0%Qc) as HW0.
  { intros Heq. rewrite Heq in HW. by apply (Qclt_not_eq _ _ HW). }
  assert (0 < 1 / Qc_of_Z (Z.of_nat w))%Qc as Hc.
  { unfold Qcdiv. rewrite Qcmult_1_l. by apply Qcinv_pos. }
  assert (Qc_of_Z (Z.of_nat w) * (1 / Qc_of_Z (Z.of_nat w)) = 1)%Qc as Hone
    by by apply Qcmult_div_r.
  destruct (decide (l = replicate w 1%Qc)) as [->|Hne].
  - rewrite Qc_sum_replicate_1, Hone.
    rewrite decide_False; [done|]. apply Qcle_not_lt. reflexivity.
  - rewrite decide_True; [done|].
    assert (Smooth.Qc_sum l < Qc_of_Z (Z.of_nat w))%Qc as Hsum.
    { destruct (Qc_sum_indicator l H01) as [Hle Heq].
      destruct (decide (length l = w)) as [<-|Hlt].
      - destruct (Qcle_lt_or_eq _ _ Hle) as [Hlt|Heq']; [done|].
        by apply Heq in Heq'.
      - eapply Qcle_lt_trans; [exact Hle|].
        apply (proj1 (Z2Qc_inj_lt _ _)). lia. }
    apply (Qcmult_lt_compat_r _ _ _ Hc) in Hsum.
    by rewrite Hone in Hsum.
Qed.

(** X7. After smoothing, the tongue indicator is set to 0 wherever it is
    below 1: sample [j] of the result is 1 exactly when the tongue was
    detected in every one of the [window_size] frames around frame
    [(j+1)*window_size], all of them within the trace, and 0 as soon as it
    was missed in one of them. *)
Theorem smooth_indicator_needs_whole_window (x : list Qc) (w : nat) :
  Forall (λ v, v = 0%Qc ∨ v = 1%Qc) x →
  0 < w → w ≤ length x →
  ∃ out, Smooth.smooth_indicator w x = Py.Ok out
    ∧ length out = (length x - 1) `div` w
    ∧ ∀ j, j < length out →
        out !! j
        = Some (if decide (take w (drop ((j + 1) * w - w `div` 2) x)
                           = replicate w 1%Qc)
                then 1%Qc else 0%Qc).
Proof.
  intros H01 Hw Hlen.
  destruct (smooth_spec x w Hw Hlen) as (y & Hrun & Hylen & Hval).
  unfold Smooth.smooth_indicator. rewrite Hrun.
  eexists. split; [reflexivity|].
  split; [by rewrite length_fmap|].
  intros j Hj. rewrite length_fmap in Hj.
  destruct (Hval j Hj) as [_ Hyj].
  rewrite list_lookup_fmap, Hyj. simpl. f_equal.
  apply mean_indicator; [done| |].
  - rewrite length_take. lia.
  - apply Forall_take, Forall_drop, H01.
Qed.

Lemma smooth_indicator_needs_whole_window_witness :
  ∃ out, Smooth.smooth_indicator 2 [1; 1; 1; 0; 1]%Qc = Py.Ok out
    ∧ length out = 2.
Proof.
  destruct (smooth_indicator_needs_whole_window [1; 1; 1; 0; 1]%Qc 2)
    as (out & Hrun & Hlen & _).
  - repeat (apply Forall_cons_2; [by (left + right)|]). apply Forall_nil_2.
  - lia.
  - simpl. lia.
  - exists out. split; [exact Hrun|exact Hlen].
Defined.


(** ** The periods away from licking *)

Lemma getitem_nat_Ok {A} (row : list A) (i : nat) (x : A) :
  row !! i = Some x → Tuning.getitem row (Z.of_nat i) = Py.Ok x.
Proof.
  intros Hi. unfold Tuning.getitem.
  pose proof (lookup_lt_Some _ _ _ Hi).
  cbv zeta. destruct (decide (Z.of_nat i < 0)%Z); [lia|].
  destruct (decide _) as [?|?]; [|lia].
  by rewrite Nat2Z.id, Hi.
Qed.

Lemma getitem_nat_Raise {A} (row : list A) (i : nat) :
  length row ≤ i → Tuning.getitem row (Z.of_nat i) = Py.Raise Py.IndexError.
Proof.
  intros Hi. unfold Tuning.getitem.
  cbv zeta. destruct (decide (Z.of_nat i < 0)%Z); [lia|].
  destruct (decide _) as [?|?]; [lia|done].
Qed.

Lemma getitem_last_Ok {A} (row : list A) (x : A) :
  Tuning.getitem (row ++ [x]) (-1) = Py.Ok x.
Proof.
  unfold Tuning.getitem. rewrite length_app. simpl length.
  cbv zeta. destruct (decide (-1 < 0)%Z); [|lia].
  destruct (decide _) as [?|?]; [|lia].
  replace (Z.to_nat (-1 + Z.of_nat (length row + 1))) with (length row)
    by lia.
  by rewrite list_lookup_middle.
Qed.

(** The loop over the later bouts: what it appends, and when it raises. *)
Lemma between_bouts_spec (idx : list nat) (on off : list Qc) (i : nat)
  (rest : list Qc) :
  i + length rest + 1 ≤ length on →
  (i + length rest ≤ length off →
   ∃ between,
     NoLick.between_bouts idx on off i rest = Py.Ok between
     ∧ length between = length rest
     ∧ ∀ j onset offset,
         j < length rest →
         on !! (i + j + 1) = Some onset → off !! (i + j) = Some offset →
         between !! j
         = Some (NoLick.select
                   (λ t, t < onset - NoLick.margin
                         ∧ offset + NoLick.margin < t)%Qc idx))
  ∧ (rest ≠ [] → length off < i + length rest →
     NoLick.between_bouts idx on off i rest = Py.Raise Py.IndexError).
Proof.
  revert i. induction rest as [|r rest IH]; intros i Hon.
  { split.
    - intros _. exists []. split; [done|]. split; [done|].
      intros j ? ? Hj. simpl in Hj. lia.
    - done. }
  simpl length in *. cbn [NoLick.between_bouts].
  destruct (lookup_lt_is_Some_2 on (i + 1)) as [onset Honset]; [lia|].
  replace (Z.of_nat i + 1)%Z with (Z.of_nat (i + 1)) by lia.
  rewrite (getitem_nat_Ok on (i + 1) onset Honset).
  change (mbind ?f (Py.Ok ?v)) with (f v). cbv beta.
  destruct (IH (S i)) as [IHok IHraise]; [lia|].
  destruct (decide (i < length off)) as [Hoff|Hoff].
  - destruct (lookup_lt_is_Some_2 off i Hoff) as [offset Hoffset].
    rewrite (getitem_nat_Ok off i offset Hoffset).
    change (mbind ?f (Py.Ok ?v)) with (f v). cbv beta. split.
    + intros Hlen. destruct IHok as (between & -> & Hblen & Hb); [lia|].
      eexists. split; [reflexivity|]. split; [simpl; by rewrite Hblen|].
      intros [|j] onset' offset' Hj Hon' Hoff'.
      * rewrite Nat.add_0_r in Hon', Hoff'. simpl. by simplify_eq.
      * simpl. apply Hb; [lia| |].
        -- by replace (S i + j + 1) with (i + S j + 1) by lia.
        -- by replace (S i + j) with (i + S j) by lia.
    + intros _ Hlen. rewrite IHraise; [done| |lia].
      intros ->. simpl in Hlen. lia.
  - rewrite (getitem_nat_Raise off i) by lia. split; [lia|done].
Qed.

(** X8. The selection of the periods away from licking needs at least two
    lick bouts: it reads the onset of the second bout first, and one offset
    for each bout but the last; with fewer onsets or offsets it raises
    [IndexError], and otherwise it returns. *)
Theorem good_period_idx_needs_two_bouts (n : nat) (on off : list Qc) :
  (2 ≤ length on ∧ length on - 1 ≤ length off →
   ∃ idx, NoLick.good_period_idx n on off = Py.Ok idx)
  ∧ (length on < 2 ∨ length off < length on - 1 →
     NoLick.good_period_idx n on off = Py.Raise Py.IndexError).
Proof.
  unfold NoLick.good_period_idx.
  destruct (decide (2 ≤ length on)) as [Hon|Hon].
  2:{ split; [lia|]. intros _.
      change 1%Z with (Z.of_nat 1). by rewrite getitem_nat_Raise by lia. }
  destruct (lookup_lt_is_Some_2 on 1) as [onset1 Honset1]; [lia|].
  change 1%Z with (Z.of_nat 1). rewrite (getitem_nat_Ok on 1 onset1 Honset1).
  change (mbind ?f (Py.Ok ?v)) with (f v). cbv beta.
  destruct (between_bouts_spec (seq 0 n) on off 0 (drop 1 on))
    as [Hok Hraise].
  { rewrite length_drop. lia. }
  rewrite length_drop in Hok, Hraise. split.
  - intros [_ Hoff]. destruct Hok as (between & -> & _); [lia|].
    change (mbind ?f (Py.Ok ?v)) with (f v). cbv beta.
    destruct (decide (off = [])) as [->|Hne]; [simpl in Hoff; lia|].
    destruct (exists_last Hne) as (off' & last & ->).
    rewrite getitem_last_Ok. eexists. reflexivity.
  - intros [Hlt|Hlt]; [lia|]. rewrite Hraise; [done| |lia].
    intros Hnil. apply (f_equal length) in Hnil.
    rewrite length_drop in Hnil. simpl in Hnil. lia.
Qed.

Lemma good_period_idx_Ok (n : nat) (on off : list Qc) (idx : list nat) :
  NoLick.good_period_idx n on off = Py.Ok idx →
  ∃ onset1 between last_offset,
    on !! 1 = Some onset1
    ∧ NoLick.between_bouts (seq 0 n) on off 0 (drop 1 on) = Py.Ok between
    ∧ idx = NoLick.select (λ t, t < onset1 - NoLick.margin)%Qc (seq 0 n)
            ++ concat between
            ++ NoLick.select (λ t, last_offset + NoLick.margin < t)%Qc
                 (seq 0 n).
Proof.
  unfold NoLick.good_period_idx. intros Hrun.
  destruct (on !! 1) as [onset1|] eqn:Hon1.
  2:{ apply lookup_ge_None in Hon1.
      change 1%Z with (Z.of_nat 1) in Hrun.
      by rewrite getitem_nat_Raise in Hrun by done. }
  change 1%Z with (Z.of_nat 1) in Hrun.
  rewrite (getitem_nat_Ok on 1 onset1 Hon1) in Hrun.
  change (mbind ?f (Py.Ok ?v)) with (f v) in Hrun. cbv beta in Hrun.
  destruct (NoLick.between_bouts (seq 0 n) on off 0 (drop 1 on))
    as [between|] eqn:Hb; [|done].
  change (mbind ?f (Py.Ok ?v)) with (f v) in Hrun. cbv beta in Hrun.
  destruct (Tuning.getitem off (-1)) as [last_offset|] eqn:Hlast; [|done].
  change (mbind ?f (Py.Ok ?v)) with (f v) in Hrun. cbv beta in Hrun.
  injection Hrun as <-.
  exists onset1, between, last_offset. split; [done|]. split; [done|].
  rewrite concat_app. simpl. by rewrite !app_nil_r.
Qed.

Lemma elem_of_select (P : Qc → Prop) `{!∀ t, Decision (P t)} (n k : nat) :
  k ∈ NoLick.select P (seq 0 n) ↔ k < n ∧ P (NoLick.time_of k).
Proof.
  unfold NoLick.select. rewrite list_elem_of_filter, elem_of_seq.
  split; [intros [? ?]|intros [? ?]]; split; (done || lia).
Qed.

(** X9. The bins selected as away from licking include every bin earlier
    than 0.2 s before the onset of the second lick bout, whatever the onset
    and offset of the first bout are: the first lick bout is not
    excluded. *)
Theorem good_period_idx_keeps_first_bout (n : nat) (on off : list Qc)
  (idx : list nat) (onset1 : Qc) :
  NoLick.good_period_idx n on off = Py.Ok idx →
  on !! 1 = Some onset1 →
  ∀ k, k < n → (NoLick.time_of k < onset1 - NoLick.margin)%Qc → k ∈ idx.
Proof.
  intros Hrun Hon1 k Hk Ht.
  apply good_period_idx_Ok in Hrun
    as (onset1' & between & last_offset & Hon1' & _ & ->).
  assert (onset1' = onset1) as -> by congruence.
  apply elem_of_app. left. by apply elem_of_select.
Qed.

Lemma good_period_idx_keeps_first_bout_witness :
  ∃ idx,
    NoLick.good_period_idx 100 [Q2Qc (1 # 10); Qc_of_Z 1]
      [Q2Qc (3 # 10); Q2Qc (12 # 10)] = Py.Ok idx
    ∧ 10 ∈ idx.
Proof.
  destruct (NoLick.good_period_idx 100 [Q2Qc (1 # 10); Qc_of_Z 1]
              [Q2Qc (3 # 10); Q2Qc (12 # 10)]) as [idx|e] eqn:Hrun.
  - exists idx. split; [reflexivity|].
    apply (good_period_idx_keeps_first_bout 100 [Q2Qc (1 # 10); Qc_of_Z 1]
             [Q2Qc (3 # 10); Q2Qc (12 # 10)] idx (Qc_of_Z 1) Hrun).
    + reflexivity.
    + lia.
    + reflexivity.
  - exfalso. vm_compute in Hrun. discriminate Hrun.
Defined.

(** X10. A bin that lies more than 0.2 s after the offset of the first
    lick bout and more than 0.2 s before the onset of the second is
    selected twice: once with everything before the second bout and once
    more as a bin between the first two bouts. *)
Theorem good_period_idx_repeats_first_gap (n : nat) (on off : list Qc)
  (idx : list nat) (offset0 onset1 : Qc) :
  NoLick.good_period_idx n on off = Py.Ok idx →
  off !! 0 = Some offset0 → on !! 1 = Some onset1 →
  ∀ k, k < n →
    (offset0 + NoLick.margin < NoLick.time_of k)%Qc →
    (NoLick.time_of k < onset1 - NoLick.margin)%Qc →
    ∃ i j, i < j ∧ idx !! i = Some k ∧ idx !! j = Some k.
Proof.
  intros Hrun Hoff0 Hon1 k Hk Hafter Hbefore.
  apply good_period_idx_Ok in Hrun
    as (onset1' & between & last_offset & Hon1' & Hb & ->).
  assert (onset1' = onset1) as -> by congruence.
  assert (2 ≤ length on) as Hlen.
  { apply lookup_lt_Some in Hon1. lia. }
  destruct (between_bouts_spec (seq 0 n) on off 0 (drop 1 on))
    as [Hok Hraise].
  { rewrite length_drop. lia. }
  rewrite length_drop in Hok, Hraise.
  destruct (decide (length on - 1 ≤ length off)) as [Hoff|Hoff].
  2:{ rewrite Hraise in Hb; [done| |lia].
      intros Hnil. apply (f_equal length) in Hnil.
      rewrite length_drop in Hnil. simpl in Hnil. lia. }
  destruct Hok as (between' & Hb' & Hblen & Hbetween); [lia|].
  assert (between' = between) as -> by congruence.
  specialize (Hbetween 0 onset1 offset0).
  destruct between as [|b0 between]; [simpl in Hblen; lia|].
  simpl in Hbetween. injection Hbetween as ->; [|lia|done|done].
  set (first := NoLick.select (λ t, t < onset1 - NoLick.margin)%Qc (seq 0 n)).
  assert (k ∈ first) as [i Hi]%list_elem_of_lookup
    by by apply elem_of_select.
  assert (k ∈ NoLick.select
                (λ t, t < onset1 - NoLick.margin
                      ∧ offset0 + NoLick.margin < t)%Qc (seq 0 n))
    as [j Hj]%list_elem_of_lookup by by apply elem_of_select.
  exists i, (length first + j).
  pose proof (lookup_lt_Some _ _ _ Hi).
  split; [lia|]. split.
  - by rewrite lookup_app_l.
  - rewrite lookup_app_r by lia.
    replace (length first + j - length first) with j by lia.
    simpl. rewrite <-app_assoc. rewrite lookup_app_l; [done|].
    by eapply lookup_lt_Some.
Qed.

Lemma good_period_idx_repeats_first_gap_witness :
  ∃ idx i j,
    NoLick.good_period_idx 100 [Q2Qc (1 # 10); Qc_of_Z 1]
      [Q2Qc (3 # 10); Q2Qc (12 # 10)] = Py.Ok idx
    ∧ i < j ∧ idx !! i = Some 30 ∧ idx !! j = Some 30.
Proof.
  destruct (NoLick.good_period_idx 100 [Q2Qc (1 # 10); Qc_of_Z 1]
              [Q2Qc (3 # 10); Q2Qc (12 # 10)]) as [idx|e] eqn:Hrun.
  - destruct (good_period_idx_repeats_first_gap 100
                [Q2Qc (1 # 10); Qc_of_Z 1] [Q2Qc (3 # 10); Q2Qc (12 # 10)]
                idx (Q2Qc (3 # 10)) (Qc_of_Z 1) Hrun) with (k := 30)
      as (i & j & Hij & Hi & Hj).
    + reflexivity.
    + reflexivity.
    + lia.
    + reflexivity.
    + reflexivity.
    + exists idx, i, j. split; [reflexivity|]. split; [exact Hij|].
      split; [exact Hi|exact Hj].
  - exfalso. vm_compute in Hrun. discriminate Hrun.
Defined.


(** ** Tongue contacts with the lick port *)

Lemma argwhere_elem (cond : list bool) (e : nat) :
  e ∈ Np.argwhere cond ↔ cond !! e = Some true.
Proof.
  unfold Np.argwhere. rewrite argwhere_from_elem, Nat.sub_0_r.
  split; [by intros [_ ?]|]. intros ?. split; [lia|done].
Qed.





Lemma argwhere_from_all_false (i : nat) (cond : list bool) :
  Forall (λ b, b = false) cond → Np.argwhere_from i cond = [].
Proof.
  intros Hall. revert i. induction Hall as [|b cond -> _ IH]; intros i;
    [done|]. simpl. apply IH.
Qed.

Lemma argwhere_from_all_true (i n : nat) :
  Np.argwhere_from i (replicate n true) = seq i n.
Proof.
  revert i. induction n as [|n IH]; intros i; [done|].
  simpl. by rewrite IH.
Qed.

Lemma idx_diff_seq (a n : nat) :
  Forall (λ d, d = 1%Z) (idx_diff (seq a n)).
Proof.
  revert a. induction n as [|n IH]; intros a; [constructor|].
  destruct n as [|n]; [constructor|].
  change (seq a (S (S n))) with (a :: S a :: seq (S (S a)) n).
  rewrite idx_diff_cons2. constructor; [lia|]. apply (IH (S a)).
Qed.

(** X11. A trial in which the tongue is detected during one single
    stretch of frames, or never, yields no contact, whatever the tongue
    and lick-port positions are: contacts are only looked for when the
    detected frames fall into at least two stretches. *)
Theorem contacts_single_lick_none
  (likelihood ton_x ton_y ton_z lic_x lic_y lic_z : list F.float64)
  (before during after : nat) :
  ContactLick.is_one <$> likelihood
    = replicate before false ++ replicate during true
      ++ replicate after false →
  ContactLick.contacts likelihood ton_x ton_y ton_z lic_x lic_y lic_z
  = Py.Ok [].
Proof.
  intros Hmask. unfold ContactLick.contacts. rewrite Hmask.
  assert (Np.argwhere (replicate before false ++ replicate during true
                       ++ replicate after false) = seq before during)
    as ->.
  { unfold Np.argwhere. rewrite !argwhere_from_app.
    rewrite (argwhere_from_all_false 0) by by apply Forall_replicate.
    rewrite argwhere_from_all_true.
    rewrite argwhere_from_all_false by by apply Forall_replicate.
    rewrite length_replicate. by rewrite app_nil_r. }
  change (Np.diff Z.sub (Z.of_nat <$> seq before during))
    with (idx_diff (seq before during)).
  unfold Np.argwhere. rewrite argwhere_from_all_false.
  - done.
  - apply Forall_fmap. eapply Forall_impl; [apply idx_diff_seq|].
    intros d ->. done.
Qed.

Lemma contacts_single_lick_none_witness :
  ContactLick.contacts [F.of_Z 0; Some 1%Qc; Some 1%Qc; F.of_Z 0]
    [] [] [] [] [] [] = Py.Ok [].
Proof.
  apply (contacts_single_lick_none _ [] [] [] [] [] [] 1 2 1).
  vm_compute. reflexivity.
Defined.









(** The squared distances to the lick port over the frames [s..e-1]. *)
Definition reach_d2 (ton_x ton_y ton_z : list F.float64)
  (mx my mz : F.float64) (s e : nat) : list F.float64 :=
  zip_with F.add
    (zip_with F.add (ContactLick.sq_dev (ContactLick.slice s e ton_x) mx)
                    (ContactLick.sq_dev (ContactLick.slice s e ton_y) my))
    (ContactLick.sq_dev (ContactLick.slice s e ton_z) mz).

(** The test a stretch from frame [s] to frame [e] must pass to count as
    a contact. *)
Definition qualifies (ton_x ton_y ton_z : list F.float64)
  (mx my mz : F.float64) (pp : nat * nat) : Prop :=
  (10 < Z.of_nat pp.2 - Z.of_nat pp.1)%Z
  ∧ (Z.of_nat pp.2 - Z.of_nat pp.1 < 35)%Z
  ∧ 0 < length (ContactLick.within
                  (reach_d2 ton_x ton_y ton_z mx my mz pp.1 pp.2)).

#[global] Instance qualifies_dec ton_x ton_y ton_z mx my mz pp :
  Decision (qualifies ton_x ton_y ton_z mx my mz pp).
Proof. unfold qualifies. apply _. Defined.











(** ** Threshold crossings and inspiration onsets *)

Lemma roll_neg1 {A} (x : list A) :
  x ≠ [] → Np.roll x (-1) = drop 1 x ++ take 1 x.
Proof.
  intros Hx. unfold Np.roll.
  assert (0 < length x) as Hn by (destruct x; [done|simpl; lia]).
  assert (Z.to_nat ((-1) `mod` Z.of_nat (length x)) = length x - 1) as ->.
  { rewrite <-(Z.mod_unique_pos (-1) (Z.of_nat (length x)) (-1)
                 (Z.of_nat (length x) - 1)); lia. }
  by replace (length x - (length x - 1)) with 1 by lia.
Qed.

Lemma roll_neg1_lookup {A} (x : list A) (i : nat) :
  i < length x → Np.roll x (-1) !! i = x !! (S i `mod` length x).
Proof.
  intros Hi. rewrite roll_neg1 by (intros ->; simpl in Hi; lia).
  destruct (decide (S i < length x)) as [Hlt|Hge].
  - rewrite lookup_app_l by (rewrite length_drop; lia).
    rewrite lookup_drop. by rewrite Nat.mod_small.
  - assert (S i = length x) as Heq by lia.
    rewrite lookup_app_r by (rewrite length_drop; lia).
    rewrite length_drop, Heq, Nat.Div0.mod_same.
    replace (i - (length x - 1)) with 0 by lia.
    by destruct x.
Qed.

(** X15. An onset is reported at every sample that lies below the
    threshold while the next sample reaches it, the sample after the last
    one being the first one: the trace is read as a cycle, so that a trace
    that ends below the threshold and begins at or above it yields an
    onset at its last sample. *)
Theorem onset_times_wrap_around (threshold : Qc) (x : list Qc) (t : Qc) :
  t ∈ Bout.onset_times threshold x
  ↔ ∃ i v w, x !! i = Some v ∧ x !! (S i `mod` length x) = Some w
      ∧ (v < threshold)%Qc ∧ (threshold ≤ w)%Qc
      ∧ t = (Qc_of_Z (Z.of_nat i) * Bout.bin_width)%Qc.
Proof.
  unfold Bout.onset_times. rewrite list_elem_of_fmap.
  split.
  - intros (i & -> & Hi%argwhere_elem).
    unfold Bout.rising in Hi.
    apply lookup_zip_with_Some in Hi as (v & w & Hvw & Hv & Hw).
    rewrite roll_neg1_lookup in Hw by by eapply lookup_lt_Some.
    symmetry in Hvw. apply andb_true_iff in Hvw as [Hlt Hle].
    apply bool_decide_eq_true in Hlt, Hle.
    by exists i, v, w.
  - intros (i & v & w & Hv & Hw & Hlt & Hle & ->).
    exists i. split; [done|]. apply argwhere_elem.
    unfold Bout.rising. apply lookup_zip_with_Some.
    exists v, w. split_and!; [|done|].
    + by rewrite !bool_decide_eq_true_2.
    + rewrite roll_neg1_lookup by by eapply lookup_lt_Some. done.
Qed.

Lemma with_crossing_spec (amp onsets : list Qc) (t : Qc) :
  t ∈ Breath.with_crossing amp onsets
  ↔ ∃ i next, onsets !! i = Some t ∧ onsets !! S i = Some next
      ∧ Exists (λ a, t < a ∧ a < next)%Qc amp.
Proof.
  induction onsets as [|v onsets IH].
  { split; [by intros ?%elem_of_nil|]. by intros (? & ? & ? & _). }
  cbn [Breath.with_crossing]. destruct onsets as [|next onsets].
  { split; [by intros ?%elem_of_nil|].
    intros (i & n & _ & Hn & _). by destruct i. }
  destruct (decide (Exists (λ a, v < a ∧ a < next)%Qc amp)) as [Hex|Hex].
  - rewrite elem_of_cons, IH. split.
    + intros [->|(i & n & Hi & Hn & Hc)].
      * by exists 0, next.
      * by exists (S i), n.
    + intros ([|i] & n & Hi & Hn & Hc).
      * left. simpl in Hi. by simplify_eq.
      * right. by exists i, n.
  - rewrite IH. split.
    + intros (i & n & Hi & Hn & Hc). by exists (S i), n.
    + intros ([|i] & n & Hi & Hn & Hc).
      * simpl in Hi, Hn. by simplify_eq.
      * by exists i, n.
Qed.

Lemma with_crossing_sorted (amp onsets : list Qc) :
  StronglySorted Qclt onsets →
  StronglySorted Qclt (Breath.with_crossing amp onsets).
Proof.
  induction 1 as [|v onsets Hs IH Hv]; [constructor|].
  cbn [Breath.with_crossing]. destruct onsets as [|next onsets];
    [constructor|].
  destruct (decide _); [|done].
  constructor; [done|].
  apply Forall_forall. intros t (i & n & Hi & _)%with_crossing_spec.
  rewrite Forall_forall in Hv. apply Hv, list_elem_of_lookup. eauto.
Qed.

Lemma onset_times_all_sorted (threshold : Qc) (x : list Qc) :
  StronglySorted Qclt (Bout.onset_times threshold x).
Proof.
  unfold Bout.onset_times.
  apply (StronglySorted_fmap _ lt); [|apply argwhere_from_sorted].
  intros i j Hij. apply Qcmult_lt_compat_r; [reflexivity|].
  apply (proj1 (Z2Qc_inj_lt _ _)). lia.
Qed.

(** X16. The inspiration onsets that [MovementTiming.make] records are
    strictly increasing; a phase onset is recorded exactly when it is not
    the last one and the breathing trace crosses the amplitude threshold
    downwards strictly between it and the next phase onset.  The last
    phase onset is never recorded. *)
Theorem inspiration_onsets_need_crossing (phase_b good_breathing : list Qc) :
  let inspir_onset := Bout.onset_times Tuning.np_pi phase_b in
  let inspir_amp :=
    (λ i, Qc_of_Z (Z.of_nat i) * Bout.bin_width)%Qc
      <$> Np.argwhere (Breath.falling Breath.a_threshold good_breathing) in
  StronglySorted Qclt (Breath.inspiration_onsets phase_b good_breathing)
  ∧ (∀ t, t ∈ Breath.inspiration_onsets phase_b good_breathing
          ↔ ∃ i next, inspir_onset !! i = Some t
              ∧ inspir_onset !! S i = Some next
              ∧ ∃ a, a ∈ inspir_amp ∧ (t < a)%Qc ∧ (a < next)%Qc)
  ∧ (∀ t, last inspir_onset = Some t →
          t ∉ Breath.inspiration_onsets phase_b good_breathing).
Proof.
  intros inspir_onset inspir_amp. unfold Breath.inspiration_onsets.
  fold inspir_onset. fold inspir_amp.
  pose proof (onset_times_all_sorted Tuning.np_pi phase_b) as Hs.
  fold inspir_onset in Hs.
  split; [by apply with_crossing_sorted|]. split.
  - intros t. rewrite with_crossing_spec.
    setoid_rewrite Exists_exists. naive_solver.
  - intros t Hlast (i & next & Hi & Hn & _)%with_crossing_spec.
    rewrite last_lookup in Hlast.
    pose proof (StronglySorted_lookup_lt Qclt inspir_onset i (S i) t next
                  Hs Hi Hn ltac:(lia)) as Hlt.
    destruct (decide (S i = Init.Nat.pred (length inspir_onset))) as [Heq|Hne].
    + rewrite <-Heq in Hlast. simplify_eq. by apply Qclt_not_eq in Hlt.
    + pose proof (lookup_lt_Some _ _ _ Hn) as Hn'.
      pose proof (StronglySorted_lookup_lt Qclt inspir_onset (S i)
                    (Init.Nat.pred (length inspir_onset)) next t
                    Hs Hn Hlast ltac:(lia)) as Hlt'.
      exact (Qclt_not_le _ _ Hlt (Qclt_le_weak _ _ Hlt')).
Qed.


(** ** Bout detection: what the detector returns, and when *)

Lemma well_ordered_lookup (on off : list Qc) (i : nat) (t_on t_off : Qc) :
  Bout.well_ordered on off →
  on !! i = Some t_on → off !! i = Some t_off →
  (t_on < t_off)%Qc
  ∧ ∀ t_next, on !! S i = Some t_next → (t_off < t_next)%Qc.
Proof.
  revert off i. induction on as [|t on IH]; intros [|t' off] i; try done.
  intros (Hlt & Hnext & Hrest) Hon Hoff.
  destruct i as [|i].
  - simpl in Hon, Hoff. simplify_eq. split; [done|].
    intros t_next Ht. simpl in Ht. destruct on as [|t'' on]; [done|].
    simpl in Ht. by simplify_eq.
  - simpl in Hon, Hoff. by apply (IH off i).
Qed.

(** X13. Whenever the bout detector returns (for licking and for
    whisking alike), it returns as many offsets as onsets, every bout ends
    after it starts, and every bout starts after the one before has
    ended. *)
Theorem bouts_paired_and_ordered (threshold lo hi : Qc) (two : bool)
  (x on off : list Qc) :
  Bout.bouts threshold lo hi two x = Py.Ok (on, off) →
  length on = length off
  ∧ ∀ i t_on t_off,
      on !! i = Some t_on → off !! i = Some t_off →
      (t_on < t_off)%Qc
      ∧ ∀ t_next, on !! S i = Some t_next → (t_off < t_next)%Qc.
Proof.
  intros Hrun. apply bouts_well_ordered in Hrun.
  split; [by apply well_ordered_length|].
  intros i t_on t_off. by apply well_ordered_lookup.
Qed.

Lemma bouts_paired_and_ordered_witness :
  ∃ on off,
    Bout.lick_bouts (ex_licks 7 ++ ex_pause 500 ++ ex_licks 7
                     ++ ex_pause 500 ++ ex_licks 8) = Py.Ok (on, off)
    ∧ length on = length off.
Proof.
  destruct lick_bouts_three_bouts as (on & off & Hrun & _).
  exists on, off. split; [exact Hrun|].
  exact (proj1 (bouts_paired_and_ordered
                  (Q2Qc (1 # 2)) (Qc_of_Z 3) (Qc_of_Z 9) false
                  (ex_licks 7 ++ ex_pause 500 ++ ex_licks 7
                   ++ ex_pause 500 ++ ex_licks 8) on off Hrun)).
Defined.

(** The cycles kept as part of a bout ([lick_onset_idx],
    [whi_onset_idx]), as the detector computes them. *)
Definition bout_cycles (threshold lo hi : Qc) (two : bool) (x : list Qc)
  : list nat :=
  let ton_onset := Bout.onset_times threshold x in
  let ilf := (λ d, F.div (F.of_Z 1) (Some d)) <$> Np.diff Qcminus ton_onset in
  let f_cond := Bout.in_band lo hi <$> ilf in
  let ton_onset_idx := Np.argwhere f_cond in
  let next_lick := Np.diff Z.sub (Z.of_nat <$> ton_onset_idx) in
  Bout.keep_cycles two (take (length ton_onset_idx - 2) ton_onset_idx)
                   next_lick.

(** A kept cycle is followed by at least two more onsets. *)
Lemma bout_cycles_bound (threshold lo hi : Qc) (two : bool) (x : list Qc)
  (a : nat) :
  a ∈ bout_cycles threshold lo hi two x →
  a + 2 < length (Curve.but_last (Bout.onset_times threshold x)).
Proof.
  unfold bout_cycles.
  set (f_cond := Bout.in_band lo hi <$> _).
  intros Ha%keep_cycles_elem.
  apply list_elem_of_lookup in Ha as [p Hp].
  apply lookup_take_Some in Hp as [Hp Hlt].
  destruct (lookup_lt_is_Some_2 (Np.argwhere f_cond) (S p)) as [b Hb];
    [lia|].
  destruct (lookup_lt_is_Some_2 (Np.argwhere f_cond) (S (S p))) as [c Hc];
    [lia|].
  pose proof (argwhere_from_sorted 0 f_cond) as Hs.
  fold (Np.argwhere f_cond) in Hs.
  pose proof (StronglySorted_lookup_lt lt _ p (S p) a b Hs Hp Hb).
  pose proof (StronglySorted_lookup_lt lt _ (S p) (S (S p)) b c Hs Hb Hc).
  assert (c < length f_cond) as Hcl.
  { apply argwhere_lt_length, list_elem_of_lookup. eauto. }
  unfold f_cond in Hcl. rewrite !length_fmap, diff_length in Hcl.
  unfold Curve.but_last. rewrite length_take. lia.
Qed.

Lemma take_rows_elem {A} (rows : list A) (idx : list nat) (out : list A)
  (x : A) :
  TrialOrder.take_rows rows idx = Py.Ok out → x ∈ out → x ∈ rows.
Proof.
  intros Hall%take_rows_Ok_inv Hx.
  apply list_elem_of_lookup in Hx as [j Hj].
  destruct (Forall2_lookup_r _ _ _ _ _ Hall Hj) as (i & _ & Hi).
  apply list_elem_of_lookup. eauto.
Qed.

(** Once the bout starts and ends are known, reading the times never
    fails. *)
Lemma bouts_tail_returns (T : list Qc) (I B : list nat) (e : nat) :
  (∀ a, a ∈ I → a + 2 < length T) →
  (∀ b, b ∈ B → S b < length I) →
  e < length I →
  ∃ on off,
    (on_idx ← Tuning.take_ind I (0 :: (S <$> B));
     lick_onset_time ← Tuning.take_ind T on_idx;
     off_idx ← Tuning.take_ind I (B ++ [e]);
     lick_offset_time ← Tuning.take_ind T ((λ i, i + 2) <$> off_idx);
     mret (lick_onset_time, lick_offset_time)) = Py.Ok (on, off).
Proof.
  intros HI HB He. unfold Tuning.take_ind.
  destruct (take_rows_Ok_intro I (0 :: (S <$> B))) as [on_idx Hon_idx].
  { constructor; [lia|]. apply Forall_fmap, Forall_forall.
    intros b Hb%HB. simpl. lia. }
  rewrite Hon_idx. change (mbind ?f (Py.Ok ?v)) with (f v). cbv beta.
  destruct (take_rows_Ok_intro T on_idx) as [on Hon].
  { apply Forall_forall. intros a Ha.
    apply (take_rows_elem _ _ _ _ Hon_idx), HI in Ha. lia. }
  rewrite Hon. change (mbind ?f (Py.Ok ?v)) with (f v). cbv beta.
  destruct (take_rows_Ok_intro I (B ++ [e])) as [off_idx Hoff_idx].
  { apply Forall_app. split; [|by repeat constructor].
    apply Forall_forall. intros b Hb%HB. lia. }
  rewrite Hoff_idx. change (mbind ?f (Py.Ok ?v)) with (f v). cbv beta.
  destruct (take_rows_Ok_intro T ((λ i, i + 2) <$> off_idx)) as [off Hoff].
  { apply Forall_fmap, Forall_forall. intros a Ha. simpl.
    by apply (take_rows_elem _ _ _ _ Hoff_idx), HI in Ha. }
  rewrite Hoff. by exists on, off.
Qed.

(** X14. The bout detector returns exactly when two kept cycles that
    follow each other lie two or more onsets apart, that is when there is
    more than one bout; reading the bout times, at the kept cycles and two
    onsets after them, is then always within the array of onsets.  In
    every other case, a trace with a single bout or with none, it raises
    [IndexError] at [lick_bout_onset[0]]. *)
Theorem bouts_returns_iff_gap (threshold lo hi : Qc) (two : bool)
  (x : list Qc) :
  (Exists (λ v, (2 ≤ v)%Z) (idx_diff (bout_cycles threshold lo hi two x)) →
   ∃ on off, Bout.bouts threshold lo hi two x = Py.Ok (on, off))
  ∧ (Forall (λ v, (v < 2)%Z) (idx_diff (bout_cycles threshold lo hi two x)) →
     Bout.bouts threshold lo hi two x = Py.Raise Py.IndexError).
Proof.
  pose proof (bout_cycles_bound threshold lo hi two x) as Hbound.
  unfold Bout.bouts. unfold bout_cycles in *.
  set (T := Curve.but_last _) in *.
  set (A := Np.argwhere (Bout.in_band lo hi <$> _)) in *.
  set (I := Bout.keep_cycles _ _ _) in *.
  change (Np.diff Z.sub (Z.of_nat <$> I)) with (idx_diff I).
  assert (length (idx_diff I) = length I - 1) as Hlen.
  { unfold idx_diff. by rewrite diff_length, length_fmap. }
  destruct (decide (idx_diff I = [])) as [Hd|Hd].
  { rewrite Hd. split; [by intros ?%Exists_nil|done]. }
  assert (0 < length (idx_diff I)) as Hpos
    by (destruct (idx_diff I); [done|simpl; lia]).
  destruct (bout_indices (idx_diff I) Hd) as (B & HBs & HB & Hcases).
  assert (∀ b, b ∈ B → S b < length I) as HB'.
  { intros b [Hb _]%HB. lia. }
  destruct Hcases as [[Hon Hoff]|[Hon Hoff]]; rewrite Hon, Hoff.
  - split.
    + intros _.
      apply (bouts_tail_returns T I B (length (idx_diff I) - 1));
        [done|done|lia].
    + intros Hall. exfalso.
      assert (length (idx_diff I) - 1
              ∈ Np.argwhere ((λ v, bool_decide (2 ≤ v)%Z) <$> idx_diff I))
        as Hin by (rewrite Hoff; apply elem_of_app; right; by left).
      apply argwhere_elem in Hin. rewrite list_lookup_fmap in Hin.
      destruct (idx_diff I !! (length (idx_diff I) - 1)) as [v|] eqn:Hv;
        [|done].
      simpl in Hin. injection Hin as Hin. apply bool_decide_eq_true in Hin.
      rewrite Forall_forall in Hall.
      assert (v ∈ idx_diff I) as Hv' by (apply list_elem_of_lookup; eauto).
      apply Hall in Hv'. lia.
  - destruct B as [|b B].
    + split; [|done]. intros Hex. exfalso.
      apply Exists_exists in Hex as (v & [k Hk]%list_elem_of_lookup & Hv).
      assert (k ∈ Np.argwhere ((λ v, bool_decide (2 ≤ v)%Z) <$> idx_diff I))
        as Hin.
      { apply argwhere_elem. rewrite list_lookup_fmap, Hk. simpl.
        by rewrite bool_decide_eq_true_2. }
      rewrite Hoff in Hin. by apply elem_of_nil in Hin.
    + split.
      * intros _.
        apply (bouts_tail_returns T I (b :: B) (length I - 1));
          [done|done|lia].
      * intros Hall. exfalso.
        destruct (HB b) as [_ (v & Hv & Hv2)]; [by left|].
        rewrite Forall_forall in Hall.
        assert (v ∈ idx_diff I) as Hv' by (apply list_elem_of_lookup; eauto).
        apply Hall in Hv'. lia.
Qed.

(** ** Linear arithmetic on [Qc] *)

(** Goals and hypotheses on [Qc] are moved to [Q], where [lra] decides
    linear arithmetic. *)
Ltac qc_simp :=
  unfold Qcle, Qclt, Qcdiv, Qcminus, Qcplus, Qcmult, Qcopp, Qcinv, Q2Qc in *;
  cbn [this] in *;
  repeat match goal with
  | H : context [Qred ?q] |- _ => rewrite (Qred_correct q) in H
  | |- context [Qred ?q] => rewrite (Qred_correct q)
  end.

Ltac qc_lra :=
  intros;
  repeat match goal with
  | H : @eq Qc ?x ?y |- _ => apply (f_equal this) in H
  | |- @eq Qc ?x ?y => apply Qc_is_canon
  end;
  qc_simp; lra.


(** ** Spike times along the session *)











(** ** Spike counts around the lick-bout onsets *)

Lemma first_pair_cons2 (thr next : nat) (rest : list nat) :
  Psth.first_pair (thr :: next :: rest)
  = if decide (next = thr + 1)
    then (Qc_of_Z (Z.of_nat thr) * Psth.bin_width)%Qc
    else Psth.first_pair (next :: rest).
Proof. done. Qed.

Lemma first_pair_cases (l : list nat) :
  StronglySorted lt l →
  (∃ k, k ∈ l ∧ S k ∈ l ∧ (∀ j, j < k → ¬ (j ∈ l ∧ S j ∈ l))
      ∧ Psth.first_pair l = (Qc_of_Z (Z.of_nat k) * Psth.bin_width)%Qc)
  ∨ ((∀ k, ¬ (k ∈ l ∧ S k ∈ l)) ∧ Psth.first_pair l = 0%Qc).
Proof.
  induction l as [|thr rest IH]; intros Hs.
  { right. split; [|done]. by intros k [?%elem_of_nil _]. }
  apply StronglySorted_cons in Hs as [Hthr Hs].
  specialize (IH Hs). rewrite Forall_forall in Hthr.
  destruct rest as [|next rest'].
  { right. split; [|done]. intros k [Hk HSk].
    apply list_elem_of_singleton in Hk, HSk. lia. }
  assert (∀ x, x ∈ next :: rest' → next ≤ x) as Hnext.
  { intros x [->|Hx]%elem_of_cons; [done|].
    apply StronglySorted_cons in Hs as [Hn _].
    rewrite Forall_forall in Hn. specialize (Hn x Hx). lia. }
  rewrite first_pair_cons2. destruct (decide (next = thr + 1)) as [->|Hne].
  - left. exists thr. split_and!; [by left| |  |done].
    + right. replace (S thr) with (thr + 1) by lia. by left.
    + intros j Hj [[->|Hin%Hthr]%elem_of_cons _]; lia.
  - assert (thr < next) as Hlt by (apply Hthr; by left).
    assert (∀ k, k ∈ thr :: next :: rest' → S k ∈ thr :: next :: rest' →
                 k ∈ next :: rest' ∧ S k ∈ next :: rest') as Hshift.
    { intros k Hk HSk.
      apply elem_of_cons in Hk as [->|Hk].
      - apply elem_of_cons in HSk as [?|HSk%Hnext]; lia.
      - split; [done|]. apply elem_of_cons in HSk as [?|HSk]; [|done].
        apply Hthr in Hk. lia. }
    destruct IH as [(k & Hk & HSk & Hleast & ->)|[Hno ->]].
    + left. exists k. split_and!; [by right|by right| |done].
      intros j Hj [Hj1 Hj2]. apply (Hleast j Hj). by apply Hshift.
    + right. split; [|done]. intros k [Hk1 Hk2]. apply (Hno k).
      by apply Hshift.
Qed.

(** Bin [k] after the onset holds more spikes than the threshold. *)
Definition above (poisson_ppf : Qc → F.float64 → F.float64) (y : list nat)
  (k : nat) : Prop :=
  ∃ c q, y !! (1000 + k) = Some c
       ∧ poisson_ppf (Q2Qc (95 # 100)) (F.mean (F.of_nat <$> take 999 y))
         = Some q
       ∧ (q < Qc_of_Z (Z.of_nat c))%Qc.

Lemma LickLatency_bins :
  Z.to_nat (Tuning.astype_int (1 / Psth.bin_width - 1)) = 999
  ∧ Z.to_nat (Tuning.astype_int (1 / Psth.bin_width)) = 1000.
Proof. split; by vm_compute. Qed.

Lemma thr_cross_elem poisson_ppf (y : list nat) (k : nat) :
  k ∈ Psth.thr_cross poisson_ppf y ↔ above poisson_ppf y k.
Proof.
  unfold Psth.thr_cross, Psth.threshold, above. cbv zeta.
  destruct LickLatency_bins as [-> ->].
  rewrite argwhere_elem, list_lookup_fmap, lookup_drop.
  destruct (y !! (1000 + k)) as [c|]; cbn [fmap option_fmap option_map];
    [|split; [done|by intros (? & ? & ? & _)]].
  unfold Psth.exceeds.
  destruct (poisson_ppf _ _) as [q|];
    [|split; [done|by intros (? & ? & _ & ? & _)]].
  split.
  - intros [= Hq%bool_decide_eq_true]. by exists c, q.
  - intros (c' & q' & [= <-] & [= <-] & Hq). f_equal.
    by apply bool_decide_eq_true.
Qed.

(** X18. The latency that [LickLatency.make] stores is the start of the
    first two neighbouring 1-ms bins after the lick-bout onset whose spike
    counts both exceed the threshold: [k*0.001] for the least such [k].
    A bin that exceeds the threshold alone does not count, and when no two
    neighbouring bins do the latency is 0, the value it also takes when
    the first two bins after the onset exceed the threshold. *)
Theorem latency_first_sustained_crossing
    (poisson_ppf : Qc → F.float64 → F.float64) (y : list nat) :
  (∀ k, above poisson_ppf y k → above poisson_ppf y (S k) →
        (∀ j, j < k → ¬ (above poisson_ppf y j ∧ above poisson_ppf y (S j))) →
        Psth.latency_of_counts poisson_ppf y
        = (Qc_of_Z (Z.of_nat k) * Psth.bin_width)%Qc)
  ∧ ((∀ k, ¬ (above poisson_ppf y k ∧ above poisson_ppf y (S k))) →
     Psth.latency_of_counts poisson_ppf y = 0%Qc)
  ∧ (Psth.latency_of_counts poisson_ppf y = 0%Qc →
     (above poisson_ppf y 0 ∧ above poisson_ppf y 1)
     ∨ ∀ k, ¬ (above poisson_ppf y k ∧ above poisson_ppf y (S k))).
Proof.
  unfold Psth.latency_of_counts.
  destruct (first_pair_cases (Psth.thr_cross poisson_ppf y))
    as [(k0 & Hk0 & HSk0 & Hleast & ->)|[Hno ->]].
  { apply argwhere_from_sorted. }
  - apply thr_cross_elem in Hk0, HSk0.
    assert (∀ j, j < k0 →
      ¬ (above poisson_ppf y j ∧ above poisson_ppf y (S j))) as Hleast'.
    { intros j Hj [Hj1 Hj2]. apply (Hleast j Hj).
      split; by apply thr_cross_elem. }
    split_and!.
    + intros k Hk HSk Hl. destruct (Nat.lt_trichotomy k k0) as [?|[->|?]].
      * by destruct (Hleast' k).
      * done.
      * by destruct (Hl k0).
    + intros Hnone. by destruct (Hnone k0).
    + intros H0. left. apply Qcmult_integral in H0 as [H0|H0]; [|done].
      rewrite <-Z2Qc_inj_0 in H0. apply Z2Qc_inj in H0.
      assert (k0 = 0) as -> by lia. done.
  - assert (∀ k, ¬ (above poisson_ppf y k ∧ above poisson_ppf y (S k)))
      as Hnone.
    { intros k [Hk1 Hk2]. apply (Hno k). split; by apply thr_cross_elem. }
    split_and!; [|done|by right].
    intros k Hk HSk _. by destruct (Hnone k).
Qed.

(** *** [UnitPsth.make] *)

(** Edge [k] of the histogram of [UnitPsth.make]. *)
Definition psth_edge (k : nat) : Qc :=
  (- Q2Qc (1 # 2) + Qc_of_Z (Z.of_nat k) * Psth.bin_width)%Qc.

(** A spike at distance [d] from a lick-bout onset is counted in bin [k]:
    it lies in the window, at or after the lower edge of the bin and before
    its upper edge; bin 998, the last one, includes its upper edge. *)
Definition in_psth_bin (k : nat) (d : Qc) : Prop :=
  (- Q2Qc (1 # 2) < d)%Qc ∧ (d < Q2Qc (1 # 2))%Qc
  ∧ (psth_edge k ≤ d)%Qc
  ∧ ((d < psth_edge (S k))%Qc ∨ (k = 998 ∧ d = psth_edge 999)).

#[global] Instance in_psth_bin_dec k d : Decision (in_psth_bin k d).
Proof. unfold in_psth_bin. apply _. Defined.

(** The number of pairs of a lick-bout onset and a spike that bin [k]
    counts. *)
Definition pairs_in_bin (good_spikes lick_onset : list Qc) (k : nat) : nat :=
  sum_list ((λ l, length (filter (λ s, in_psth_bin k (s - l)%Qc) good_spikes))
              <$> lick_onset).

Lemma UnitPsth_edges :
  Psth.arange (- Q2Qc (1 # 2)) (Q2Qc (1 # 2)) Psth.bin_width
  = psth_edge <$> seq 0 1000.
Proof.
  unfold Psth.arange.
  by replace (Z.to_nat (Psth.ceil ((Q2Qc (1 # 2) - - Q2Qc (1 # 2))
                                   / Psth.bin_width))) with 1000
    by (by vm_compute).
Qed.

Lemma psth_edge_lookup (k : nat) :
  k < 1000 → (psth_edge <$> seq 0 1000) !!! k = psth_edge k.
Proof.
  intros Hk. apply list_lookup_total_correct.
  rewrite list_lookup_fmap, lookup_seq_lt by done. done.
Qed.

Lemma psth_edge_S (k : nat) :
  psth_edge (S k) = (psth_edge k + Psth.bin_width)%Qc.
Proof.
  unfold psth_edge.
  rewrite Nat2Z.inj_succ, <-Z.add_1_r, Z2Qc_inj_add, Z2Qc_inj_1. qc_lra.
Qed.

Lemma psth_edge_mono (j k : nat) : j ≤ k → (psth_edge j ≤ psth_edge k)%Qc.
Proof.
  intros Hjk. unfold psth_edge. apply (proj1 (Qcplus_le_mono_l _ _ _)).
  apply Qcmult_le_mono_nonneg_r.
  - done.
  - apply (proj1 (Z2Qc_inj_le _ _)). lia.
Qed.

Lemma length_filter_fmap_filter {A B} (P : B → Prop) (Q : A → Prop)
    `{!∀ y, Decision (P y)} `{!∀ x, Decision (Q x)} (f : A → B) (l : list A) :
  length (filter P (f <$> filter Q l))
  = length (filter (λ x, Q x ∧ P (f x)) l).
Proof.
  induction l as [|a l IH]; [done|].
  destruct (decide (Q a)) as [Hq|Hq].
  - rewrite (filter_cons_True Q) by done. rewrite fmap_cons.
    destruct (decide (P (f a))) as [Hp|Hp].
    + rewrite !filter_cons_True by done. cbn. by rewrite IH.
    + rewrite (filter_cons_False P) by done.
      by rewrite filter_cons_False by (by intros []).
  - rewrite (filter_cons_False Q) by done.
    by rewrite filter_cons_False by (by intros []).
Qed.

Lemma length_filter_concat {A} (P : A → Prop) `{!∀ x, Decision (P x)}
    (ls : list (list A)) :
  length (filter P (concat ls))
  = sum_list ((λ l, length (filter P l)) <$> ls).
Proof.
  induction ls as [|l ls IH]; [done|].
  cbn [concat]. rewrite filter_app, length_app, IH. done.
Qed.

Lemma length_filter_iff {A} (P Q : A → Prop) `{!∀ x, Decision (P x)}
    `{!∀ x, Decision (Q x)} (l : list A) :
  (∀ x, P x ↔ Q x) → length (filter P l) = length (filter Q l).
Proof. intros Hiff. by rewrite (list_filter_iff P Q). Qed.

Lemma UnitPsth_count (g lick_onset : list Qc) (k : nat) :
  k < 999 →
  length (filter (Curve.in_bin (psth_edge <$> seq 0 1000) 999 k)
            (concat (Psth.around (Q2Qc (1 # 2)) (Q2Qc (1 # 2)) g
                       <$> lick_onset)))
  = pairs_in_bin g lick_onset k.
Proof.
  intros Hk. rewrite length_filter_concat, <-list_fmap_compose.
  unfold pairs_in_bin. f_equal. apply list_fmap_ext. intros _ l _. cbn.
  unfold Psth.around. rewrite length_filter_fmap_filter.
  apply length_filter_iff. intros s. cbv beta.
  unfold Curve.in_bin, in_psth_bin.
  rewrite !psth_edge_lookup by lia.
  split.
  - intros [[H1 H2] [H3 H4]]. split_and!; [qc_lra|qc_lra|done|].
    destruct H4 as [?|[? H4]]; [by left|].
    assert (k = 998) as -> by lia.
    destruct (Qcle_lt_or_eq _ _ H4) as [?|?]; [by left|by right].
  - intros (H1 & H2 & H3 & H4). split_and!; [qc_lra|qc_lra|done|].
    destruct H4 as [?|[-> ->]]; [by left|right]. done.
Qed.

Lemma psth_Ok (t_before t_after : Qc) (g lick_onset : list Qc) :
  lick_onset ≠ [] →
  Psth.psth t_before t_after g lick_onset
  = Py.Ok (concat (Psth.around t_before t_after g <$> lick_onset)).
Proof. intros Hne. unfold Psth.psth, Spikes.hstack. by destruct lick_onset. Qed.

Lemma psth_edge_width :
  ((psth_edge <$> seq 0 1000) !!! 1%nat - (psth_edge <$> seq 0 1000) !!! 0%nat)%Qc
  = Psth.bin_width.
Proof. rewrite !psth_edge_lookup by lia. by apply Qc_is_canon. Qed.

(** X19. [UnitPsth.make] raises [ValueError] for a unit without trials and
    for a session without lick bouts.  Otherwise it returns 999 bins of
    1 ms, centred at -0.4995, ..., 0.4985 s; the value of a bin is the
    number of pairs of a lick-bout onset and a spike whose distance falls
    into the bin, divided by the number of onsets and by the bin width.  A
    spike that is close to several onsets counts once for each of them;
    spikes later than 0.499 s after an onset are not counted. *)
Theorem UnitPsth_rate_per_onset (all_spikes : list (list Qc))
    (lick_onset : list Qc) :
  (all_spikes = [] ∨ lick_onset = [] →
   Psth.UnitPsth all_spikes lick_onset = Py.Raise Py.ValueError)
  ∧ (∀ g, Spikes.good_spikes all_spikes = Py.Ok g → lick_onset ≠ [] →
     ∃ y bins, Psth.UnitPsth all_spikes lick_onset = Py.Ok (y, bins)
       ∧ length y = 999 ∧ length bins = 999
       ∧ ∀ k, k < 999 →
           bins !! k = Some (psth_edge k + Q2Qc (1 # 2000))%Qc
           ∧ y !! k
             = Some (Some (Qc_of_Z (Z.of_nat (pairs_in_bin g lick_onset k))
                           / Qc_of_Z (Z.of_nat (length lick_onset))
                           / Psth.bin_width)%Qc))
  ∧ (∀ k d, k < 999 → in_psth_bin k d → (d ≤ Q2Qc (499 # 1000))%Qc).
Proof.
  split_and!.
  - intros Hempty. unfold Psth.UnitPsth. cbv zeta.
    destruct all_spikes as [|d ds]; [done|].
    destruct Hempty as [?| ->]; [done|].
    unfold Spikes.good_spikes, Spikes.hstack. by rewrite imap_cons.
  - intros g Hg Hne. unfold Psth.UnitPsth. cbv zeta. rewrite Hg.
    change (mbind ?f (Py.Ok ?v)) with (f v). cbv beta.
    rewrite psth_Ok by done.
    change (mbind ?f (Py.Ok ?v)) with (f v). cbv beta.
    rewrite UnitPsth_edges, psth_edge_width.
    eexists _, _. split; [reflexivity|].
    unfold Psth.histogram_bins. cbv zeta.
    rewrite !length_fmap, !length_drop, !length_fmap, !length_seq.
    split_and!; [done..|]. intros k Hk. split.
    + rewrite list_lookup_fmap, lookup_drop, list_lookup_fmap.
      rewrite lookup_seq_lt by lia. cbn [fmap option_fmap option_map].
      f_equal. change (0 + (1 + k)) with (S k).
      rewrite psth_edge_S.
      replace (Psth.bin_width / 2)%Qc with (Q2Qc (1 # 2000))
        by (by apply Qc_is_canon).
      unfold Psth.bin_width. generalize (psth_edge k). qc_lra.
    + rewrite !list_lookup_fmap.
      change (length (psth_edge <$> seq 0 1000) - 1) with 999.
      rewrite lookup_seq_lt by lia. cbn [fmap option_fmap option_map].
      rewrite UnitPsth_count by done. f_equal.
      unfold F.div, F.of_nat, F.of_Z.
      rewrite decide_False.
      2:{ intros Heq%Z2Qc_inj. destruct lick_onset; [done|]. cbn in Heq. lia. }
      by rewrite decide_False.
  - intros k d Hk (_ & _ & _ & [Hlt|[_ ->]]).
    + apply Qclt_le_weak. eapply Qclt_le_trans; [exact Hlt|].
      replace (Q2Qc (499 # 1000)) with (psth_edge 999)
        by (by apply Qc_is_canon).
      apply psth_edge_mono. lia.
    + by replace (Q2Qc (499 # 1000)) with (psth_edge 999)
        by (by apply Qc_is_canon).
Qed.
